(** * Flash-Master: review scheduling and answer grading

    A shallow embedding of the grading and scheduling core of the
    Flash-Master study tool:

    - [src/utils/srs.ts]: the familiarity state machine and the Simple
      scheduling algorithm;
    - [src/utils/moedict.ts]: the phonetic normaliser, the Levenshtein
      similarity and the phonetic validator with its cached lookup;
    - [src/components/StudyView.tsx] and [src/components/ReviewView.tsx]:
      the two [checkAnswer] evaluators;
    - the database context's [getDueLearningRecords];
    - further, the SM2 algorithm, the cache and the utilities of
      [moedict.ts], the key, submit and rating handlers of the two views,
      the due questions of the review view and the operations of the
      database context on the learning records;
    - the lookup and the validator of [moedict.ts] once more, on JSON
      payloads of any shape and on requests that may stay pending (module
      [Wire]), and the study view as a state machine over its events
      (module [StudySession]).

    Conventions.  A JavaScript string is the list of its UTF-16 code units.
    Integer-valued JavaScript numbers (lengths, indices, counters, clock
    readings in milliseconds) are [nat] or [Z]; the other numbers
    (similarities, confidences, intervals in days) are exact rationals
    [Qc]: the rounding of binary64 arithmetic is not modelled.  A function
    that mutates one of its arguments returns the argument's new value next
    to its result, an [async] function the value its promise settles to,
    and [null] and [undefined] are [None]. *)

From Stdlib Require Import ZArith QArith Qcanon Qround Lia List.
From Stdlib Require Import Permutation Sorted.
From stdpp Require Import base option list numbers countable gmap sets.

Open Scope Z_scope.

(** ** JavaScript values *)

(** A string, as the sequence of its UTF-16 code units. *)
Abbreviation jsstring := (list N).

(** Exceptions.  [Return v] is normal completion, [Throw e] an exception
    that propagates to the caller unless a [try] catches it. *)
Inductive Error : Set :=
| TypeError
| URIError
| SyntaxError
| NetworkError
| HttpError (status : Z).

Inductive exn (A : Type) : Type :=
| Return (v : A)
| Throw (e : Error).
Arguments Return {A} v.
Arguments Throw {A} e.

Definition exn_bind {A B : Type} (c : exn A) (k : A -> exn B) : exn B :=
  match c with
  | Return v => k v
  | Throw e => Throw e
  end.

Notation "x <- c ;; k" := (exn_bind c (fun x => k))
  (at level 100, c at next level, right associativity).

(** Strict equality of strings. *)
Definition str_eqb (x y : jsstring) : bool := bool_decide (x = y).

(** Numbers that need not be integers. *)
Definition num_ltb (x y : Qc) : bool :=
  match (x ?= y)%Qc with Lt => true | _ => false end.
Definition num_leb (x y : Qc) : bool := negb (num_ltb y x).
Definition num_eqb (x y : Qc) : bool :=
  match (x ?= y)%Qc with Eq => true | _ => false end.
Definition Math_min (x y : Qc) : Qc := if num_ltb y x then y else x.
Definition Math_max (x y : Qc) : Qc := if num_ltb x y then y else x.

(** A decimal literal [n / d]. *)
Definition lit (n : Z) (d : positive) : Qc := Q2Qc (n # d).

(** ** [src/utils/srs.ts] *)

Module SRS.

(** [FamiliarityLevel] of the type declarations, in the order in which the
    application lists the tiers. *)
Inductive FamiliarityLevel : Set :=
| unfamiliar
| unanswered
| somewhat_familiar
| familiar
| mastered.

(** The tier right above [f] in the five-tier order; [mastered] has none. *)
Definition successor (f : FamiliarityLevel) : option FamiliarityLevel :=
  match f with
  | unfamiliar => Some unanswered
  | unanswered => Some somewhat_familiar
  | somewhat_familiar => Some familiar
  | familiar => Some mastered
  | mastered => None
  end.

(** [updateFamiliarity]. *)
Definition updateFamiliarity
    (currentFamiliarity : FamiliarityLevel) (isCorrect : bool) (timeSpent : Qc)
    : FamiliarityLevel :=
  if isCorrect then
    match currentFamiliarity with
    | unfamiliar => somewhat_familiar
    | unanswered => somewhat_familiar
    | somewhat_familiar =>
        if num_ltb timeSpent (Qc_of_Z 10) then familiar else somewhat_familiar
    | familiar =>
        if num_ltb timeSpent (Qc_of_Z 5) then mastered else familiar
    | mastered => mastered
    end
  else
    match currentFamiliarity with
    | unfamiliar => unfamiliar
    | unanswered => unfamiliar
    | somewhat_familiar => unfamiliar
    | familiar => somewhat_familiar
    | mastered => familiar
    end.

(** Milliseconds in a day; a [Date] is its time value in milliseconds. *)
Definition msPerDay : Z := 86400000.

(** [addDays] of the date-fns package, which [srs.ts] imports: it calls
    [date.setDate(date.getDate() + amount)], and [setDate] converts the day
    number to an integer by truncation (ECMAScript [MakeDay]).  For the
    non-negative amounts the schedulers pass, and in a time zone whose UTC
    offset is fixed, that moves the date by the whole days of [amount]; an
    amount of [0] leaves the date as it is. *)
Definition addDays (date : Z) (amount : Qc) : Z :=
  date + Qfloor amount * msPerDay.

(** The value of [intervalDays] when [SimpleSRSAlgorithm.calculateNextReview]
    reaches its [return]: the base interval of the tier, scaled by the
    accuracy and by the streak. *)
Definition intervalDays
    (currentFamiliarity : FamiliarityLevel)
    (correctCount incorrectCount streak : Z) : Qc :=
  let intervalDays :=
    match currentFamiliarity with
    | unfamiliar => lit 1 10
    | unanswered => lit 5 10
    | somewhat_familiar => Qc_of_Z 1
    | familiar => Qc_of_Z 3
    | mastered => Qc_of_Z 7
    end in
  let totalAttempts := correctCount + incorrectCount in
  let intervalDays :=
    if 0 <? totalAttempts then
      let accuracy := (Qc_of_Z correctCount / Qc_of_Z totalAttempts)%Qc in
      if num_leb (lit 9 10) accuracy then (intervalDays * lit 15 10)%Qc
      else if num_ltb accuracy (lit 6 10) then (intervalDays * lit 5 10)%Qc
      else intervalDays
    else intervalDays in
  if 0 <? streak then
    (intervalDays *
       Math_min (1 + Qc_of_Z streak * lit 2 10) (Qc_of_Z 3))%Qc
  else intervalDays.

(** The interface [SRSAlgorithm] of the type declarations.  The first
    argument is the reading of the clock that [new Date()] takes inside the
    method. *)
Record SRSAlgorithm : Type :=
  { calculateNextReview :
      Z -> FamiliarityLevel -> Z -> Z -> Z -> Z -> Z }.

(** [SimpleSRSAlgorithm]; [_lastReviewed] is not used. *)
Definition SimpleSRSAlgorithm : SRSAlgorithm :=
  {| calculateNextReview :=
       fun now currentFamiliarity correctCount incorrectCount streak
           _lastReviewed =>
         addDays now
           (intervalDays currentFamiliarity correctCount incorrectCount
              streak) |}.

Definition defaultSRSAlgorithm : SRSAlgorithm := SimpleSRSAlgorithm.

End SRS.

(** ** [src/utils/moedict.ts] *)

Module MoedictAPI.

(** [MoedictResponse] of the type declarations.  The fields that
    [validateBopomofo] guards ([h], and [b] through [filter(Boolean)]) may
    be absent.  This module is the code on payloads of this type, which is
    the type that [getCharacterInfo] gives them; module [Wire] below is
    the code on whatever [response.json()] returns. *)
Record Sense : Type := { f : jsstring; type : jsstring }.
Record Heteronym : Type :=
  { b : option jsstring; p : jsstring; d : list Sense }.
Record MoedictResponse : Type :=
  { t : jsstring; h : option (list Heteronym) }.

(** The tone marks of the character class in [normalizeBopomofo]:
    U+02CA, U+02C7, U+02CB and U+02D9. *)
Definition toneMarks : list N := [714; 711; 715; 729]%N.

Definition isToneMark (c : N) : bool := bool_decide (c ∈ toneMarks).

(** [normalizeBopomofo]: [replace] with the global flag removes every tone
    mark. *)
Definition normalizeBopomofo (bopomofo : jsstring) : jsstring :=
  filter (fun c => isToneMark c = false) bopomofo.

(** *** [levenshteinDistance]

    The matrix is an array of [str2.length + 1] rows of [str1.length + 1]
    cells.  A cell holds a number; the [null] of the initial fill, which
    arithmetic reads as [0], is the cell [0]. *)
Definition mget (matrix : list (list nat)) (j i : nat) : nat :=
  default 0%nat (matrix !! j ≫= (.!! i)).

(** [matrix[j][i] = v] *)
Definition mset (matrix : list (list nat)) (j i v : nat) : list (list nat) :=
  alter (<[i := v]>) j matrix.

(** [str1[i - 1] === str2[j - 1] ? 0 : 1] *)
Definition indicator (str1 str2 : jsstring) (i j : nat) : nat :=
  if decide (str1 !! (i - 1)%nat = str2 !! (j - 1)%nat) then 0%nat else 1%nat.

(** One pass of the inner loop body. *)
Definition cell (str1 str2 : jsstring) (j : nat)
    (matrix : list (list nat)) (i : nat) : list (list nat) :=
  mset matrix j i
    (((mget matrix j (i - 1) + 1) `min` (mget matrix (j - 1) i + 1)) `min`
     (mget matrix (j - 1) (i - 1) + indicator str1 str2 i j))%nat.

Definition levenshteinDistance (str1 str2 : jsstring) : nat :=
  let matrix :=
    replicate (length str2 + 1) (replicate (length str1 + 1) 0%nat) in
  let matrix :=
    foldl (fun m i => mset m 0 i i) matrix (seq 0 (length str1 + 1)) in
  let matrix :=
    foldl (fun m j => mset m j 0 j) matrix (seq 0 (length str2 + 1)) in
  let matrix :=
    foldl (fun m j => foldl (cell str1 str2 j) m (seq 1 (length str1)))
      matrix (seq 1 (length str2)) in
  mget matrix (length str2) (length str1).

Definition Qc_of_nat (n : nat) : Qc := Qc_of_Z (Z.of_nat n).

(** [calculateSimilarity] *)
Definition calculateSimilarity (bopomofo1 bopomofo2 : jsstring) : Qc :=
  let normalized1 := normalizeBopomofo bopomofo1 in
  let normalized2 := normalizeBopomofo bopomofo2 in
  if decide (normalized1 = normalized2) then 1%Qc
  else
    let distance := levenshteinDistance normalized1 normalized2 in
    let maxLength := (length normalized1 `max` length normalized2)%nat in
    if decide (maxLength = 0%nat) then 0%Qc
    else (1 - Qc_of_nat distance / Qc_of_nat maxLength)%Qc.

(** *** The invariants of the matrix loops *)

(** The recurrence that the matrix tabulates: the distance between two
    strings given by their characters, last character first.  The cell
    [matrix[j][i]] is meant to hold it for the first [i] characters of
    [str1] and the first [j] characters of [str2]. *)
Fixpoint distance_rec (p q : jsstring) : nat :=
  match p with
  | [] => length q
  | x :: p' =>
      (fix against (q : jsstring) : nat :=
         match q with
         | [] => length p
         | y :: q' =>
             (((distance_rec p' q + 1) `min` (against q' + 1)) `min`
              (distance_rec p' q' + (if decide (x = y) then 0 else 1)))%nat
         end) q
  end.

(** A matrix of [rows] rows of [columns] cells. *)
Definition shaped (rows columns : nat) (matrix : list (list nat)) : Prop :=
  length matrix = rows /\
  forall j row, matrix !! j = Some row -> length row = columns.

(** The distance between the first [i] characters of [str1] and the first
    [j] characters of [str2]. *)
Definition prefix_distance (str1 str2 : jsstring) (j i : nat) : nat :=
  distance_rec (reverse (take i str1)) (reverse (take j str2)).

(** The matrix of a call on [str1] and [str2] has its shape, and the cells
    that [known] singles out hold their prefix distances. *)
Definition tabulated (str1 str2 : jsstring) (known : nat -> nat -> Prop)
    (matrix : list (list nat)) : Prop :=
  shaped (length str2 + 1) (length str1 + 1) matrix /\
  forall j i, known j i -> mget matrix j i = prefix_distance str1 str2 j i.

(** The cells of the matrix that are filled when the outer loop is at row
    [j] and the inner loop at column [i]: row 0, column 0, the rows before
    [j], and row [j] before column [i]. *)
Definition filled (str1 str2 : jsstring) (j i : nat) (j' i' : nat) : Prop :=
  (j' <= length str2)%nat /\ (i' <= length str1)%nat /\
  (j' = 0%nat \/ i' = 0%nat \/ (j' < j)%nat \/ (j' = j /\ (i' < i)%nat)).

(** *** The lookup *)

(** What the network answers to a request that settles: the [fetch]
    promise rejects, or it resolves to a response with its [ok] flag, its
    [status] and the outcome of [response.json()], which rejects when the
    body is not JSON and gives a payload of the declared type otherwise.
    Requests that stay pending and payloads of other shapes are in module
    [Wire]. *)
Record Response : Type :=
  { ok : bool; status : Z; json : exn MoedictResponse }.

Inductive FetchResult : Type :=
| Rejected
| Resolved (response : Response).

(** A high surrogate, a low surrogate. *)
Definition isHigh (c : N) : bool := ((55296 <=? c) && (c <=? 56319))%N.
Definition isLow (c : N) : bool := ((56320 <=? c) && (c <=? 57343))%N.

(** Whether every surrogate of a string is part of a pair. *)
Fixpoint wellFormed (s : jsstring) : bool :=
  match s with
  | [] => true
  | c :: s' =>
      if isHigh c then
        match s' with
        | c' :: s'' => isLow c' && wellFormed s''
        | [] => false
        end
      else negb (isLow c) && wellFormed s'
  end.

(** [encodeURIComponent] throws a [URIError] on a lone surrogate.  The
    escaping itself is not modelled: the network is asked by character. *)
Definition encodeURIComponent (s : jsstring) : exn jsstring :=
  if wellFormed s then Return s else Throw URIError.

Definition fetch (network : jsstring -> FetchResult) (path : jsstring)
    : exn Response :=
  match network path with
  | Rejected => Throw NetworkError
  | Resolved response => Return response
  end.

(** The body of the [try] block of [getCharacterInfo], up to the [data]
    that it caches and returns. *)
Definition fetchCharacterInfo (network : jsstring -> FetchResult)
    (character : jsstring) : exn MoedictResponse :=
  path <- encodeURIComponent character ;;
  response <- fetch network path ;;
  if negb (ok response) then Throw (HttpError (status response))
  else json response.

(** [getCharacterInfo]: the result ([None] is [null]) and the cache after
    the call. *)
Definition getCharacterInfo (network : jsstring -> FetchResult)
    (cache : gmap jsstring MoedictResponse) (character : jsstring)
    : option MoedictResponse * gmap jsstring MoedictResponse :=
  match cache !! character with
  | Some data => (Some data, cache)
  | None =>
      match fetchCharacterInfo network character with
      | Return data => (Some data, <[character := data]> cache)
      | Throw error => (None, cache)
      end
  end.

(** *** [validateBopomofo] *)

Record Validation : Type :=
  { isCorrect : bool; correctBopomofo : option jsstring; confidence : Qc }.

(** [Boolean] on an optional string: absent and empty are falsy. *)
Definition truthy (s : option jsstring) : option jsstring :=
  match s with
  | Some (c :: s') => Some (c :: s')
  | _ => None
  end.

(** [characterInfo.h.map(heteronym => heteronym.b).filter(Boolean)] *)
Definition possibleBopomofo (hs : list Heteronym) : list jsstring :=
  omap (fun heteronym => truthy (b heteronym)) hs.

(** [array.indexOf(x)]; [None] is [-1]. *)
Fixpoint indexOf {A : Type} (eqb : A -> A -> bool) (array : list A) (x : A)
    : option nat :=
  match array with
  | [] => None
  | y :: array' =>
      if eqb y x then Some 0%nat else S <$> indexOf eqb array' x
  end.

(** [array[index]] with the result of an [indexOf]. *)
Definition at_index {A : Type} (array : list A) (index : option nat)
    : option A :=
  index ≫= (array !!.).

(** [Math.max(...similarities)] of a list that is not empty. *)
Definition Math_max_of (first : Qc) (rest : list Qc) : Qc :=
  foldl Math_max first rest.

(** The three stages of [validateBopomofo], which it reaches with a list of
    candidates that is not empty ([Math.max] of no argument, which is not a
    rational, does not arise). *)
Definition validateAgainst (possibleBopomofo : list jsstring)
    (inputBopomofo : jsstring) : Validation :=
  let exactMatch := bool_decide (inputBopomofo ∈ possibleBopomofo) in
  if exactMatch then
    {| isCorrect := true;
       correctBopomofo := Some inputBopomofo;
       confidence := 1 |}
  else
    let normalizedInput := normalizeBopomofo inputBopomofo in
    let normalizedPossible := normalizeBopomofo <$> possibleBopomofo in
    let partialMatch := bool_decide (normalizedInput ∈ normalizedPossible) in
    if partialMatch then
      let correctIndex := indexOf str_eqb normalizedPossible normalizedInput in
      {| isCorrect := true;
         correctBopomofo := at_index possibleBopomofo correctIndex;
         confidence := lit 8 10 |}
    else
      let similarities :=
        calculateSimilarity inputBopomofo <$> possibleBopomofo in
      let maxSimilarity :=
        match similarities with
        | [] => 0%Qc
        | first :: rest => Math_max_of first rest
        end in
      let bestMatchIndex := indexOf num_eqb similarities maxSimilarity in
      {| isCorrect := num_ltb (lit 7 10) maxSimilarity;
         correctBopomofo := at_index possibleBopomofo bestMatchIndex;
         confidence := maxSimilarity |}.

Definition noMatch : Validation :=
  {| isCorrect := false; correctBopomofo := None; confidence := 0 |}.

(** [validateBopomofo]: the outcome of the promise and the cache after the
    call. *)
Definition validateBopomofo (network : jsstring -> FetchResult)
    (cache : gmap jsstring MoedictResponse)
    (character inputBopomofo : jsstring)
    : exn Validation * gmap jsstring MoedictResponse :=
  let '(characterInfo, cache) := getCharacterInfo network cache character in
  match characterInfo with
  | None => (Return noMatch, cache)
  | Some characterInfo =>
      match h characterInfo with
      | None => (Return noMatch, cache)
      | Some hs =>
          if decide (length hs = 0%nat) then (Return noMatch, cache)
          else
            let possibleBopomofo := possibleBopomofo hs in
            if decide (length possibleBopomofo = 0%nat)
            then (Return noMatch, cache)
            else
              (Return (validateAgainst possibleBopomofo inputBopomofo), cache)
      end
  end.

(** *** The validator as the specification words it *)

(** The candidate readings of a lookup result. *)
Definition readings (characterInfo : MoedictResponse) : list jsstring :=
  match h characterInfo with
  | Some hs => possibleBopomofo hs
  | None => []
  end.

(** The lookup of a character fails: it is not in the cache, and the
    request cannot be made (the character has a lone surrogate), the network
    fails, the response is not [ok], or its body is not JSON. *)
Definition lookupFails (network : jsstring -> FetchResult)
    (cache : gmap jsstring MoedictResponse) (character : jsstring) : Prop :=
  cache !! character = None /\
  (wellFormed character = false \/
   network character = Rejected \/
   exists response, network character = Resolved response /\
     (ok response = false \/ exists error, json response = Throw error)).

(** [x] is the first element of [l] that satisfies [P], at index [i]. *)
Definition first_at {A : Type} (P : A -> Prop) (l : list A) (i : nat) (x : A)
    : Prop :=
  l !! i = Some x /\ P x /\
  forall i' x', (i' < i)%nat -> l !! i' = Some x' -> ~ P x'.

(** The three-stage cascade on a list of candidates. *)
Definition cascade (candidates : list jsstring) (input : jsstring)
    (v : Validation) : Prop :=
  (input ∈ candidates ->
   v = {| isCorrect := true; correctBopomofo := Some input;
          confidence := 1 |}) /\
  (input ∉ candidates ->
   normalizeBopomofo input ∈ normalizeBopomofo <$> candidates ->
   exists i c,
     first_at (fun c => normalizeBopomofo c = normalizeBopomofo input)
       candidates i c /\
     v = {| isCorrect := true; correctBopomofo := Some c;
            confidence := lit 8 10 |}) /\
  (input ∉ candidates ->
   normalizeBopomofo input ∉ normalizeBopomofo <$> candidates ->
   exists i c,
     first_at (fun c => calculateSimilarity input c = confidence v)
       candidates i c /\
     (forall c', c' ∈ candidates ->
                 (calculateSimilarity input c' <= confidence v)%Qc) /\
     (isCorrect v = true <-> (lit 7 10 < confidence v)%Qc) /\
     correctBopomofo v = Some c).

(** *** Sample data

    The character U+597D with its two readings, third tone and fourth
    tone, and a network that serves it. *)
Definition sampleCharacter : jsstring := [22909%N].

Definition sampleInfo : MoedictResponse :=
  {| t := sampleCharacter;
     h := Some [ {| b := Some [12559; 12576; 711]%N; p := []; d := [] |};
                 {| b := Some [12559; 12576; 715]%N; p := []; d := [] |} ] |}.

Definition sampleNetwork (path : jsstring) : FetchResult :=
  Resolved {| ok := true; status := 200; json := Return sampleInfo |}.

(** A network that is down. *)
Definition deadNetwork (path : jsstring) : FetchResult := Rejected.

End MoedictAPI.

(** ** Arrays *)

(** [Array.prototype.sort] with a comparison function: a stable sort (since
    ECMAScript 2019), here by insertion.  The array is sorted in place; the
    result is its new contents. *)
Fixpoint sort_insert {A : Type} (compareFn : A -> A -> Z) (x : A)
    (sorted : list A) : list A :=
  match sorted with
  | [] => [x]
  | y :: sorted' =>
      if compareFn x y <=? 0 then x :: y :: sorted'
      else y :: sort_insert compareFn x sorted'
  end.

Definition Array_sort {A : Type} (compareFn : A -> A -> Z) (array : list A)
    : list A :=
  foldr (sort_insert compareFn) [] array.

(** Ascending order of a key. *)
Definition ascending {A : Type} (key : A -> Z) (a b : A) : Prop :=
  key a <= key b.

(** ** The answer evaluators

    The types of questions and answers, and the branches that the two
    [checkAnswer] functions have in common. *)

Module Evaluator.

Record QuestionOption : Type :=
  { id : jsstring; text : jsstring; isCorrect : bool }.

Record SortItem : Type :=
  { item_id : jsstring; item_text : jsstring; correctOrder : Z }.

(** [Question], by its [type] tag, with the fields of each variant that
    the evaluators read. *)
Inductive Question : Type :=
| multiple_choice (options : list QuestionOption) (allowMultiple : bool)
| true_false (correctAnswer : bool)
| fill_blank (correctAnswers : list jsstring) (caseSensitive : bool)
| sort (items : list SortItem)
| bopomofo_to_char (bopomofo correctChar : jsstring)
| char_to_bopomofo (character correctBopomofo : jsstring).

(** The shapes of [userAnswer]: [string | string[] | boolean | number[]]. *)
Inductive Answer : Type :=
| a_string (s : jsstring)
| a_strings (l : list jsstring)
| a_boolean (v : bool)
| a_numbers (l : list Z).

(** White space and line terminators, which [trim] removes. *)
Definition isWhiteSpace (c : N) : bool :=
  bool_decide (c ∈ [9; 10; 11; 12; 13; 32; 160; 5760; 8232; 8233; 8239;
                    8287; 12288; 65279]%N)
  || ((8192 <=? c) && (c <=? 8202))%N.

Fixpoint trimStart (s : jsstring) : jsstring :=
  match s with
  | c :: s' => if isWhiteSpace c then trimStart s' else s
  | [] => []
  end.

Definition trim (s : jsstring) : jsstring :=
  reverse (trimStart (reverse (trimStart s))).

(** [toLowerCase] on strings whose only cased letters are the letters A to
    Z. *)
Definition toLowerCaseASCII (s : jsstring) : jsstring :=
  (fun c => if ((65 <=? c) && (c <=? 90))%N then (c + 32)%N else c) <$> s.

(** [correctOptions]: the ids of the options flagged correct. *)
Definition correctOptions (options : list QuestionOption) : list jsstring :=
  id <$> filter (fun opt => isCorrect opt = true) options.

(** The multi-select test on an array of strings. *)
Definition multiSelect (selectedOptions correctOptions : list jsstring)
    : bool :=
  (length selectedOptions =? length correctOptions)%nat
  && forallb (fun id => bool_decide (id ∈ correctOptions)) selectedOptions.

(** The multi-select branch on an answer of any shape: a string has a
    [length] but no [every]; a boolean has no [length]; a number is never
    the id of an option. *)
Definition checkMultiple (correctOptions : list jsstring) (userAnswer : Answer)
    : exn bool :=
  match userAnswer with
  | a_strings selectedOptions =>
      Return (multiSelect selectedOptions correctOptions)
  | a_string s =>
      if (length s =? length correctOptions)%nat then Throw TypeError
      else Return false
  | a_boolean _ => Return false
  | a_numbers l =>
      Return ((length l =? length correctOptions)%nat
              && forallb (fun _ => false) l)
  end.

(** The single-choice branch: strict equality with the id of the first
    option flagged correct. *)
Definition checkSingle (options : list QuestionOption) (userAnswer : Answer)
    : bool :=
  match find (fun opt => isCorrect opt) options with
  | Some correctOption =>
      match userAnswer with
      | a_string selectedOption => str_eqb selectedOption (id correctOption)
      | _ => false
      end
  | None => false
  end.

(** [(userAnswer as string).trim()]: only a string has a [trim]. *)
Definition trimmed (userAnswer : Answer) : exn jsstring :=
  match userAnswer with
  | a_string s => Return (trim s)
  | _ => Throw TypeError
  end.

(** The fill-blank branch.  [toLowerCase] is
    [String.prototype.toLowerCase], given by the Unicode case tables. *)
Definition checkFillBlank (toLowerCase : jsstring -> jsstring)
    (correctAnswers : list jsstring) (caseSensitive : bool)
    (userAnswer : Answer) : exn bool :=
  answer <- trimmed userAnswer ;;
  Return (existsb
            (fun correct =>
               if caseSensitive then str_eqb correct answer
               else str_eqb (toLowerCase correct) (toLowerCase answer))
            correctAnswers).

(** [items.sort(...).map((_, index) => index)] on the sorted items. *)
Definition indices (sorted : list SortItem) : list Z :=
  imap (fun index _ => Z.of_nat index) sorted.

(** [userOrder.every((order, index) => order === correctOrder[index])] *)
Definition everyOrder (userOrder correctOrder : list Z) : bool :=
  forallb (fun x => x)
    (imap (fun index order =>
             bool_decide (Some order = correctOrder !! index)) userOrder).

(** The comparison of the sort branch on an answer of any shape. *)
Definition checkOrder (correctOrder : list Z) (userAnswer : Answer)
    : exn bool :=
  match userAnswer with
  | a_numbers userOrder =>
      Return ((length userOrder =? length correctOrder)%nat
              && everyOrder userOrder correctOrder)
  | a_strings l =>
      Return ((length l =? length correctOrder)%nat
              && forallb (fun _ => false) l)
  | a_string s =>
      if (length s =? length correctOrder)%nat then Throw TypeError
      else Return false
  | a_boolean _ => Return false
  end.

Definition compareItems (a b : SortItem) : Z :=
  correctOrder a - correctOrder b.

End Evaluator.

(** ** [src/components/StudyView.tsx] *)

Module StudyView.
Import Evaluator.

(** [checkAnswer]: the result, and [currentQuestion] after the call: the
    sort branch sorts the question's [items] array in place. *)
Definition checkAnswer (toLowerCase : jsstring -> jsstring)
    (currentQuestion : option Question) (userAnswer : option Answer)
    : exn bool * option Question :=
  match currentQuestion, userAnswer with
  | Some question, Some answer =>
      match question with
      | multiple_choice options allowMultiple =>
          if allowMultiple then
            (checkMultiple (correctOptions options) answer, currentQuestion)
          else (Return (checkSingle options answer), currentQuestion)
      | true_false correctAnswer =>
          (Return match answer with
                  | a_boolean v => bool_decide (v = correctAnswer)
                  | _ => false
                  end, currentQuestion)
      | fill_blank correctAnswers caseSensitive =>
          (checkFillBlank toLowerCase correctAnswers caseSensitive answer,
           currentQuestion)
      | sort items =>
          let items := Array_sort compareItems items in
          let correctOrder := indices items in
          (checkOrder correctOrder answer, Some (sort items))
      | bopomofo_to_char _ correctChar =>
          (answer <- trimmed answer ;; Return (str_eqb answer correctChar),
           currentQuestion)
      | char_to_bopomofo _ correctBopomofo =>
          (answer <- trimmed answer ;; Return (str_eqb answer correctBopomofo),
           currentQuestion)
      end
  | _, _ => (Return false, currentQuestion)
  end.

End StudyView.

(** ** [src/components/ReviewView.tsx] *)

Module ReviewView.
Import Evaluator.

(** [checkAnswer]: the result, and [currentQuestion] after the call. *)
Definition checkAnswer (toLowerCase : jsstring -> jsstring)
    (currentQuestion : option Question) (userAnswer : option Answer)
    : exn bool * option Question :=
  match currentQuestion, userAnswer with
  | Some question, Some answer =>
      match question with
      | multiple_choice options allowMultiple =>
          if allowMultiple then
            (checkMultiple (correctOptions options) answer, currentQuestion)
          else (Return (checkSingle options answer), currentQuestion)
      | true_false correctAnswer =>
          (Return match answer with
                  | a_boolean v => bool_decide (v = correctAnswer)
                  | _ => false
                  end, currentQuestion)
      | fill_blank correctAnswers caseSensitive =>
          (checkFillBlank toLowerCase correctAnswers caseSensitive answer,
           currentQuestion)
      | sort items => (Return false, currentQuestion)
      | bopomofo_to_char _ correctChar =>
          (answer <- trimmed answer ;; Return (str_eqb answer correctChar),
           currentQuestion)
      | char_to_bopomofo _ correctBopomofo =>
          (answer <- trimmed answer ;; Return (str_eqb answer correctBopomofo),
           currentQuestion)
      end
  | _, _ => (Return false, currentQuestion)
  end.

End ReviewView.

(** ** The database context: the due queue *)

Module DatabaseContext.

(** [LearningRecord]; the ISO date strings are the time values, in
    milliseconds, they parse to. *)
Record LearningRecord : Type :=
  { id : jsstring;
    questionId : jsstring;
    subjectId : jsstring;
    familiarity : SRS.FamiliarityLevel;
    correctCount : Z;
    incorrectCount : Z;
    lastReviewed : Z;
    nextReview : Z;
    streak : Z;
    totalTimeSpent : Z;
    createdAt : Z;
    updatedAt : Z }.

Definition isDue (now : Z) (r : LearningRecord) : bool :=
  nextReview r <=? now.

Definition compareNextReview (a b : LearningRecord) : Z :=
  nextReview a - nextReview b.

(** [getDueLearningRecords]; [now] is the reading of the clock.  [filter]
    makes a new array, which [sort] then orders: [learningRecords] is left
    as it is. *)
Definition getDueLearningRecords (learningRecords : list LearningRecord)
    (now : Z) : list LearningRecord :=
  Array_sort compareNextReview (List.filter (isDue now) learningRecords).

End DatabaseContext.

(** ** [src/utils/srs.ts]: the rest of the scheduling code *)

Module Scheduling.
Import SRS.

(** Position of a tier in the five-tier order. *)
Definition rank (f : FamiliarityLevel) : nat :=
  match f with
  | unfamiliar => 0
  | unanswered => 1
  | somewhat_familiar => 2
  | familiar => 3
  | mastered => 4
  end.

(** The tier after a series of answers, each given by its correctness and
    the seconds it took, fed to [updateFamiliarity] one after the other. *)
Definition afterAnswers (f : FamiliarityLevel) (answers : list (bool * Qc))
    : FamiliarityLevel :=
  foldl (fun f answer => updateFamiliarity f answer.1 answer.2) f answers.

(** The three factors of [intervalDays]: the base interval of the tier, the
    factor of the accuracy and the factor of the streak. *)
Definition baseInterval (currentFamiliarity : FamiliarityLevel) : Qc :=
  match currentFamiliarity with
  | unfamiliar => lit 1 10
  | unanswered => lit 5 10
  | somewhat_familiar => Qc_of_Z 1
  | familiar => Qc_of_Z 3
  | mastered => Qc_of_Z 7
  end.

Definition accuracyFactor (correctCount incorrectCount : Z) : Qc :=
  let totalAttempts := correctCount + incorrectCount in
  if 0 <? totalAttempts then
    let accuracy := (Qc_of_Z correctCount / Qc_of_Z totalAttempts)%Qc in
    if num_leb (lit 9 10) accuracy then lit 15 10
    else if num_ltb accuracy (lit 6 10) then lit 5 10
    else 1%Qc
  else 1%Qc.

Definition streakFactor (streak : Z) : Qc :=
  if 0 <? streak
  then Math_min (1 + Qc_of_Z streak * lit 2 10) (Qc_of_Z 3)
  else 1%Qc.

(** [addMinutes] of the date-fns package: the date moved by [amount]
    minutes of 60000 milliseconds. *)
Definition addMinutes (date amount : Z) : Z := date + amount * 60000.

(** [Math.round]: the nearest integer, a half rounded up. *)
Definition Math_round (x : Qc) : Z := Qfloor (x + lit 1 2)%Qc.

(** [SM2Algorithm]; the first argument is the reading of the clock, and
    [_lastReviewed] is not used. *)
Definition SM2Algorithm : SRSAlgorithm :=
  {| calculateNextReview :=
       fun now currentFamiliarity correctCount incorrectCount streak
           _lastReviewed =>
         match currentFamiliarity with
         | unfamiliar => addMinutes now 1
         | unanswered => addMinutes now 5
         | _ =>
             let baseInterval :=
               match currentFamiliarity with
               | somewhat_familiar => Qc_of_Z 1
               | familiar => Qc_of_Z 3
               | mastered => Qc_of_Z 7
               | _ => Qc_of_Z 1
               end in
             let easeFactor := lit 25 10 in
             let totalAttempts := correctCount + incorrectCount in
             let easeFactor :=
               if 0 <? totalAttempts then
                 let accuracy :=
                   (Qc_of_Z correctCount / Qc_of_Z totalAttempts)%Qc in
                 if num_leb (lit 9 10) accuracy
                 then Math_min (easeFactor + lit 1 10) (Qc_of_Z 3)
                 else if num_leb (lit 7 10) accuracy
                 then Math_max (easeFactor - lit 1 10) (lit 13 10)
                 else Math_max (easeFactor - lit 2 10) (lit 13 10)
               else easeFactor in
             let streakMultiplier :=
               Math_min (1 + Qc_of_Z streak * lit 1 10) (Qc_of_Z 2) in
             let finalInterval :=
               Math_round (baseInterval * easeFactor * streakMultiplier) in
             addDays now (Qc_of_Z finalInterval)
         end |}.

End Scheduling.

(** ** [src/utils/moedict.ts]: the rest of the class and the utilities *)

Module MoedictTools.
Import MoedictAPI.

(** [getStandardBopomofo]: the result ([None] is [null]) and the cache
    after the call. *)
Definition getStandardBopomofo (network : jsstring -> FetchResult)
    (cache : gmap jsstring MoedictResponse) (character : jsstring)
    : option jsstring * gmap jsstring MoedictResponse :=
  let '(characterInfo, cache) := getCharacterInfo network cache character in
  match characterInfo with
  | None => (None, cache)
  | Some characterInfo =>
      match h characterInfo with
      | None => (None, cache)
      | Some [] => (None, cache)
      | Some (first :: _) => (truthy (b first), cache)
      end
  end.

(** [clearCache] and [getCacheSize]. *)
Definition clearCache (cache : gmap jsstring MoedictResponse)
    : gmap jsstring MoedictResponse := ∅.

Definition getCacheSize (cache : gmap jsstring MoedictResponse) : nat :=
  size cache.

(** The cache after [getCharacterInfo] has been called on each of
    [characters] in turn. *)
Definition lookups (network : jsstring -> FetchResult)
    (cache : gmap jsstring MoedictResponse) (characters : list jsstring)
    : gmap jsstring MoedictResponse :=
  foldl (fun cache character =>
           (getCharacterInfo network cache character).2) cache characters.

(** The letters of the range U+3105 to U+3129 of the character class in
    [isValidBopomofo]. *)
Definition isLetter (c : N) : bool := ((12549 <=? c) && (c <=? 12585))%N.

(** [isValidBopomofo]: the whole string is one or more letters or tone
    marks. *)
Definition isValidBopomofo (bopomofo : jsstring) : bool :=
  match bopomofo with
  | [] => false
  | _ => forallb (fun c => isLetter c || isToneMark c) bopomofo
  end.

(** [formatBopomofo]: a space before every tone mark, then [trim]. *)
Definition formatBopomofo (bopomofo : jsstring) : jsstring :=
  Evaluator.trim
    (bopomofo ≫= fun c => if isToneMark c then [32%N; c] else [c]).

(** [getBopomofoTone] *)
Definition getBopomofoTone (bopomofo : jsstring) : Z :=
  if bool_decide (714%N ∈ bopomofo) then 2
  else if bool_decide (711%N ∈ bopomofo) then 3
  else if bool_decide (715%N ∈ bopomofo) then 4
  else if bool_decide (729%N ∈ bopomofo) then 5
  else 1.

(** [removeBopomofoTone] *)
Definition removeBopomofoTone (bopomofo : jsstring) : jsstring :=
  filter (fun c => isToneMark c = false) bopomofo.

End MoedictTools.

(** ** The handlers of the two views *)

Module Handlers.
Import Evaluator MoedictAPI.

(** The multi-select branch of the key handler of both views:
    [current.includes(id) ? current.filter(i => i !== id)
                          : [...current, id]]. *)
Definition toggle (current : list jsstring) (id : jsstring) : list jsstring :=
  if bool_decide (id ∈ current) then filter (fun i => i <> id) current
  else current ++ [id].

(** The key handler on a multi-select question, for the key [key]
    ([e.key]): [['1','2','3','4'].indexOf(e.key)] gives the index of the
    option.  The answer is [null] or an array of ids; another key, or a key
    without an option at its index, leaves the answer as it is. *)
Definition pressKey (options : list QuestionOption)
    (userAnswer : option (list jsstring)) (key : jsstring)
    : option (list jsstring) :=
  match indexOf str_eqb [[49]; [50]; [51]; [52]]%N key with
  | Some idx =>
      match options !! idx with
      | Some option => Some (toggle (default [] userAnswer) (id option))
      | None => userAnswer
      end
  | None => userAnswer
  end.

(** The answer after a series of keys, from the [null] answer of a fresh
    question. *)
Definition afterKeys (options : list QuestionOption) (keys : list jsstring)
    : option (list jsstring) :=
  foldl (pressKey options) None keys.

(** [handleSubmitAnswer] of [StudyView.tsx] on a string answer: the value
    given to [setIsCorrect], the value given to [setApiValidation] if any,
    and the cache after the call.  The validator is called for the two
    phonetic question types only, inside a [try] whose [catch] logs the
    error. *)
Definition handleSubmitAnswer (toLowerCase : jsstring -> jsstring)
    (network : jsstring -> FetchResult)
    (cache : gmap jsstring MoedictResponse)
    (currentQuestion : Question) (userAnswer : jsstring)
    : exn bool * option Validation * gmap jsstring MoedictResponse :=
  let correct :=
    (StudyView.checkAnswer toLowerCase (Some currentQuestion)
       (Some (a_string userAnswer))).1 in
  let validate (character : jsstring) :=
    match validateBopomofo network cache character userAnswer with
    | (Return validation, cache) => (correct, Some validation, cache)
    | (Throw _, cache) => (correct, None, cache)
    end in
  match currentQuestion with
  | char_to_bopomofo character _ => validate character
  | bopomofo_to_char _ correctChar => validate correctChar
  | _ => (correct, None, cache)
  end.

End Handlers.

(** ** The learning records of the database context and their updates *)

Module Records.
Import SRS Scheduling DatabaseContext.

(** [Partial<LearningRecord>]: the fields that an update gives. *)
Record Updates : Type :=
  { u_id : option jsstring;
    u_questionId : option jsstring;
    u_subjectId : option jsstring;
    u_familiarity : option FamiliarityLevel;
    u_correctCount : option Z;
    u_incorrectCount : option Z;
    u_lastReviewed : option Z;
    u_nextReview : option Z;
    u_streak : option Z;
    u_totalTimeSpent : option Z;
    u_createdAt : option Z;
    u_updatedAt : option Z }.

(** [{ ...r, ...updates }] *)
Definition merge (r : LearningRecord) (updates : Updates) : LearningRecord :=
  {| id := default (id r) (u_id updates);
     questionId := default (questionId r) (u_questionId updates);
     subjectId := default (subjectId r) (u_subjectId updates);
     familiarity := default (familiarity r) (u_familiarity updates);
     correctCount := default (correctCount r) (u_correctCount updates);
     incorrectCount := default (incorrectCount r) (u_incorrectCount updates);
     lastReviewed := default (lastReviewed r) (u_lastReviewed updates);
     nextReview := default (nextReview r) (u_nextReview updates);
     streak := default (streak r) (u_streak updates);
     totalTimeSpent := default (totalTimeSpent r) (u_totalTimeSpent updates);
     createdAt := default (createdAt r) (u_createdAt updates);
     updatedAt := default (updatedAt r) (u_updatedAt updates) |}.

(** [getLearningRecord] of the context: the first record of the
    question. *)
Definition getLearningRecord (learningRecords : list LearningRecord)
    (questionId' : jsstring) : option LearningRecord :=
  find (fun r => str_eqb (questionId r) questionId') learningRecords.

(** [updateLearningRecord] of the context.  [db] is the outcome of the
    call to the database manager, which the context awaits first: when it
    throws, the records stay as they are and the error is thrown on. *)
Definition updateLearningRecord (db : exn unit)
    (learningRecords : list LearningRecord) (id' : jsstring)
    (updates : Updates) : exn unit * list LearningRecord :=
  match db with
  | Return _ =>
      (Return tt,
       (fun r => if str_eqb (id r) id' then merge r updates else r)
         <$> learningRecords)
  | Throw error => (Throw error, learningRecords)
  end.

(** [createLearningRecord] of the context.  The database manager gives the
    record its [id] and its creation time, or throws. *)
Definition createLearningRecord (db : exn (jsstring * Z))
    (learningRecords : list LearningRecord) (record : LearningRecord)
    : exn LearningRecord * list LearningRecord :=
  match db with
  | Return (id', now) =>
      let newRecord :=
        merge record
          {| u_id := Some id'; u_questionId := None; u_subjectId := None;
             u_familiarity := None; u_correctCount := None;
             u_incorrectCount := None; u_lastReviewed := None;
             u_nextReview := None; u_streak := None;
             u_totalTimeSpent := None; u_createdAt := Some now;
             u_updatedAt := Some now |} in
      (Return newRecord, learningRecords ++ [newRecord])
  | Throw error => (Throw error, learningRecords)
  end.

(** The readings of the clock that a call of [handleFamiliaritySelect]
    takes, in the order of the calls of [new Date()]: for the time spent,
    for [lastReviewed], for the argument [lastReviewed] of
    [calculateNextReview] and inside [calculateNextReview]. *)
Record Clock : Type :=
  { spentAt : Z; reviewedAt : Z; argumentAt : Z; scheduledAt : Z }.

(** [startTime ? Math.round((new Date().getTime() - startTime.getTime())
    / 1000) : 0] *)
Definition timeSpent (startTime : option Z) (clock : Clock) : Z :=
  match startTime with
  | Some startTime =>
      Math_round (Qc_of_Z (spentAt clock - startTime) / Qc_of_Z 1000)%Qc
  | None => 0
  end.

(** The update that both views make to the record of the question just
    rated. *)
Definition reviewUpdates (existingRecord : LearningRecord)
    (familiarity' : FamiliarityLevel) (isCorrect : bool)
    (startTime : option Z) (clock : Clock) : Updates :=
  let correctCount' :=
    correctCount existingRecord + (if isCorrect then 1 else 0) in
  let incorrectCount' :=
    incorrectCount existingRecord + (if isCorrect then 0 else 1) in
  let streak' := if isCorrect then streak existingRecord + 1 else 0 in
  {| u_id := None; u_questionId := None; u_subjectId := None;
     u_familiarity := Some familiarity';
     u_correctCount := Some correctCount';
     u_incorrectCount := Some incorrectCount';
     u_lastReviewed := Some (reviewedAt clock);
     u_nextReview :=
       Some (calculateNextReview defaultSRSAlgorithm (scheduledAt clock)
               familiarity' correctCount' incorrectCount' streak'
               (argumentAt clock));
     u_streak := Some streak';
     u_totalTimeSpent :=
       Some (totalTimeSpent existingRecord + timeSpent startTime clock);
     u_createdAt := None; u_updatedAt := None |}.

(** The record that [StudyView] creates for a question rated for the
    first time, before the database manager gives it its [id] and its
    creation time (which are [[]] and [0] here). *)
Definition firstRecord (questionId' subjectId' : jsstring)
    (familiarity' : FamiliarityLevel) (isCorrect : bool)
    (startTime : option Z) (clock : Clock) : LearningRecord :=
  let correctCount' := if isCorrect then 1 else 0 in
  let incorrectCount' := if isCorrect then 0 else 1 in
  let streak' := if isCorrect then 1 else 0 in
  {| id := []; questionId := questionId'; subjectId := subjectId';
     familiarity := familiarity';
     correctCount := correctCount';
     incorrectCount := incorrectCount';
     lastReviewed := reviewedAt clock;
     nextReview :=
       calculateNextReview defaultSRSAlgorithm (scheduledAt clock)
         familiarity' correctCount' incorrectCount' streak'
         (argumentAt clock);
     streak := streak';
     totalTimeSpent := timeSpent startTime clock;
     createdAt := 0; updatedAt := 0 |}.

(** [handleFamiliaritySelect] of [StudyView.tsx], on the learning records
    of the context.  The handler is a closure of a render: its
    [getLearningRecord] reads the records of that render, [snapshot],
    while the context functions write, after their [await], to the records
    that the context holds by then, [live] (they are given to [set...] as
    [prev]).  The two differ when another write has come in between, as
    with a second click in the modal, which stays open until the write has
    been awaited.  The current question is given by its [id] and its
    [subjectId]; [dbUpdate] and [dbCreate] are the outcomes of the calls to
    the database manager. *)
Definition StudyView_handleFamiliaritySelect_at
    (dbUpdate : exn unit) (dbCreate : exn (jsstring * Z))
    (snapshot live : list LearningRecord)
    (currentQuestion : option (jsstring * jsstring))
    (familiarity' : FamiliarityLevel) (isCorrect : bool)
    (startTime : option Z) (clock : Clock)
    : exn unit * list LearningRecord :=
  match currentQuestion with
  | None => (Return tt, live)
  | Some (questionId', subjectId') =>
      match getLearningRecord snapshot questionId' with
      | Some existingRecord =>
          updateLearningRecord dbUpdate live (id existingRecord)
            (reviewUpdates existingRecord familiarity' isCorrect startTime
               clock)
      | None =>
          match
            createLearningRecord dbCreate live
              (firstRecord questionId' subjectId' familiarity' isCorrect
                 startTime clock)
          with
          | (Return _, learningRecords) => (Return tt, learningRecords)
          | (Throw error, learningRecords) => (Throw error, learningRecords)
          end
      end
  end.

(** A call that no other write overlaps: the records of the render are
    the records that the context holds when the call writes. *)
Definition StudyView_handleFamiliaritySelect
    (dbUpdate : exn unit) (dbCreate : exn (jsstring * Z))
    (learningRecords : list LearningRecord)
    (currentQuestion : option (jsstring * jsstring))
    (familiarity' : FamiliarityLevel) (isCorrect : bool)
    (startTime : option Z) (clock : Clock)
    : exn unit * list LearningRecord :=
  StudyView_handleFamiliaritySelect_at dbUpdate dbCreate learningRecords
    learningRecords currentQuestion familiarity' isCorrect startTime clock.

(** Two clicks in the familiarity modal of one render, on [first] and then
    on [second], both before the first write has been awaited: both calls
    read the records of the render, and the second writes to what the
    first has left. *)
Definition doubleClick
    (dbCreate1 dbCreate2 : exn (jsstring * Z))
    (learningRecords : list LearningRecord)
    (currentQuestion : option (jsstring * jsstring))
    (first second : FamiliarityLevel) (isCorrect : bool)
    (startTime : option Z) (clock1 clock2 : Clock)
    : list LearningRecord :=
  let live :=
    (StudyView_handleFamiliaritySelect_at (Return tt) dbCreate1
       learningRecords learningRecords currentQuestion first isCorrect
       startTime clock1).2 in
  (StudyView_handleFamiliaritySelect_at (Return tt) dbCreate2
     learningRecords live currentQuestion second isCorrect startTime
     clock2).2.

(** A question as the context stores it: the fields that the views use to
    find its record, and the body that the evaluators read. *)
Record StoredQuestion : Type :=
  { q_id : jsstring; q_subjectId : jsstring; q_body : Evaluator.Question }.

(** [questions.find(q => q.id === r.questionId)] *)
Definition findQuestion (questions : list StoredQuestion)
    (r : LearningRecord) : option StoredQuestion :=
  find (fun q => str_eqb (q_id q) (questionId r)) questions.

(** [dueRecords.map(r => questions.find(q => q.id === r.questionId))
    .filter(Boolean)] of [ReviewView.tsx], for a render at the time
    [now]. *)
Definition dueQuestions (questions : list StoredQuestion)
    (learningRecords : list LearningRecord) (now : Z)
    : list StoredQuestion :=
  omap (findQuestion questions) (getDueLearningRecords learningRecords now).

(** [dueQuestions[currentIndex]], the current question of a render. *)
Definition currentQuestion (questions : list StoredQuestion)
    (learningRecords : list LearningRecord) (now : Z) (currentIndex : nat)
    : option StoredQuestion :=
  dueQuestions questions learningRecords now !! currentIndex.

(** What the review view shows next: the question at an index of the due
    questions, or the home view. *)
Inductive View : Type :=
  | review (currentIndex : nat)
  | home.

(** [handleNextQuestion] of [ReviewView.tsx], with the index and the due
    questions of the render that made the handler. *)
Definition handleNextQuestion (currentIndex : nat)
    (dueQuestions : list StoredQuestion) : View :=
  if Z.of_nat currentIndex <? Z.of_nat (length dueQuestions) - 1
  then review (currentIndex + 1)
  else home.

(** [handleFamiliaritySelect] of [ReviewView.tsx], made by a render at the
    time [renderedAt]: it needs the current question and its record, and
    moves on once the update has succeeded. *)
Definition ReviewView_handleFamiliaritySelect
    (dbUpdate : exn unit) (questions : list StoredQuestion)
    (learningRecords : list LearningRecord) (renderedAt : Z)
    (currentIndex : nat)
    (familiarity' : FamiliarityLevel) (isCorrect : bool)
    (startTime : option Z) (clock : Clock)
    : exn unit * list LearningRecord * View :=
  let dueQuestions := dueQuestions questions learningRecords renderedAt in
  match currentQuestion questions learningRecords renderedAt currentIndex
  with
  | None => (Return tt, learningRecords, review currentIndex)
  | Some currentQuestion =>
      match getLearningRecord learningRecords (q_id currentQuestion) with
      | None => (Return tt, learningRecords, review currentIndex)
      | Some currentRecord =>
          match
            updateLearningRecord dbUpdate learningRecords
              (id currentRecord)
              (reviewUpdates currentRecord familiarity' isCorrect startTime
                 clock)
          with
          | (Return _, learningRecords) =>
              (Return tt, learningRecords,
               handleNextQuestion currentIndex dueQuestions)
          | (Throw error, learningRecords) =>
              (Throw error, learningRecords, review currentIndex)
          end
      end
  end.

(** [deleteQuestion] of the context, on the questions and the records. *)
Definition deleteQuestion (db : exn unit) (questions : list StoredQuestion)
    (learningRecords : list LearningRecord) (id' : jsstring)
    : exn unit * list StoredQuestion * list LearningRecord :=
  match db with
  | Return _ =>
      (Return tt,
       List.filter (fun q => negb (str_eqb (q_id q) id')) questions,
       List.filter (fun r => negb (str_eqb (questionId r) id'))
         learningRecords)
  | Throw error => (Throw error, questions, learningRecords)
  end.

(** The invariants of a learning record: the counters are not negative,
    the streak is at most the count of correct answers, and the next review
    is not before the last one. *)
Definition wellCounted (r : LearningRecord) : Prop :=
  0 <= incorrectCount r /\ 0 <= streak r <= correctCount r.

Definition wellScheduled (r : LearningRecord) : Prop :=
  lastReviewed r <= nextReview r.

(** *** Sample data

    Records and questions named by a letter, and a clock that gives one
    reading. *)
Definition sampleRecord (name : N) (due : Z) : LearningRecord :=
  {| id := [114%N; name]; questionId := [113%N; name];
     subjectId := [115%N]; familiarity := somewhat_familiar;
     correctCount := 1; incorrectCount := 0; lastReviewed := 0;
     nextReview := due; streak := 1; totalTimeSpent := 4; createdAt := 0;
     updatedAt := 0 |}.

Definition sampleQuestion (name : N) : StoredQuestion :=
  {| q_id := [113%N; name]; q_subjectId := [115%N];
     q_body := Evaluator.true_false true |}.

Definition sampleClock (now : Z) : Clock :=
  {| spentAt := now; reviewedAt := now; argumentAt := now;
     scheduledAt := now |}.

End Records.

(** ** [src/utils/moedict.ts] on payloads of any shape

    [getCharacterInfo] gives [await response.json()] the type
    [MoedictResponse] without checking it, and [fetch] is awaited without
    a timeout.  Here the payload is any JSON value and a promise may stay
    pending; [MoedictAPI] above is this model on settled requests whose
    payloads have the declared shape (lemma [validateBopomofo_typed]). *)

Module Wire.
Import MoedictAPI.

(** What [JSON.parse] returns.  An object is the list of its properties,
    one per name. *)
#[local] Unset Elimination Schemes.
Inductive Json : Type :=
| j_null
| j_boolean (v : bool)
| j_number (v : Qc)
| j_string (v : jsstring)
| j_array (items : list Json)
| j_object (properties : list (jsstring * Json)).
#[local] Set Elimination Schemes.

(** A promise: it stays pending, is fulfilled or is rejected. *)
Inductive Promise (A : Type) : Type :=
| pending
| fulfilled (v : A)
| rejected (e : Error).
Arguments pending {A}.
Arguments fulfilled {A} v.
Arguments rejected {A} e.

(** The promise of an [async] function whose body completes as [c]. *)
Definition settled {A : Type} (c : exn A) : Promise A :=
  match c with
  | Return v => fulfilled v
  | Throw e => rejected e
  end.

(** [Boolean(value)]; [None] is [undefined]. *)
Definition truthy (value : option Json) : bool :=
  match value with
  | None | Some j_null => false
  | Some (j_boolean v) => v
  | Some (j_number v) => negb (num_eqb v 0)
  | Some (j_string v) => negb (bool_decide (v = []))
  | Some (j_array _) | Some (j_object _) => true
  end.

(** [value.name] for the names [h] and [b], which no prototype of a JSON
    value defines: the property of an object, [undefined] on the other
    values, and a [TypeError] on [null]. *)
Definition getProperty (value : Json) (name : jsstring)
    : exn (option Json) :=
  match value with
  | j_null => Throw TypeError
  | j_object properties =>
      Return (snd <$> find (fun property => str_eqb property.1 name)
                        properties)
  | _ => Return None
  end.

(** The names [h], [b] and [length]. *)
Definition name_h : jsstring := [104]%N.
Definition name_b : jsstring := [98]%N.
Definition name_length : jsstring := [108; 101; 110; 103; 116; 104]%N.

(** [value.length]: the length of a string or of an array, and the
    property of that name of an object. *)
Definition getLength (value : Json) : exn (option Json) :=
  match value with
  | j_string v => Return (Some (j_number (Qc_of_nat (length v))))
  | j_array items => Return (Some (j_number (Qc_of_nat (length items))))
  | _ => getProperty value name_length
  end.

(** [value === 0] *)
Definition isZero (value : option Json) : bool :=
  match value with
  | Some (j_number v) => num_eqb v 0
  | _ => false
  end.

(** [array.map(f)] with a callback that may throw. *)
Fixpoint exn_map {A B : Type} (f : A -> exn B) (array : list A)
    : exn (list B) :=
  match array with
  | [] => Return []
  | x :: array' =>
      y <- f x ;;
      ys <- exn_map f array' ;;
      Return (y :: ys)
  end.

(** [h.map(heteronym => heteronym.b)]: only an array has a [map]. *)
Definition mapHeteronyms (h : Json) : exn (list (option Json)) :=
  match h with
  | j_array items => exn_map (fun heteronym => getProperty heteronym name_b)
                       items
  | _ => Throw TypeError
  end.

(** [value === string] *)
Definition isString (string : jsstring) (value : Json) : bool :=
  match value with
  | j_string v => str_eqb v string
  | _ => false
  end.

(** [.filter(Boolean)] *)
Definition filterBoolean (values : list (option Json)) : list Json :=
  omap (fun value => if truthy value then value else None) values.

(** [this.normalizeBopomofo(b)]: [b.replace] is a function on a string
    only. *)
Definition normalizeCandidate (b : Json) : exn jsstring :=
  match b with
  | j_string v => Return (normalizeBopomofo v)
  | _ => Throw TypeError
  end.

(** The string that a candidate is, once [normalizeCandidate] has passed
    every candidate. *)
Definition asString (b : Json) : jsstring :=
  match b with
  | j_string v => v
  | _ => []
  end.

Record Response : Type :=
  { ok : bool; status : Z; json : Promise Json }.

(** The body of the [try] block of [getCharacterInfo], up to the [data]
    that it caches and returns. *)
Definition fetchCharacterInfo (network : jsstring -> Promise Response)
    (character : jsstring) : Promise Json :=
  match encodeURIComponent character with
  | Throw error => rejected error
  | Return path =>
      match network path with
      | pending => pending
      | rejected error => rejected error
      | fulfilled response =>
          if negb (ok response) then rejected (HttpError (status response))
          else json response
      end
  end.

(** [getCharacterInfo]: the promise it returns and the cache after the
    call.  The promise is never rejected: the [catch] returns [null]. *)
Definition getCharacterInfo (network : jsstring -> Promise Response)
    (cache : gmap jsstring Json) (character : jsstring)
    : Promise Json * gmap jsstring Json :=
  match cache !! character with
  | Some data => (fulfilled data, cache)
  | None =>
      match fetchCharacterInfo network character with
      | fulfilled data => (fulfilled data, <[character := data]> cache)
      | rejected error => (fulfilled j_null, cache)
      | pending => (pending, cache)
      end
  end.

(** The body of [validateBopomofo] after the lookup.  Once every
    candidate has passed [normalizeCandidate] the candidates are strings,
    none of them the input, and the two stages that remain are those of
    [validateAgainst]. *)
Definition validateInfo (characterInfo : Json) (inputBopomofo : jsstring)
    : exn Validation :=
  if negb (truthy (Some characterInfo)) then Return noMatch
  else
    h <- getProperty characterInfo name_h ;;
    match h with
    | None => Return noMatch
    | Some h =>
        if negb (truthy (Some h)) then Return noMatch
        else
          hLength <- getLength h ;;
          if isZero hLength then Return noMatch
          else
            bs <- mapHeteronyms h ;;
            let possibleBopomofo := filterBoolean bs in
            if decide (length possibleBopomofo = 0%nat) then Return noMatch
            else
              let exactMatch :=
                existsb (isString inputBopomofo) possibleBopomofo in
              if exactMatch then
                Return {| isCorrect := true;
                          correctBopomofo := Some inputBopomofo;
                          confidence := 1 |}
              else
                _ <- exn_map normalizeCandidate possibleBopomofo ;;
                Return (validateAgainst (asString <$> possibleBopomofo)
                          inputBopomofo)
    end.

(** [validateBopomofo]: the promise it returns and the cache after the
    call. *)
Definition validateBopomofo (network : jsstring -> Promise Response)
    (cache : gmap jsstring Json) (character inputBopomofo : jsstring)
    : Promise Validation * gmap jsstring Json :=
  let '(characterInfo, cache) := getCharacterInfo network cache character in
  match characterInfo with
  | pending => (pending, cache)
  | rejected error => (rejected error, cache)
  | fulfilled characterInfo =>
      (settled (validateInfo characterInfo inputBopomofo), cache)
  end.

(** *** The declared shape

    A [MoedictResponse] as the JSON value that has its shape, and a typed
    network as the network that serves such values. *)
Definition encodeSense (s : Sense) : Json :=
  j_object [([102]%N, j_string (f s));
            ([116; 121; 112; 101]%N, j_string (type s))].

Definition encodeHeteronym (x : Heteronym) : Json :=
  j_object
    (match b x with
     | Some v => [(name_b, j_string v)]
     | None => []
     end
     ++ [([112]%N, j_string (p x));
         ([100]%N, j_array (encodeSense <$> d x))]).

Definition encode (r : MoedictResponse) : Json :=
  j_object
    (([116]%N, j_string (t r))
     :: match h r with
        | Some hs => [(name_h, j_array (encodeHeteronym <$> hs))]
        | None => []
        end).

Definition onWire (network : jsstring -> FetchResult) (path : jsstring)
    : Promise Response :=
  match network path with
  | Rejected => rejected NetworkError
  | Resolved response =>
      fulfilled {| ok := MoedictAPI.ok response;
                   status := MoedictAPI.status response;
                   json := match MoedictAPI.json response with
                           | Return data => fulfilled (encode data)
                           | Throw error => rejected error
                           end |}
  end.

(** *** The validator as the specification words it *)

(** The lookup of a character fails: it is not in the cache, and the
    request cannot be made (the character has a lone surrogate), the
    request is rejected, the response is not [ok], or [response.json()] is
    rejected (the body is not JSON). *)
Definition lookupFails (network : jsstring -> Promise Response)
    (cache : gmap jsstring Json) (character : jsstring) : Prop :=
  cache !! character = None /\
  (wellFormed character = false \/
   (exists error, network character = rejected error) \/
   exists response, network character = fulfilled response /\
     (ok response = false \/
      exists error, json response = rejected error)).

(** A payload without candidate readings: it is falsy; or its [h] is
    absent or falsy; or its [h] has the length 0; or its [h] is an array
    whose entries are not [null] and have no truthy [b]. *)
Definition noReadings (data : Json) : Prop :=
  truthy (Some data) = false \/
  (exists h, getProperty data name_h = Return h /\ truthy h = false) \/
  (exists h hLength,
     getProperty data name_h = Return (Some h) /\
     getLength h = Return hLength /\ isZero hLength = true) \/
  (exists items,
     getProperty data name_h = Return (Some (j_array items)) /\
     Forall (fun heteronym =>
               exists b, getProperty heteronym name_b = Return b /\
                         truthy b = false) items).

(** *** Sample data

    A network that answers every request with the status 200 and the body
    [{"h": [null]}], and a network that never answers. *)
Definition malformedInfo : Json := j_object [(name_h, j_array [j_null])].

Definition malformedNetwork (path : jsstring) : Promise Response :=
  fulfilled {| ok := true; status := 200; json := fulfilled malformedInfo |}.

Definition silentNetwork (path : jsstring) : Promise Response := pending.

Definition downNetwork (path : jsstring) : Promise Response :=
  rejected NetworkError.

End Wire.

(** ** [src/components/StudyView.tsx]: the view as a state machine

    The state of the component that the handlers read and write, and the
    events that change it.  An event is handled by the closures of the
    latest render, in one step. *)

Module StudySession.
Import Evaluator Handlers.

(** The [useState] cells [studyQuestions], [currentQuestionIndex],
    [userAnswer], [showAnswer], [isCorrect] and [showFamiliarityModal],
    and [enterCountRef.current]. *)
Record State : Type :=
  { studyQuestions : list Question;
    currentQuestionIndex : nat;
    userAnswer : option Answer;
    showAnswer : bool;
    isCorrect : bool;
    showFamiliarityModal : bool;
    enterCount : nat }.

(** The state of a view that has just been mounted. *)
Definition mounted : State :=
  {| studyQuestions := []; currentQuestionIndex := 0; userAnswer := None;
     showAnswer := false; isCorrect := false;
     showFamiliarityModal := false; enterCount := 0 |}.

(** [studyQuestions[currentQuestionIndex]] *)
Definition currentQuestion (s : State) : option Question :=
  studyQuestions s !! currentQuestionIndex s.

(** [handleAnswerChange] *)
Definition handleAnswerChange (s : State) (answer : Answer) : State :=
  {| studyQuestions := studyQuestions s;
     currentQuestionIndex := currentQuestionIndex s;
     userAnswer := Some answer;
     showAnswer := showAnswer s; isCorrect := isCorrect s;
     showFamiliarityModal := showFamiliarityModal s;
     enterCount := enterCount s |}.

(** [(userAnswer as string[] || [])] on the answer to a multi-select
    question, which is [null] or an array of ids. *)
Definition selectedIds (userAnswer : option Answer) : list jsstring :=
  match userAnswer with
  | Some (a_strings ids) => ids
  | _ => []
  end.

(** The change of an option, by its key or by its checkbox or radio
    button: a checkbox reports the negation of the state it shows, which is
    [current.includes(option.id)]. *)
Definition chooseOption (s : State) (idx : nat) : State :=
  match currentQuestion s with
  | Some (multiple_choice options allowMultiple) =>
      match options !! idx with
      | Some option =>
          if allowMultiple then
            handleAnswerChange s
              (a_strings (toggle (selectedIds (userAnswer s)) (id option)))
          else handleAnswerChange s (a_string (id option))
      | None => s
      end
  | _ => s
  end.

(** The synchronous part of [handleSubmitAnswer]: the verdict of
    [checkAnswer] is stored and the answer shown; the question is left as
    [checkAnswer] leaves it.  An exception of [checkAnswer] rejects the
    promise of the handler before any state is set. *)
Definition handleSubmitAnswer (toLowerCase : jsstring -> jsstring)
    (s : State) : State :=
  match userAnswer s with
  | None => s
  | Some _ =>
      let '(correct, question) :=
        StudyView.checkAnswer toLowerCase (currentQuestion s)
          (userAnswer s) in
      let studyQuestions' :=
        match question with
        | Some question =>
            <[currentQuestionIndex s := question]> (studyQuestions s)
        | None => studyQuestions s
        end in
      match correct with
      | Return correct =>
          {| studyQuestions := studyQuestions';
             currentQuestionIndex := currentQuestionIndex s;
             userAnswer := userAnswer s;
             showAnswer := true; isCorrect := correct;
             showFamiliarityModal := showFamiliarityModal s;
             enterCount := enterCount s |}
      | Throw _ =>
          {| studyQuestions := studyQuestions';
             currentQuestionIndex := currentQuestionIndex s;
             userAnswer := userAnswer s;
             showAnswer := showAnswer s; isCorrect := isCorrect s;
             showFamiliarityModal := showFamiliarityModal s;
             enterCount := enterCount s |}
      end
  end.

(** [handleRetry] *)
Definition handleRetry (s : State) : State :=
  {| studyQuestions := studyQuestions s;
     currentQuestionIndex := currentQuestionIndex s;
     userAnswer := None; showAnswer := false; isCorrect := false;
     showFamiliarityModal := showFamiliarityModal s;
     enterCount := enterCount s |}.

(** [setShowFamiliarityModal] *)
Definition setShowFamiliarityModal (s : State) (show : bool) : State :=
  {| studyQuestions := studyQuestions s;
     currentQuestionIndex := currentQuestionIndex s;
     userAnswer := userAnswer s;
     showAnswer := showAnswer s; isCorrect := isCorrect s;
     showFamiliarityModal := show;
     enterCount := enterCount s |}.

Definition setEnterCount (s : State) (count : nat) : State :=
  {| studyQuestions := studyQuestions s;
     currentQuestionIndex := currentQuestionIndex s;
     userAnswer := userAnswer s;
     showAnswer := showAnswer s; isCorrect := isCorrect s;
     showFamiliarityModal := showFamiliarityModal s;
     enterCount := count |}.

(** The names of the keys. *)
Definition optionKeys : list jsstring := [[49]; [50]; [51]; [52]]%N.
Definition key_Enter : jsstring := [69; 110; 116; 101; 114]%N.
Definition key_Space : jsstring := [32]%N.

(** [handleKeyDown], when the focus is not in an input ([isLoading] and
    [error] belong to screens without a question). *)
Definition handleKeyDown (toLowerCase : jsstring -> jsstring) (s : State)
    (key : jsstring) : State :=
  if showFamiliarityModal s then s
  else if str_eqb key key_Enter then
    if negb (showAnswer s)
    then setEnterCount (handleSubmitAnswer toLowerCase s) 1
    else if (enterCount s =? 1)%nat
    then setEnterCount (setShowFamiliarityModal s true) 0
    else setEnterCount s (enterCount s + 1)
  else if str_eqb key key_Space then
    if showAnswer s then handleRetry s else s
  else if negb (showAnswer s) then
    match MoedictAPI.indexOf str_eqb optionKeys key with
    | Some idx => chooseOption s idx
    | None => s
    end
  else s.

(** [handleNextQuestion]; [more] is its test [currentQuestionIndex <
    studyQuestions.length - 1], on the values of the render that made the
    handler, and [None] is [onViewChange('home')], which unmounts the
    view. *)
Definition handleNextQuestion (s : State) (more : bool) : option State :=
  if more then
    Some {| studyQuestions := studyQuestions s;
            currentQuestionIndex := currentQuestionIndex s + 1;
            userAnswer := None; showAnswer := false; isCorrect := false;
            showFamiliarityModal := showFamiliarityModal s;
            enterCount := enterCount s |}
  else None.

(** What happens to the view. *)
Inductive Event : Type :=
| SubjectLoaded (subjectQuestions : list Question)
| KeyDown (key : jsstring)
| OptionChanged (idx : nat)
| TruthChanged (value : bool)
| TextChanged (value : jsstring)
| SubmitClicked
| RetryClicked
| NextClicked
| RatingSaved (more : bool)
| ViewLeft.


(** The effect of lines 32 to 41, which loads the questions of the
    selected subject. *)
Definition load (s : State) (subjectQuestions : list Question) : State :=
  {| studyQuestions := subjectQuestions; currentQuestionIndex := 0;
     userAnswer := None; showAnswer := false; isCorrect := isCorrect s;
     showFamiliarityModal := showFamiliarityModal s;
     enterCount := enterCount s |}.

(** The state after an event; [None] when the view is unmounted.  The
    controls of a question are rendered for the question's type while the
    answer is not shown, the retry and next buttons while it is.  A rating
    is saved after an [await], so that [RatingSaved] may come in any state,
    with the test of the render that made its handler. *)
Definition step (toLowerCase : jsstring -> jsstring) (s : State)
    (e : Event) : option State :=
  match e with
  | SubjectLoaded subjectQuestions => Some (load s subjectQuestions)
  | KeyDown key => Some (handleKeyDown toLowerCase s key)
  | OptionChanged idx =>
      Some (if showAnswer s then s else chooseOption s idx)
  | TruthChanged value =>
      Some (if showAnswer s then s
            else match currentQuestion s with
                 | Some (true_false _) =>
                     handleAnswerChange s (a_boolean value)
                 | _ => s
                 end)
  | TextChanged value =>
      Some (if showAnswer s then s
            else match currentQuestion s with
                 | Some (fill_blank _ _)
                 | Some (bopomofo_to_char _ _)
                 | Some (char_to_bopomofo _ _) =>
                     handleAnswerChange s (a_string value)
                 | _ => s
                 end)
  | SubmitClicked =>
      Some (if showAnswer s then s
            else match currentQuestion s with
                 | Some _ => handleSubmitAnswer toLowerCase s
                 | None => s
                 end)
  | RetryClicked =>
      Some (if showAnswer s
            then match currentQuestion s with
                 | Some _ => handleRetry s
                 | None => s
                 end
            else s)
  | NextClicked =>
      Some (if showAnswer s
            then match currentQuestion s with
                 | Some _ => setShowFamiliarityModal s true
                 | None => s
                 end
            else s)
  | RatingSaved more =>
      handleNextQuestion (setShowFamiliarityModal s false) more
  | ViewLeft => None
  end.

(** The states that a mounted view can be in. *)
Inductive Reachable (toLowerCase : jsstring -> jsstring) : State -> Prop :=
| Reachable_mounted : Reachable toLowerCase mounted
| Reachable_step (s s' : State) (e : Event) :
    Reachable toLowerCase s -> step toLowerCase s e = Some s' ->
    Reachable toLowerCase s'.

(** A question and an answer that the view holds together in some
    state. *)
Definition Held (toLowerCase : jsstring -> jsstring)
    (question : option Question) (answer : option Answer) : Prop :=
  exists s,
    Reachable toLowerCase s /\
    currentQuestion s = question /\ userAnswer s = answer.

(** The answers that the controls of a question give. *)
Definition fits (question : Question) (answer : Answer) : Prop :=
  match question, answer with
  | multiple_choice _ true, a_strings _
  | multiple_choice _ false, a_string _
  | true_false _, a_boolean _
  | fill_blank _ _, a_string _
  | bopomofo_to_char _ _, a_string _
  | char_to_bopomofo _ _, a_string _ => True
  | _, _ => False
  end.

(** An answer held by the view fits the current question. *)
Definition answerFits (s : State) : Prop :=
  forall answer,
    userAnswer s = Some answer ->
    exists question,
      currentQuestion s = Some question /\ fits question answer.

(** *** Sample data

    A sort question whose two items are stored in the order second,
    first. *)
Definition sampleSort : Question :=
  sort [ {| item_id := [50%N]; item_text := [98%N]; correctOrder := 1 |};
         {| item_id := [49%N]; item_text := [97%N]; correctOrder := 0 |} ].

End StudySession.

(** * Properties *)

(** ** Numbers *)

Lemma num_ltb_lt (x y : Qc) : num_ltb x y = true <-> (x < y)%Qc.
Proof.
  unfold num_ltb. rewrite Qclt_alt.
  destruct (x ?= y)%Qc; split; congruence.
Qed.

Lemma num_ltb_ge (x y : Qc) : num_ltb x y = false <-> (y <= x)%Qc.
Proof.
  rewrite <- not_true_iff_false, num_ltb_lt. split.
  - apply Qcnot_lt_le.
  - apply Qcle_not_lt.
Qed.

Lemma num_eqb_eq (x y : Qc) : num_eqb x y = true <-> x = y.
Proof.
  unfold num_eqb. rewrite Qceq_alt.
  destruct (x ?= y)%Qc; split; congruence.
Qed.

Lemma Math_max_l (x y : Qc) : (x <= Math_max x y)%Qc.
Proof.
  unfold Math_max. destruct (num_ltb x y) eqn:E.
  - apply Qclt_le_weak, num_ltb_lt, E.
  - apply Qcle_refl.
Qed.

Lemma Math_max_r (x y : Qc) : (y <= Math_max x y)%Qc.
Proof.
  unfold Math_max. destruct (num_ltb x y) eqn:E.
  - apply Qcle_refl.
  - apply num_ltb_ge, E.
Qed.

Lemma Math_max_cases (x y : Qc) : Math_max x y = x \/ Math_max x y = y.
Proof. unfold Math_max. destruct (num_ltb x y); auto. Qed.

(** ** The familiarity state machine *)

Section Familiarity.
Import SRS.

(** A correct answer moves the two lowest tiers to [somewhat_familiar]
    whatever the time spent. *)
Lemma updateFamiliarity_low (timeSpent : Qc) :
  updateFamiliarity unfamiliar true timeSpent = somewhat_familiar /\
  updateFamiliarity unanswered true timeSpent = somewhat_familiar.
Proof. split; reflexivity. Qed.

(** C8, as stated, fails at the lowest tier: a correct answer given in 10
    seconds moves [unfamiliar] to [somewhat_familiar], which is neither
    [unfamiliar] nor its immediate successor [unanswered]. *)
Lemma updateFamiliarity_skips_unanswered :
  let next := updateFamiliarity unfamiliar true (Qc_of_Z 10) in
  (Qc_of_Z 10 <= Qc_of_Z 10)%Qc /\
  next <> unfamiliar /\
  successor unfamiliar <> Some next.
Proof. vm_compute. repeat split; discriminate. Qed.

(** C8 (amended): for every tier other than [unfamiliar] and every time
    spent of at least 10 seconds, a correct answer leaves the tier or moves
    it to its immediate successor; from [unfamiliar] it moves to
    [somewhat_familiar], past [unanswered]. *)
Theorem updateFamiliarity_slow_correct
    (tier : FamiliarityLevel) (timeSpent : Qc) :
  (Qc_of_Z 10 <= timeSpent)%Qc ->
  let next := updateFamiliarity tier true timeSpent in
  (tier <> unfamiliar -> next = tier \/ successor tier = Some next) /\
  (tier = unfamiliar -> next = somewhat_familiar).
Proof.
  intros Hslow next. subst next.
  assert (H10 : num_ltb timeSpent (Qc_of_Z 10) = false)
    by (apply num_ltb_ge, Hslow).
  assert (H5 : num_ltb timeSpent (Qc_of_Z 5) = false).
  { apply num_ltb_ge. apply Qcle_trans with (Qc_of_Z 10); [|exact Hslow].
    apply (proj1 (Z2Qc_inj_le 5 10)). lia. }
  destruct tier; simpl; rewrite ?H10, ?H5; split; intros; auto; congruence.
Qed.

Lemma updateFamiliarity_slow_correct_witness :
  let next := updateFamiliarity familiar true (Qc_of_Z 12) in
  (familiar <> unfamiliar ->
   next = familiar \/ successor familiar = Some next) /\
  (familiar = unfamiliar -> next = somewhat_familiar).
Proof.
  apply (updateFamiliarity_slow_correct familiar (Qc_of_Z 12)).
  vm_compute. discriminate.
Defined.

End Familiarity.

(** ** The Simple scheduling algorithm *)

Section Scheduling.
Import SRS.

(** The interval of the scenario: 16.8 days. *)
Lemma intervalDays_scenario : intervalDays mastered 9 1 3 = lit 168 10.
Proof. apply Qc_is_canon. vm_compute. reflexivity. Qed.

(** [addDays] drops the fraction of a day. *)
Lemma addDays_whole (date : Z) (amount : Qc) (days : Z) :
  (Qc_of_Z days <= amount)%Qc -> (amount < Qc_of_Z (days + 1))%Qc ->
  addDays date amount = date + days * msPerDay.
Proof.
  intros Hle Hlt. unfold addDays. f_equal. f_equal.
  assert (Hl : (days <= Qfloor amount)%Z).
  { rewrite <- (Qfloor_Z days). apply Qfloor_resp_le. exact Hle. }
  assert (Hu : (Qfloor amount < days + 1)%Z).
  { apply Z.lt_nge. intros Hge.
    apply (Qlt_not_le amount (inject_Z (days + 1))); [exact Hlt|].
    apply Qle_trans with (inject_Z (Qfloor amount)).
    - rewrite <- Zle_Qle. exact Hge.
    - apply Qfloor_le. }
  lia.
Qed.

(** C4: in the scenario tier [mastered], 9 correct, 1 incorrect, streak 3,
    evaluated at time [T], the interval is 16.8 days, yet the Simple
    algorithm returns [T] plus 16 whole days: [addDays] drops the 0.8-day
    fraction, so the result is not [T + 16.8] days (1451520000 ms). *)
Theorem calculateNextReview_scenario (T lastReviewed : Z) :
  intervalDays mastered 9 1 3 = lit 168 10 /\
  calculateNextReview defaultSRSAlgorithm T mastered 9 1 3 lastReviewed
  = T + 16 * msPerDay /\
  calculateNextReview defaultSRSAlgorithm T mastered 9 1 3 lastReviewed
  <> T + 1451520000.
Proof.
  assert (H : calculateNextReview defaultSRSAlgorithm T mastered 9 1 3
                lastReviewed
              = T + 16 * msPerDay).
  { cbn [calculateNextReview defaultSRSAlgorithm SimpleSRSAlgorithm].
    rewrite intervalDays_scenario.
    apply addDays_whole; vm_compute; congruence. }
  split; [exact intervalDays_scenario|]. split; [exact H|].
  rewrite H. unfold msPerDay. lia.
Qed.

(** The sub-day base intervals of the two lowest tiers are dropped whole:
    with no history, the next review is due at once. *)
Lemma calculateNextReview_sub_day (T lastReviewed : Z) :
  calculateNextReview defaultSRSAlgorithm T unfamiliar 0 0 0 lastReviewed = T /\
  calculateNextReview defaultSRSAlgorithm T unanswered 0 0 0 lastReviewed = T.
Proof.
  cbn [calculateNextReview defaultSRSAlgorithm SimpleSRSAlgorithm].
  split; rewrite (addDays_whole _ _ 0); try lia; vm_compute; congruence.
Qed.

End Scheduling.

(** ** [Array.prototype.sort] *)

Section ArraySort.
Context {A : Type} (compareFn : A -> A -> Z).

Lemma sort_insert_Permutation (x : A) (l : list A) :
  Permutation (sort_insert compareFn x l) (x :: l).
Proof.
  induction l as [|y l IH]; simpl; [reflexivity|].
  destruct (compareFn x y <=? 0); [reflexivity|].
  rewrite IH. apply perm_swap.
Qed.

Lemma Array_sort_Permutation (l : list A) :
  Permutation (Array_sort compareFn l) l.
Proof.
  induction l as [|x l IH]; simpl; [reflexivity|].
  rewrite sort_insert_Permutation. now apply perm_skip.
Qed.

Lemma Array_sort_length (l : list A) :
  length (Array_sort compareFn l) = length l.
Proof. apply Permutation_length, Array_sort_Permutation. Qed.

(** The comparison functions of this program subtract a key. *)
Context (key : A -> Z).
Hypothesis compareFn_key : forall a b, compareFn a b = key a - key b.

Lemma sort_insert_sorted (x : A) (l : list A) :
  StronglySorted (ascending key) l ->
  StronglySorted (ascending key) (sort_insert compareFn x l).
Proof.
  induction 1 as [|y l Hs IH Hy]; simpl.
  - repeat constructor.
  - rewrite compareFn_key. destruct (Z.leb_spec (key x - key y) 0) as [Hle|Hgt].
    + constructor; [now constructor|].
      constructor; [unfold ascending; lia|].
      eapply Forall_impl; [exact Hy|].
      unfold ascending. intros z Hz. lia.
    + constructor; [exact IH|].
      rewrite (sort_insert_Permutation x l).
      constructor; [unfold ascending; lia|exact Hy].
Qed.

Lemma Array_sort_sorted (l : list A) :
  StronglySorted (ascending key) (Array_sort compareFn l).
Proof.
  induction l as [|x l IH]; simpl; [constructor|].
  now apply sort_insert_sorted.
Qed.

(** Stability: the elements of any one key keep their relative order. *)
Lemma sort_insert_stable (k : Z) (x : A) (l : list A) :
  List.filter (fun a => key a =? k) (sort_insert compareFn x l)
  = List.filter (fun a => key a =? k) (x :: l).
Proof.
  induction l as [|y l IH]; [reflexivity|].
  cbn [sort_insert]. rewrite compareFn_key.
  destruct (Z.leb_spec (key x - key y) 0) as [Hle|Hgt]; [reflexivity|].
  cbn [List.filter] in *. rewrite IH.
  destruct (Z.eqb_spec (key x) k) as [Hx|Hx]; [|reflexivity].
  destruct (Z.eqb_spec (key y) k) as [Hy|Hy]; [lia|reflexivity].
Qed.

Lemma Array_sort_stable (k : Z) (l : list A) :
  List.filter (fun a => key a =? k) (Array_sort compareFn l)
  = List.filter (fun a => key a =? k) l.
Proof.
  induction l as [|x l IH]; [reflexivity|].
  cbn [Array_sort foldr]. rewrite sort_insert_stable.
  cbn [List.filter]. fold (Array_sort compareFn l). now rewrite IH.
Qed.

End ArraySort.

(** ** The due queue *)

Section DueRecords.
Import DatabaseContext.

Lemma filter_filter_key (now t : Z) (l : list LearningRecord) :
  t <= now ->
  List.filter (fun r => nextReview r =? t) (List.filter (isDue now) l)
  = List.filter (fun r => nextReview r =? t) l.
Proof.
  intros Ht. induction l as [|r l IH]; [reflexivity|].
  cbn [List.filter]. unfold isDue at 1.
  destruct (Z.leb_spec (nextReview r) now) as [Hdue|Hlater].
  - cbn [List.filter]. now rewrite IH.
  - rewrite IH. destruct (Z.eqb_spec (nextReview r) t); [lia|reflexivity].
Qed.

(** C10: the due queue holds exactly the records whose [nextReview] is at
    most [now] (each as often as the collection holds it), in ascending
    order of [nextReview], and the records of any one [nextReview] come in
    their order in the collection. *)
Theorem getDueLearningRecords_spec
    (learningRecords : list LearningRecord) (now : Z) :
  let due := getDueLearningRecords learningRecords now in
  (forall r, In r due <-> In r learningRecords /\ nextReview r <= now) /\
  Permutation due
    (List.filter (fun r => nextReview r <=? now) learningRecords) /\
  StronglySorted (ascending nextReview) due /\
  (forall t, t <= now ->
     List.filter (fun r => nextReview r =? t) due
     = List.filter (fun r => nextReview r =? t) learningRecords).
Proof.
  intros due. subst due. unfold getDueLearningRecords.
  assert (Hperm := Array_sort_Permutation compareNextReview
                     (List.filter (isDue now) learningRecords)).
  split; [|split; [|split]].
  - intros r. split.
    + intros Hin. eapply Permutation_in in Hin; [|exact Hperm].
      apply filter_In in Hin. destruct Hin as [Hin Hdue].
      unfold isDue in Hdue. split; [exact Hin|lia].
    + intros [Hin Hdue]. eapply Permutation_in; [symmetry; exact Hperm|].
      apply filter_In. split; [exact Hin|]. unfold isDue. lia.
  - exact Hperm.
  - apply Array_sort_sorted. reflexivity.
  - intros t Ht.
    rewrite (Array_sort_stable compareNextReview nextReview); [|reflexivity].
    now apply filter_filter_key.
Qed.

(** The scenario of the specification: of three records due at [T - 1],
    [T] and [T + 1], listed latest first, the queue at [T] holds the first
    two, earliest first. *)
Lemma getDueLearningRecords_scenario (T : Z) (r : LearningRecord) :
  let at_ (time : Z) :=
    {| id := id r; questionId := questionId r; subjectId := subjectId r;
       familiarity := familiarity r; correctCount := correctCount r;
       incorrectCount := incorrectCount r; lastReviewed := lastReviewed r;
       nextReview := time; streak := streak r;
       totalTimeSpent := totalTimeSpent r; createdAt := createdAt r;
       updatedAt := updatedAt r |} in
  getDueLearningRecords [at_ (T + 1); at_ T; at_ (T - 1)] T
  = [at_ (T - 1); at_ T].
Proof.
  intros at_. subst at_.
  unfold getDueLearningRecords, isDue, compareNextReview. cbn.
  repeat match goal with
         | |- context [?a <=? ?b] => destruct (Z.leb_spec a b); try lia; cbn
         end.
  reflexivity.
Qed.

End DueRecords.

(** ** The answer evaluators *)

Section SortInReview.
Import Evaluator.

(** The sort branch of [ReviewView]'s evaluator on an answer that is a
    sequence of indices, which no control of the view gives: the one item
    of the question sorts to the index sequence [0], and the answer [0],
    which is that sequence, would not be judged correct. *)
Lemma ReviewView_rejects_sorted_answer :
  let items :=
    [ {| item_id := [49%N]; item_text := [97%N]; correctOrder := 0 |} ] in
  let answer := [0] in
  ~ (fst (ReviewView.checkAnswer toLowerCaseASCII
            (Some (sort items)) (Some (a_numbers answer))) = Return true
     <-> answer = indices (Array_sort compareItems items)).
Proof. intros items answer [_ Hjudged]. discriminate (Hjudged eq_refl). Qed.

End SortInReview.

Section Evaluators.
Import Evaluator.
Variable toLowerCase : jsstring -> jsstring.

(** *** Sort questions *)

Lemma indices_positions (sorted : list SortItem) :
  indices sorted = Z.of_nat <$> seq 0 (length sorted).
Proof. unfold indices. apply imap_seq_0. Qed.

Lemma everyOrder_eq (userOrder correctOrder : list Z) :
  length userOrder = length correctOrder ->
  everyOrder userOrder correctOrder = true <-> userOrder = correctOrder.
Proof.
  intros Hlen. unfold everyOrder. split.
  - intros H. apply Is_true_true, forallb_True in H.
    rewrite Forall_lookup in H.
    apply list_eq. intros i.
    destruct (userOrder !! i) as [order|] eqn:Hi.
    + specialize (H i (bool_decide (Some order = correctOrder !! i))).
      rewrite list_lookup_imap, Hi in H. specialize (H eq_refl).
      now apply bool_decide_unpack in H.
    + apply lookup_ge_None in Hi. symmetry. apply lookup_ge_None. lia.
  - intros ->. apply Is_true_true, forallb_True, Forall_lookup.
    intros i x Hx. rewrite list_lookup_imap in Hx.
    destruct (correctOrder !! i) as [order|] eqn:Hi; [|discriminate].
    simpl in Hx. injection Hx as <-. now apply bool_decide_pack.
Qed.

Lemma checkOrder_numbers (userOrder correctOrder : list Z) :
  checkOrder correctOrder (a_numbers userOrder) = Return true
  <-> userOrder = correctOrder.
Proof.
  unfold checkOrder.
  destruct (Nat.eqb_spec (length userOrder) (length correctOrder)) as [Hl|Hl].
  - rewrite andb_true_l. rewrite <- (everyOrder_eq _ _ Hl).
    split; [now intros [= ->]|now intros ->].
  - rewrite andb_false_l. split; [discriminate|]. intros ->. contradiction.
Qed.

(** What the sort branches compute on a sequence of indices, an answer
    that no control of either view gives (lemma [sort_never_answered]): in
    study mode [.map((_, index) => index)] drops the sorted items, so that
    the sequence is compared with [0, 1, ..., n - 1] whatever the values of
    [correctOrder]; in review mode it is judged incorrect. *)
Theorem sort_checkAnswer (items : list SortItem) (userOrder : list Z) :
  indices (Array_sort compareItems items)
    = Z.of_nat <$> seq 0 (length items) /\
  (fst (StudyView.checkAnswer toLowerCase (Some (sort items))
          (Some (a_numbers userOrder))) = Return true
   <-> userOrder = Z.of_nat <$> seq 0 (length items)) /\
  fst (ReviewView.checkAnswer toLowerCase (Some (sort items))
         (Some (a_numbers userOrder))) = Return false.
Proof.
  assert (H : indices (Array_sort compareItems items)
              = Z.of_nat <$> seq 0 (length items)).
  { rewrite indices_positions. now rewrite Array_sort_length. }
  split; [exact H|]. split; [|reflexivity].
  cbn [StudyView.checkAnswer fst]. rewrite checkOrder_numbers. now rewrite H.
Qed.

(** C3: in review mode no submission to a sort question is judged
    correct, whatever the items and the answer; the question is left as it
    is. *)
Theorem ReviewView_sort_false
    (items : list SortItem) (userAnswer : option Answer) :
  ReviewView.checkAnswer toLowerCase (Some (sort items)) userAnswer
  = (Return false, Some (sort items)).
Proof. destruct userAnswer; reflexivity. Qed.

(** *** Purity *)

(** [ReviewView]'s evaluator leaves every question as it is. *)
Lemma ReviewView_checkAnswer_pure
    (currentQuestion : option Question) (userAnswer : option Answer) :
  snd (ReviewView.checkAnswer toLowerCase currentQuestion userAnswer)
  = currentQuestion.
Proof.
  destruct currentQuestion as [[? []| | | | |]|], userAnswer; reflexivity.
Qed.

(** [StudyView]'s evaluator leaves a question as it is unless it is a sort
    question, whose items it leaves sorted. *)
Lemma StudyView_checkAnswer_frame
    (question : Question) (userAnswer : option Answer) :
  snd (StudyView.checkAnswer toLowerCase (Some question) userAnswer)
  = match question, userAnswer with
    | sort items, Some _ => Some (sort (Array_sort compareItems items))
    | _, _ => Some question
    end.
Proof.
  destruct question as [? []| | | | |], userAnswer; reflexivity.
Qed.

(** What the sort branch of [StudyView]'s evaluator would do to the
    question, were it given an answer (no control of the view gives one,
    lemma [sort_never_answered]): evaluating an answer to a sort question
    whose two items are stored in the order second, first leaves the
    question with its items in the order first, second. *)
Theorem StudyView_checkAnswer_reorders_items :
  let first :=
    {| item_id := [49%N]; item_text := [97%N]; correctOrder := 0 |} in
  let second :=
    {| item_id := [50%N]; item_text := [98%N]; correctOrder := 1 |} in
  let question := sort [second; first] in
  snd (StudyView.checkAnswer toLowerCase (Some question)
         (Some (a_numbers [0; 1])))
  = Some (sort [first; second]) /\
  Some (sort [first; second]) <> Some question.
Proof. split; [reflexivity|discriminate]. Qed.

End Evaluators.

(** *** Multi-select questions *)

Section MultiSelect.
Import Evaluator.
Variable toLowerCase : jsstring -> jsstring.

Lemma multiSelect_spec (selectedOptions correctOptions : list jsstring) :
  multiSelect selectedOptions correctOptions = true
  <-> length selectedOptions = length correctOptions /\
      forall id, id ∈ selectedOptions -> id ∈ correctOptions.
Proof.
  unfold multiSelect. rewrite andb_true_iff, Nat.eqb_eq.
  rewrite forallb_forall. split; intros [Hlen Hall]; (split; [exact Hlen|]).
  - intros id Hid. apply list_elem_of_In, Hall in Hid.
    now apply bool_decide_eq_true in Hid.
  - intros id Hid. apply bool_decide_eq_true, Hall, list_elem_of_In, Hid.
Qed.

(** On submissions and options without repeated ids the multi-select test
    is equality of the two sets of ids. *)
Lemma multiSelect_NoDup (selectedOptions correctOptions : list jsstring) :
  NoDup selectedOptions -> NoDup correctOptions ->
  multiSelect selectedOptions correctOptions = true
  <-> (list_to_set selectedOptions : gset jsstring)
      = list_to_set correctOptions.
Proof.
  intros Hsel Hcorr. rewrite multiSelect_spec. split.
  - intros [Hlen Hall]. apply list_to_set_perm_L.
    apply submseteq_length_Permutation; [|lia].
    now apply NoDup_submseteq.
  - intros Heq.
    assert (Hiff : forall id, id ∈ selectedOptions <-> id ∈ correctOptions).
    { intros id. rewrite <- !(elem_of_list_to_set (C := gset jsstring)).
      now rewrite Heq. }
    split; [|intros id; apply Hiff].
    apply Permutation_length. now apply NoDup_Permutation.
Qed.

(** C2 at a failing input: with the correct options [a] and [b], the
    submission [a, a] is judged correct by both evaluators, although its
    set of ids is not the set of the correct ids. *)
Theorem multiSelect_repeated_submission :
  let a := [97%N] in
  let b := [98%N] in
  let c := [99%N] in
  let options :=
    [ {| id := a; text := a; isCorrect := true |};
      {| id := b; text := b; isCorrect := true |};
      {| id := c; text := c; isCorrect := false |} ] in
  let submitted := [a; a] in
  correctOptions options = [a; b] /\
  fst (StudyView.checkAnswer toLowerCase
         (Some (multiple_choice options true)) (Some (a_strings submitted)))
  = Return true /\
  fst (ReviewView.checkAnswer toLowerCase
         (Some (multiple_choice options true)) (Some (a_strings submitted)))
  = Return true /\
  (list_to_set submitted : gset jsstring)
  <> list_to_set (correctOptions options).
Proof.
  split; [reflexivity|]. split; [reflexivity|]. split; [reflexivity|].
  intros Heq.
  assert (Hb : [98%N] ∈ (list_to_set [[97%N]; [97%N]] : gset jsstring)).
  { rewrite Heq. apply elem_of_list_to_set. set_solver. }
  apply elem_of_list_to_set in Hb. set_solver.
Qed.

(** The converse failure: two correct options that carry the same id (the
    question editor creates every option with the empty id) are not matched
    by the submission of that id, although the two sets of ids are equal. *)
Lemma multiSelect_repeated_option_id :
  let options :=
    [ {| id := []; text := [97%N]; isCorrect := true |};
      {| id := []; text := [98%N]; isCorrect := true |} ] in
  let submitted := [ [] ] in
  fst (StudyView.checkAnswer toLowerCase
         (Some (multiple_choice options true)) (Some (a_strings submitted)))
  = Return false /\
  (list_to_set submitted : gset jsstring)
  = list_to_set (correctOptions options).
Proof.
  intros options submitted. split; [reflexivity|].
  change (correctOptions options) with [@nil N; @nil N].
  apply set_eq. intros x. rewrite !elem_of_list_to_set.
  subst submitted. rewrite !elem_of_cons. tauto.
Qed.

End MultiSelect.

(** ** The Levenshtein matrix *)

Section Matrix.
Import MoedictAPI.

Lemma mget_mset_eq (matrix : list (list nat)) (j i v : nat) (row : list nat) :
  matrix !! j = Some row -> (i < length row)%nat ->
  mget (mset matrix j i v) j i = v.
Proof.
  intros Hrow Hi. unfold mget, mset.
  rewrite list_lookup_alter_eq, Hrow. simpl.
  now rewrite list_lookup_insert_eq.
Qed.

Lemma mget_mset_ne (matrix : list (list nat)) (j i v j' i' : nat) :
  j' <> j \/ i' <> i ->
  mget (mset matrix j i v) j' i' = mget matrix j' i'.
Proof.
  intros Hne. unfold mget, mset.
  destruct (decide (j = j')) as [<-|Hj].
  - rewrite list_lookup_alter_eq.
    destruct (matrix !! j) as [row|]; [|reflexivity]. simpl.
    rewrite list_lookup_insert_ne; [reflexivity|].
    destruct Hne; congruence.
  - now rewrite list_lookup_alter_ne.
Qed.

Lemma shaped_replicate (rows columns : nat) :
  shaped rows columns (replicate rows (replicate columns 0%nat)).
Proof.
  split; [apply length_replicate|].
  intros j row Hrow. apply lookup_replicate_1 in Hrow as [-> _].
  apply length_replicate.
Qed.

Lemma shaped_mset (rows columns : nat) (matrix : list (list nat))
    (j i v : nat) :
  shaped rows columns matrix -> shaped rows columns (mset matrix j i v).
Proof.
  intros [Hrows Hcolumns]. unfold mset. split.
  - now rewrite length_alter.
  - intros j' row. destruct (decide (j = j')) as [<-|Hj].
    + rewrite list_lookup_alter_eq.
      destruct (matrix !! j) as [row'|] eqn:Hrow'; [|discriminate].
      simpl. intros [= <-]. rewrite length_insert. eauto.
    + rewrite list_lookup_alter_ne by exact Hj. eauto.
Qed.

(** A loop [for (k = a; k < a + n; k++)] keeps an invariant indexed by
    [k]. *)
Lemma for_loop_invariant {S : Type} (P : nat -> S -> Prop)
    (body : S -> nat -> S) (a n : nat) (s : S) :
  P a s ->
  (forall k s, (a <= k < a + n)%nat -> P k s -> P (Datatypes.S k) (body s k)) ->
  P (a + n)%nat (foldl body s (seq a n)).
Proof.
  revert a s. induction n as [|n IH]; intros a s Hstart Hstep.
  - now rewrite Nat.add_0_r.
  - cbn [seq foldl]. rewrite <- Nat.add_succ_comm. apply IH.
    + apply Hstep; [lia|exact Hstart].
    + intros k s' Hk. apply Hstep. lia.
Qed.

Variables str1 str2 : jsstring.

Lemma tabulated_weaken (known known' : nat -> nat -> Prop)
    (matrix : list (list nat)) :
  (forall j i, known' j i -> known j i) ->
  tabulated str1 str2 known matrix -> tabulated str1 str2 known' matrix.
Proof. intros Hsub [Hshape Hcells]. split; auto. Qed.

Lemma tabulated_mset (known : nat -> nat -> Prop)
    (matrix : list (list nat)) (j i : nat) :
  (j <= length str2)%nat -> (i <= length str1)%nat ->
  tabulated str1 str2 known matrix ->
  tabulated str1 str2 (fun j' i' => known j' i' \/ (j' = j /\ i' = i))
    (mset matrix j i (prefix_distance str1 str2 j i)).
Proof.
  intros Hj Hi [Hshape Hcells]. split; [now apply shaped_mset|].
  intros j' i' Hknown.
  destruct (decide (j' = j /\ i' = i)) as [[-> ->]|Hne].
  - destruct Hshape as [Hrows Hcolumns].
    destruct (lookup_lt_is_Some_2 matrix j) as [row Hrow]; [lia|].
    apply (mget_mset_eq _ _ _ _ row Hrow).
    rewrite (Hcolumns _ _ Hrow). lia.
  - rewrite mget_mset_ne by lia. apply Hcells. tauto.
Qed.

Lemma distance_rec_nil_r (p : jsstring) : distance_rec p [] = length p.
Proof. now destruct p. Qed.

Lemma prefix_distance_row0 (i : nat) :
  (i <= length str1)%nat -> prefix_distance str1 str2 0 i = i.
Proof.
  intros Hi. unfold prefix_distance. rewrite take_0, reverse_nil.
  rewrite distance_rec_nil_r, length_reverse. now apply length_take_le.
Qed.

Lemma prefix_distance_column0 (j : nat) :
  (j <= length str2)%nat -> prefix_distance str1 str2 j 0 = j.
Proof.
  intros Hj. unfold prefix_distance. rewrite take_0, reverse_nil.
  cbn [distance_rec]. rewrite length_reverse. now apply length_take_le.
Qed.

Lemma reverse_take_S (s : jsstring) (n : nat) (x : N) :
  s !! n = Some x -> reverse (take (S n) s) = x :: reverse (take n s).
Proof. intros Hx. now rewrite (take_S_r _ _ _ Hx), reverse_snoc. Qed.

(** The inner loop body computes the recurrence. *)
Lemma prefix_distance_cell (j i : nat) :
  (1 <= j <= length str2)%nat -> (1 <= i <= length str1)%nat ->
  (((prefix_distance str1 str2 j (i - 1) + 1) `min`
    (prefix_distance str1 str2 (j - 1) i + 1)) `min`
   (prefix_distance str1 str2 (j - 1) (i - 1)
    + indicator str1 str2 i j))%nat
  = prefix_distance str1 str2 j i.
Proof.
  intros Hj Hi.
  destruct j as [|j]; [lia|]. destruct i as [|i]; [lia|].
  replace (S j - 1)%nat with j by lia. replace (S i - 1)%nat with i by lia.
  destruct (lookup_lt_is_Some_2 str1 i) as [x Hx]; [lia|].
  destruct (lookup_lt_is_Some_2 str2 j) as [y Hy]; [lia|].
  unfold prefix_distance, indicator.
  replace (S j - 1)%nat with j by lia. replace (S i - 1)%nat with i by lia.
  rewrite (reverse_take_S _ _ _ Hx), (reverse_take_S _ _ _ Hy), Hx, Hy.
  cbn [distance_rec].
  destruct (decide (x = y)) as [->|Hxy].
  - rewrite decide_True by reflexivity. reflexivity.
  - rewrite decide_False by congruence. reflexivity.
Qed.

(** The first loop fills row 0. *)
Lemma row0_loop (matrix : list (list nat)) :
  shaped (length str2 + 1) (length str1 + 1) matrix ->
  tabulated str1 str2 (fun j i => j = 0%nat /\ (i <= length str1)%nat)
    (foldl (fun m i => mset m 0 i i) matrix (seq 0 (length str1 + 1))).
Proof.
  intros Hshape.
  apply (tabulated_weaken
           (fun j i => j = 0%nat /\ (i < 0 + (length str1 + 1))%nat));
    [intros j i; lia|].
  apply (for_loop_invariant
           (fun k m => tabulated str1 str2
                         (fun j i => j = 0%nat /\ (i < k)%nat) m)).
  - split; [exact Hshape|]. intros j i. lia.
  - intros k m Hk Hm.
    rewrite <- (prefix_distance_row0 k) at 2 by lia.
    eapply tabulated_weaken; [|apply tabulated_mset; [lia|lia|exact Hm]].
    intros j i. cbn beta. lia.
Qed.

(** The second loop fills column 0. *)
Lemma column0_loop (matrix : list (list nat)) :
  tabulated str1 str2 (fun j i => j = 0%nat /\ (i <= length str1)%nat) matrix ->
  tabulated str1 str2
    (fun j i => (j <= length str2)%nat /\ (i <= length str1)%nat /\
                (j = 0%nat \/ i = 0%nat))
    (foldl (fun m j => mset m j 0 j) matrix (seq 0 (length str2 + 1))).
Proof.
  intros Hrow0.
  apply (tabulated_weaken
           (fun j i => (j = 0%nat /\ (i <= length str1)%nat) \/
                       (i = 0%nat /\ (j < 0 + (length str2 + 1))%nat)));
    [intros j i; lia|].
  apply (for_loop_invariant
           (fun k m => tabulated str1 str2
                         (fun j i => (j = 0%nat /\ (i <= length str1)%nat) \/
                                     (i = 0%nat /\ (j < k)%nat)) m)).
  - eapply tabulated_weaken; [|exact Hrow0]. intros j i. cbn beta. lia.
  - intros k m Hk Hm.
    rewrite <- (prefix_distance_column0 k) at 2 by lia.
    eapply tabulated_weaken; [|apply tabulated_mset; [lia|lia|exact Hm]].
    intros j i. cbn beta. lia.
Qed.

(** The inner loop fills row [j]. *)
Lemma inner_loop (j : nat) (matrix : list (list nat)) :
  (1 <= j <= length str2)%nat ->
  tabulated str1 str2 (filled str1 str2 j 1) matrix ->
  tabulated str1 str2 (filled str1 str2 j (1 + length str1))
    (foldl (cell str1 str2 j) matrix (seq 1 (length str1))).
Proof.
  intros Hj Hstart.
  apply (for_loop_invariant
           (fun k m => tabulated str1 str2 (filled str1 str2 j k) m));
    [exact Hstart|].
  intros i m Hi Hm. unfold cell.
  destruct Hm as [Hshape Hcells].
  rewrite !Hcells by (unfold filled; lia).
  rewrite prefix_distance_cell by lia.
  eapply tabulated_weaken;
    [|apply tabulated_mset; [| |split; [exact Hshape|exact Hcells]]];
    [|lia|lia].
  intros j' i'. unfold filled. lia.
Qed.

(** The outer loop fills the rows one after the other. *)
Lemma outer_loop (matrix : list (list nat)) :
  tabulated str1 str2 (filled str1 str2 1 0) matrix ->
  tabulated str1 str2 (filled str1 str2 (1 + length str2) 0)
    (foldl (fun m j => foldl (cell str1 str2 j) m (seq 1 (length str1)))
       matrix (seq 1 (length str2))).
Proof.
  intros Hstart.
  apply (for_loop_invariant
           (fun k m => tabulated str1 str2 (filled str1 str2 k 0) m));
    [exact Hstart|].
  intros j m Hj Hm.
  eapply tabulated_weaken; [|apply (inner_loop j); [lia|]].
  - intros j' i'. unfold filled. lia.
  - eapply tabulated_weaken; [|exact Hm]. intros j' i'. unfold filled. lia.
Qed.

(** [levenshteinDistance] returns the value of the recurrence on the two
    strings. *)
Lemma levenshteinDistance_rec :
  levenshteinDistance str1 str2
  = distance_rec (reverse str1) (reverse str2).
Proof.
  unfold levenshteinDistance.
  pose proof (shaped_replicate (length str2 + 1) (length str1 + 1)) as H.
  apply row0_loop, column0_loop in H.
  eapply tabulated_weaken in H; [apply outer_loop in H|].
  - destruct H as [_ Hcells]. rewrite Hcells by (unfold filled; lia).
    unfold prefix_distance. now rewrite !firstn_all.
  - intros j i. unfold filled. lia.
Qed.

End Matrix.

(** ** The phonetic similarity *)

Section Similarity.
Import MoedictAPI.

Lemma distance_rec_sym (p q : jsstring) : distance_rec p q = distance_rec q p.
Proof.
  revert q. induction p as [|x p IHp]; intros q.
  - now rewrite distance_rec_nil_r.
  - induction q as [|y q IHq]; [reflexivity|].
    cbn [distance_rec] in *. rewrite IHq, !IHp.
    rewrite (Nat.min_comm (distance_rec (y :: q) p + 1)).
    destruct (decide (x = y)) as [->|Hxy].
    + now rewrite decide_True.
    + now rewrite decide_False by congruence.
Qed.

Lemma levenshteinDistance_sym (str1 str2 : jsstring) :
  levenshteinDistance str1 str2 = levenshteinDistance str2 str1.
Proof. rewrite !levenshteinDistance_rec. apply distance_rec_sym. Qed.

(** The distance of a string to itself. *)
Lemma distance_rec_diag (p : jsstring) : distance_rec p p = 0%nat.
Proof.
  induction p as [|x p IH]; [reflexivity|].
  cbn [distance_rec]. rewrite decide_True by reflexivity. rewrite IH. lia.
Qed.

Lemma calculateSimilarity_same (a : jsstring) : calculateSimilarity a a = 1%Qc.
Proof. unfold calculateSimilarity. now rewrite decide_True. Qed.

Lemma calculateSimilarity_sym (a b : jsstring) :
  calculateSimilarity a b = calculateSimilarity b a.
Proof.
  unfold calculateSimilarity.
  destruct (decide (normalizeBopomofo a = normalizeBopomofo b)) as [Heq|Hne].
  - now rewrite decide_True.
  - destruct (decide (normalizeBopomofo b = normalizeBopomofo a));
      [congruence|].
    now rewrite levenshteinDistance_sym, Nat.max_comm.
Qed.

(** C9: the similarity of a non-empty string to itself is 1.0, and the
    similarity is symmetric. *)
Theorem calculateSimilarity_reflexive_symmetric (a b : jsstring) :
  (a <> [] -> calculateSimilarity a a = 1%Qc) /\
  calculateSimilarity a b = calculateSimilarity b a.
Proof.
  split.
  - intros _. apply calculateSimilarity_same.
  - apply calculateSimilarity_sym.
Qed.

Lemma calculateSimilarity_reflexive_symmetric_witness :
  [12549%N; 714%N] <> [] /\
  calculateSimilarity [12549%N; 714%N] [12549%N; 714%N] = 1%Qc /\
  calculateSimilarity [12549%N; 714%N] [12550%N]
  = calculateSimilarity [12550%N] [12549%N; 714%N].
Proof.
  pose proof (calculateSimilarity_reflexive_symmetric
                [12549%N; 714%N] [12550%N]) as [Hrefl Hsym].
  split; [discriminate|]. split; [apply Hrefl; discriminate|exact Hsym].
Defined.

End Similarity.

(** ** The phonetic validator *)

Section Validator.
Import MoedictAPI.

(** [indexOf] finds the first index whose element is equal to [x]. *)
Lemma indexOf_Some {A : Type} (eqb : A -> A -> bool) (P : A -> Prop)
    (array : list A) (x : A) (i : nat) :
  (forall y, eqb y x = true <-> P y) ->
  indexOf eqb array x = Some i ->
  exists y, first_at P array i y.
Proof.
  intros Heqb. revert i.
  induction array as [|y array IH]; intros i; [discriminate|].
  cbn [indexOf]. destruct (eqb y x) eqn:Hy.
  - intros [= <-]. exists y. split; [reflexivity|].
    split; [now apply Heqb|]. intros i' x' Hi'. lia.
  - destruct (indexOf eqb array x) as [k|]; [|discriminate].
    intros [= <-]. destruct (IH k eq_refl) as (z & Hz & HP & Hfirst).
    exists z. split; [exact Hz|]. split; [exact HP|].
    intros [|i'] x' Hi' Hx'.
    + injection Hx' as <-. rewrite <- Heqb. congruence.
    + apply (Hfirst i' x'); [lia|exact Hx'].
Qed.

Lemma indexOf_is_Some {A : Type} (eqb : A -> A -> bool)
    (array : list A) (x y : A) :
  y ∈ array -> eqb y x = true -> is_Some (indexOf eqb array x).
Proof.
  intros Hin Hy. induction Hin as [y array|y z array Hin IH]; cbn [indexOf].
  - rewrite Hy. eauto.
  - destruct (eqb z x); [eauto|]. destruct (IH Hy) as [k ->]. eauto.
Qed.

Lemma str_eqb_eq (x y : jsstring) : str_eqb x y = true <-> x = y.
Proof. unfold str_eqb. apply bool_decide_eq_true. Qed.

Lemma Math_max_of_upper (first : Qc) (rest : list Qc) (y : Qc) :
  y ∈ first :: rest -> (y <= Math_max_of first rest)%Qc.
Proof.
  unfold Math_max_of. revert first y.
  induction rest as [|z rest IH]; intros first y Hy.
  - apply list_elem_of_singleton in Hy as ->. apply Qcle_refl.
  - cbn [foldl]. apply elem_of_cons in Hy as [->|Hy].
    + apply Qcle_trans with (Math_max first z); [apply Math_max_l|].
      apply IH. left.
    + apply elem_of_cons in Hy as [->|Hy].
      * apply Qcle_trans with (Math_max first z); [apply Math_max_r|].
        apply IH. left.
      * apply IH. now right.
Qed.

Lemma Math_max_of_attained (first : Qc) (rest : list Qc) :
  Math_max_of first rest ∈ first :: rest.
Proof.
  unfold Math_max_of. revert first.
  induction rest as [|z rest IH]; intros first; [left|].
  cbn [foldl]. specialize (IH (Math_max first z)).
  apply elem_of_cons in IH as [->|IH].
  - destruct (Math_max_cases first z) as [->| ->]; [left|right; left].
  - right. now right.
Qed.

(** The three stages on a list of candidates that is not empty. *)
Lemma validateAgainst_cascade (candidates : list jsstring) (input : jsstring) :
  candidates <> [] ->
  cascade candidates input (validateAgainst candidates input).
Proof.
  intros Hne. unfold cascade, validateAgainst.
  destruct (bool_decide_reflect (input ∈ candidates)) as [Hexact|Hexact];
    [split; [intros _; reflexivity|split; intros; contradiction]|].
  destruct (bool_decide_reflect
              (normalizeBopomofo input ∈ normalizeBopomofo <$> candidates))
    as [Hpartial|Hpartial].
  - split; [contradiction|]. split; [|contradiction]. intros _ _.
    destruct (indexOf_is_Some str_eqb _ (normalizeBopomofo input) _ Hpartial)
      as [i Hi];
      [now apply str_eqb_eq|].
    rewrite Hi.
    apply (indexOf_Some _ (fun y => y = normalizeBopomofo input)) in Hi;
      [|intros y; apply str_eqb_eq].
    destruct Hi as (y & Hy & -> & Hfirst).
    apply list_lookup_fmap_Some in Hy as (c & Heq & Hc).
    exists i, c. split.
    + split; [exact Hc|]. split; [congruence|].
      intros i' c' Hi' Hc'. apply (Hfirst i' (normalizeBopomofo c') Hi').
      now rewrite list_lookup_fmap, Hc'.
    + cbn [at_index mbind option_bind]. now rewrite Hc.
  - split; [contradiction|]. split; [contradiction|]. intros _ _.
    destruct candidates as [|c0 candidates]; [contradiction|].
    set (similarities := calculateSimilarity input <$> c0 :: candidates).
    set (maxSimilarity :=
           Math_max_of (calculateSimilarity input c0)
             (calculateSimilarity input <$> candidates)).
    change (match similarities with
            | [] => 0%Qc
            | first :: rest => Math_max_of first rest
            end) with maxSimilarity.
    cbn [confidence isCorrect correctBopomofo].
    assert (Hmax : maxSimilarity ∈ similarities)
      by apply Math_max_of_attained.
    assert (Hupper : forall s, s ∈ similarities -> (s <= maxSimilarity)%Qc)
      by (intros s; apply Math_max_of_upper).
    destruct (indexOf_is_Some num_eqb _ maxSimilarity _ Hmax) as [i Hi];
      [now apply num_eqb_eq|].
    rewrite Hi.
    apply (indexOf_Some _ (fun s => s = maxSimilarity)) in Hi;
      [|intros s; apply num_eqb_eq].
    destruct Hi as (s & Hs & Hsmax & Hfirst).
    apply list_lookup_fmap_Some in Hs as (c & Heq & Hc).
    exists i, c. split; [|split; [|split]].
    + split; [exact Hc|]. split; [congruence|].
      intros i' c' Hi' Hc'.
      apply (Hfirst i' (calculateSimilarity input c') Hi').
      unfold similarities. now rewrite list_lookup_fmap, Hc'.
    + intros c' Hc'. apply Hupper. now apply list_elem_of_fmap_2.
    + apply num_ltb_lt.
    + cbn [at_index mbind option_bind]. exact Hc.
Qed.

(** In the last stage every earlier candidate is strictly less similar
    than the matched one. *)
Lemma cascade_earlier_lower (candidates : list jsstring) (input : jsstring)
    (v : Validation) (i i' : nat) (c c' : jsstring) :
  first_at (fun c => calculateSimilarity input c = confidence v)
    candidates i c ->
  (forall c', c' ∈ candidates ->
              (calculateSimilarity input c' <= confidence v)%Qc) ->
  (i' < i)%nat -> candidates !! i' = Some c' ->
  (calculateSimilarity input c' < confidence v)%Qc.
Proof.
  intros (_ & _ & Hfirst) Hupper Hi' Hc'.
  destruct (Qcle_lt_or_eq _ _ (Hupper c' (list_elem_of_lookup_2 _ _ _ Hc')))
    as [Hlt|Heq]; [exact Hlt|].
  now destruct (Hfirst i' c' Hi' Hc').
Qed.

Lemma possibleBopomofo_nil (hs : list Heteronym) :
  length hs = 0%nat -> possibleBopomofo hs = [].
Proof. now destruct hs. Qed.

(** [validateBopomofo] on the result of the lookup. *)
Lemma validateBopomofo_unfold (network : jsstring -> FetchResult)
    (cache : gmap jsstring MoedictResponse)
    (character inputBopomofo : jsstring) :
  fst (validateBopomofo network cache character inputBopomofo)
  = Return
      match fst (getCharacterInfo network cache character) with
      | None => noMatch
      | Some characterInfo =>
          match readings characterInfo with
          | [] => noMatch
          | c :: candidates => validateAgainst (c :: candidates) inputBopomofo
          end
      end.
Proof.
  unfold validateBopomofo, readings.
  destruct (getCharacterInfo network cache character) as [[info|] cache'];
    [|reflexivity].
  cbn [fst]. destruct (h info) as [hs|]; [|reflexivity].
  destruct (decide (length hs = 0%nat)) as [Hhs|Hhs].
  - now rewrite (possibleBopomofo_nil hs Hhs).
  - destruct (possibleBopomofo hs) as [|c candidates]; reflexivity.
Qed.

(** C5: when the lookup of the character yields a list of candidate
    readings that is not empty, [validateBopomofo] returns the verdict of
    the three-stage cascade on that list: an exact match gives the input
    with confidence 1.0; otherwise a tone-stripped match gives the first
    matching candidate with confidence 0.8; otherwise the confidence is the
    greatest similarity, the reading is the first candidate that attains it,
    and the verdict is correct exactly when it exceeds 0.7. *)
Theorem validateBopomofo_cascade (network : jsstring -> FetchResult)
    (cache : gmap jsstring MoedictResponse)
    (character inputBopomofo : jsstring) (characterInfo : MoedictResponse) :
  fst (getCharacterInfo network cache character) = Some characterInfo ->
  readings characterInfo <> [] ->
  exists v,
    fst (validateBopomofo network cache character inputBopomofo) = Return v /\
    cascade (readings characterInfo) inputBopomofo v.
Proof.
  intros Hlookup Hreadings. rewrite validateBopomofo_unfold, Hlookup.
  destruct (readings characterInfo) as [|c candidates] eqn:Hr; [contradiction|].
  eexists. split; [reflexivity|]. now apply validateAgainst_cascade.
Qed.

(** A verdict of the second stage: the input without its tone mark is
    matched to the first reading, with confidence 0.8. *)
Lemma validateBopomofo_cascade_witness :
  exists v,
    fst (validateBopomofo sampleNetwork ∅ sampleCharacter [12559; 12576]%N)
    = Return v /\
    cascade (readings sampleInfo) [12559; 12576]%N v.
Proof.
  apply (validateBopomofo_cascade sampleNetwork ∅ sampleCharacter
           [12559; 12576]%N sampleInfo).
  - reflexivity.
  - discriminate.
Defined.

Lemma validateBopomofo_sample_stages :
  fst (validateBopomofo sampleNetwork ∅ sampleCharacter [12559; 12576; 715]%N)
  = Return {| isCorrect := true;
              correctBopomofo := Some [12559; 12576; 715]%N;
              confidence := 1 |} /\
  fst (validateBopomofo sampleNetwork ∅ sampleCharacter [12559; 12576]%N)
  = Return {| isCorrect := true;
              correctBopomofo := Some [12559; 12576; 711]%N;
              confidence := lit 8 10 |} /\
  fst (validateBopomofo sampleNetwork ∅ sampleCharacter [12559; 12570]%N)
  = Return {| isCorrect := false;
              correctBopomofo := Some [12559; 12576; 711]%N;
              confidence := lit 1 2 |}.
Proof.
  rewrite !validateBopomofo_unfold.
  change (fst (getCharacterInfo sampleNetwork ∅ sampleCharacter))
    with (Some sampleInfo).
  repeat split; f_equal; vm_compute; f_equal; apply Qc_is_canon; reflexivity.
Qed.

(** *** Failure of the lookup *)

Lemma fetchCharacterInfo_fails (network : jsstring -> FetchResult)
    (character : jsstring) :
  (wellFormed character = false \/
   network character = Rejected \/
   exists response, network character = Resolved response /\
     (ok response = false \/ exists error, json response = Throw error))
  <-> exists error, fetchCharacterInfo network character = Throw error.
Proof.
  unfold fetchCharacterInfo, encodeURIComponent, fetch.
  destruct (wellFormed character); cbn [exn_bind]; [|split; eauto].
  destruct (network character) as [|response]; cbn [exn_bind]; [split; eauto|].
  destruct (ok response) eqn:Hok; cbn [negb].
  - split.
    + intros [?|[?|(r & [= <-] & [?|Hjson])]]; congruence.
    + intros Hjson. right. right. exists response. split; [reflexivity|].
      now right.
  - split; [eauto|]. intros _. right. right. exists response.
    split; [reflexivity|now left].
Qed.

(** The lookup answers [null] exactly when it fails, and then leaves the
    cache as it is. *)
Lemma getCharacterInfo_fails (network : jsstring -> FetchResult)
    (cache : gmap jsstring MoedictResponse) (character : jsstring) :
  lookupFails network cache character
  <-> getCharacterInfo network cache character = (None, cache).
Proof.
  unfold lookupFails, getCharacterInfo. rewrite fetchCharacterInfo_fails.
  destruct (cache !! character) as [data|].
  - split; [intros [? _]|]; discriminate.
  - destruct (fetchCharacterInfo network character) as [data|error].
    + split; [intros [_ [error ?]]|]; discriminate.
    + split; [reflexivity|]. intros _. split; [reflexivity|eauto].
Qed.

(** On settled requests and payloads of the declared type: when the
    lookup fails (the request cannot be made, the network fails, the
    response is not [ok] or its body is not JSON) or yields no candidate
    reading, [validateBopomofo] returns the verdict incorrect with
    confidence 0 and no matched reading.  Theorem
    [validateBopomofo_degrades_on_failure] is about payloads of any
    shape. *)
Theorem validateBopomofo_degrades (network : jsstring -> FetchResult)
    (cache : gmap jsstring MoedictResponse)
    (character inputBopomofo : jsstring) :
  lookupFails network cache character \/
  (exists characterInfo,
     fst (getCharacterInfo network cache character) = Some characterInfo /\
     readings characterInfo = []) ->
  fst (validateBopomofo network cache character inputBopomofo)
  = Return {| isCorrect := false; correctBopomofo := None; confidence := 0 |}.
Proof.
  rewrite validateBopomofo_unfold.
  intros [Hfails|(characterInfo & -> & ->)]; [|reflexivity].
  apply getCharacterInfo_fails in Hfails. now rewrite Hfails.
Qed.

Lemma validateBopomofo_degrades_witness :
  fst (validateBopomofo deadNetwork ∅ sampleCharacter [12559; 12576]%N)
  = Return {| isCorrect := false; correctBopomofo := None; confidence := 0 |}.
Proof.
  apply (validateBopomofo_degrades deadNetwork ∅ sampleCharacter).
  left. split; [reflexivity|]. right. left. reflexivity.
Defined.

(** On settled requests and payloads of the declared type,
    [validateBopomofo] returns a verdict. *)
Lemma validateBopomofo_returns (network : jsstring -> FetchResult)
    (cache : gmap jsstring MoedictResponse)
    (character inputBopomofo : jsstring) :
  exists v,
    fst (validateBopomofo network cache character inputBopomofo) = Return v.
Proof. rewrite validateBopomofo_unfold. eauto. Qed.

End Validator.

(** * Further properties *)

(** ** The familiarity state machine *)

Section Tiers.
Import SRS Scheduling.

(** An incorrect answer never raises the tier and lowers every tier but
    the lowest, whatever the time spent. *)
Lemma updateFamiliarity_incorrect_lowers
    (f : FamiliarityLevel) (timeSpent : Qc) :
  (rank (updateFamiliarity f false timeSpent) <= rank f)%nat /\
  (f <> unfamiliar ->
   (rank (updateFamiliarity f false timeSpent) < rank f)%nat).
Proof. destruct f; cbn; split; intros; try lia; congruence. Qed.

Lemma afterAnswers_unfamiliar (answers : list (bool * Qc)) :
  Forall (fun answer => answer.1 = false) answers ->
  afterAnswers unfamiliar answers = unfamiliar.
Proof.
  unfold afterAnswers. induction 1 as [|[c t] answers Hc _ IH]; [reflexivity|].
  cbn in Hc. subst c. exact IH.
Qed.

(** X1: Three incorrect answers in a row, or more, bring every tier down to
    [unfamiliar]. *)
Lemma three_incorrect_unfamiliar
    (f : FamiliarityLevel) (answers : list (bool * Qc)) :
  (3 <= length answers)%nat ->
  Forall (fun answer => answer.1 = false) answers ->
  afterAnswers f answers = unfamiliar.
Proof.
  intros Hlen Hall.
  destruct answers as [|[c1 t1] [|[c2 t2] [|[c3 t3] answers]]];
    cbn in Hlen; try lia.
  apply Forall_cons in Hall as [H1 Hall].
  apply Forall_cons in Hall as [H2 Hall].
  apply Forall_cons in Hall as [H3 Hall].
  cbn in H1, H2, H3. subst c1 c2 c3.
  unfold afterAnswers. cbn [foldl fst snd].
  replace (updateFamiliarity
             (updateFamiliarity (updateFamiliarity f false t1) false t2)
             false t3) with unfamiliar by (destruct f; reflexivity).
  now apply afterAnswers_unfamiliar.
Qed.

Lemma three_incorrect_unfamiliar_witness :
  afterAnswers mastered
    [(false, Qc_of_Z 3); (false, Qc_of_Z 20); (false, Qc_of_Z 1)]
  = unfamiliar.
Proof.
  apply (three_incorrect_unfamiliar mastered).
  - cbn. lia.
  - repeat constructor.
Defined.

(** X2: No answer ever leads to the tier [unanswered]: once a question has been
    answered, its tier is never [unanswered] again. *)
Lemma afterAnswers_never_unanswered
    (f : FamiliarityLevel) (answers : list (bool * Qc)) :
  answers <> [] -> afterAnswers f answers <> unanswered.
Proof.
  intros Hne.
  destruct (exists_last Hne) as (answers' & [c t] & ->).
  unfold afterAnswers. rewrite foldl_snoc. cbn [fst snd].
  generalize (foldl (fun f answer => updateFamiliarity f answer.1 answer.2)
                f answers').
  intros g. unfold updateFamiliarity.
  destruct c, g; try discriminate;
    destruct (num_ltb t _); discriminate.
Qed.

Lemma afterAnswers_never_unanswered_witness :
  afterAnswers unanswered [(false, Qc_of_Z 3)] <> unanswered.
Proof.
  apply (afterAnswers_never_unanswered unanswered [(false, Qc_of_Z 3)]).
  discriminate.
Defined.

(** A correct answer never lowers the tier and raises it by two positions
    at most. *)
Lemma updateFamiliarity_correct_raises
    (f : FamiliarityLevel) (timeSpent : Qc) :
  (rank f <= rank (updateFamiliarity f true timeSpent) <= rank f + 2)%nat.
Proof.
  destruct f; cbn; try lia; destruct (num_ltb timeSpent _); cbn; lia.
Qed.

(** X3: [mastered] needs a correct answer in under 5 seconds: answers that all
    take 5 seconds or more never lead to [mastered] from another tier. *)
Lemma mastered_needs_fast_answer
    (f : FamiliarityLevel) (answers : list (bool * Qc)) :
  f <> mastered ->
  Forall (fun answer => (Qc_of_Z 5 <= answer.2)%Qc) answers ->
  afterAnswers f answers <> mastered.
Proof.
  intros Hf Hall. revert f Hf. unfold afterAnswers.
  induction Hall as [|[c t] answers Ht _ IH]; intros f Hf; [exact Hf|].
  cbn [foldl fst snd]. apply IH. cbn in Ht.
  apply num_ltb_ge in Ht. unfold updateFamiliarity. rewrite Ht.
  destruct c, f; cbn; try discriminate; try congruence.
  destruct (num_ltb t (Qc_of_Z 10)); discriminate.
Qed.

Lemma mastered_needs_fast_answer_witness :
  afterAnswers familiar [(true, Qc_of_Z 5); (true, Qc_of_Z 7)] <> mastered.
Proof.
  apply (mastered_needs_fast_answer familiar).
  - discriminate.
  - repeat constructor; vm_compute; discriminate.
Defined.

(** X4: Three correct answers in under 5 seconds each bring every tier up to
    [mastered]. *)
Lemma three_fast_correct_mastered
    (f : FamiliarityLevel) (t1 t2 t3 : Qc) :
  (t1 < Qc_of_Z 5)%Qc -> (t2 < Qc_of_Z 5)%Qc -> (t3 < Qc_of_Z 5)%Qc ->
  afterAnswers f [(true, t1); (true, t2); (true, t3)] = mastered.
Proof.
  intros H1 H2 H3.
  assert (Hten : forall t, (t < Qc_of_Z 5)%Qc ->
                           num_ltb t (Qc_of_Z 10) = true).
  { intros t Ht. apply num_ltb_lt.
    apply Qclt_trans with (Qc_of_Z 5); [exact Ht|].
    apply (proj1 (Z2Qc_inj_lt 5 10)). lia. }
  pose proof (Hten _ H1). pose proof (Hten _ H2). pose proof (Hten _ H3).
  apply num_ltb_lt in H1, H2, H3.
  unfold afterAnswers. cbn [foldl fst snd].
  destruct f; cbn; rewrite ?H, ?H0, ?H4, ?H1, ?H2, ?H3; cbn;
    rewrite ?H, ?H0, ?H4, ?H1, ?H2, ?H3; cbn;
    rewrite ?H, ?H0, ?H4, ?H1, ?H2, ?H3; reflexivity.
Qed.

Lemma three_fast_correct_mastered_witness :
  afterAnswers unfamiliar
    [(true, Qc_of_Z 2); (true, Qc_of_Z 4); (true, Qc_of_Z 1)]
  = mastered.
Proof.
  apply (three_fast_correct_mastered unfamiliar); vm_compute; reflexivity.
Defined.

End Tiers.

(** ** The scheduling algorithms *)

Section Intervals.
Import SRS Scheduling.

Lemma Math_min_le_l (x y : Qc) : (Math_min x y <= x)%Qc.
Proof.
  unfold Math_min. destruct (num_ltb y x) eqn:E.
  - apply Qclt_le_weak, num_ltb_lt, E.
  - apply Qcle_refl.
Qed.

Lemma Math_min_le_r (x y : Qc) : (Math_min x y <= y)%Qc.
Proof.
  unfold Math_min. destruct (num_ltb y x) eqn:E.
  - apply Qcle_refl.
  - apply num_ltb_ge, E.
Qed.

Lemma Math_min_glb (x y z : Qc) :
  (z <= x)%Qc -> (z <= y)%Qc -> (z <= Math_min x y)%Qc.
Proof. intros Hx Hy. unfold Math_min. now destruct (num_ltb y x). Qed.

Lemma Math_min_mono (x x' y : Qc) :
  (x <= x')%Qc -> (Math_min x y <= Math_min x' y)%Qc.
Proof.
  intros Hx. apply Math_min_glb.
  - apply Qcle_trans with x; [apply Math_min_le_l|exact Hx].
  - apply Math_min_le_r.
Qed.

(** [intervalDays] is the product of its three factors. *)
Lemma intervalDays_factors
    (f : FamiliarityLevel) (correctCount incorrectCount streak : Z) :
  intervalDays f correctCount incorrectCount streak
  = (baseInterval f * accuracyFactor correctCount incorrectCount
     * streakFactor streak)%Qc.
Proof.
  unfold intervalDays, accuracyFactor, streakFactor.
  fold (baseInterval f).
  destruct (0 <? correctCount + incorrectCount);
    [destruct (num_leb _ _); [|destruct (num_ltb _ _)]|];
    destruct (0 <? streak); rewrite ?Qcmult_1_r; reflexivity.
Qed.

Lemma baseInterval_bounds (f : FamiliarityLevel) :
  (0 < baseInterval f)%Qc /\ (baseInterval f <= Qc_of_Z 7)%Qc.
Proof. destruct f; split; vm_compute; congruence. Qed.

Lemma accuracyFactor_bounds (correctCount incorrectCount : Z) :
  (0 < accuracyFactor correctCount incorrectCount)%Qc /\
  (accuracyFactor correctCount incorrectCount <= lit 15 10)%Qc.
Proof.
  unfold accuracyFactor.
  destruct (0 <? correctCount + incorrectCount);
    [destruct (num_leb _ _); [|destruct (num_ltb _ _)]|];
    split; vm_compute; congruence.
Qed.

Lemma streakFactor_bounds (streak : Z) :
  (1 <= streakFactor streak)%Qc /\ (streakFactor streak <= Qc_of_Z 3)%Qc.
Proof.
  unfold streakFactor. destruct (Z.ltb_spec 0 streak) as [Hs|Hs].
  - split; [|apply Math_min_le_r].
    apply Math_min_glb; [|vm_compute; congruence].
    rewrite <- (Qcplus_0_r 1) at 1. apply Qcplus_le_mono_l.
    apply Qcmult_nonneg_nonneg; [|vm_compute; congruence].
    apply (proj1 (Z2Qc_inj_le 0 streak)). lia.
  - split; vm_compute; congruence.
Qed.

Lemma streakFactor_mono (streak streak' : Z) :
  streak <= streak' -> (streakFactor streak <= streakFactor streak')%Qc.
Proof.
  intros Hle. unfold streakFactor.
  destruct (Z.ltb_spec 0 streak) as [Hs|Hs];
    destruct (Z.ltb_spec 0 streak') as [Hs'|Hs']; try lia.
  - apply Math_min_mono. apply Qcplus_le_mono_l.
    apply Qcmult_le_mono_nonneg_r; [vm_compute; congruence|].
    apply (proj1 (Z2Qc_inj_le _ _)). exact Hle.
  - pose proof (proj1 (streakFactor_bounds streak')) as H.
    unfold streakFactor in H. destruct (Z.ltb_spec 0 streak'); [exact H|lia].
  - apply Qcle_refl.
Qed.

(** The interval is positive and at most 31.5 days, whatever the counts
    and the streak. *)
Lemma intervalDays_bounds
    (f : FamiliarityLevel) (correctCount incorrectCount streak : Z) :
  (0 < intervalDays f correctCount incorrectCount streak)%Qc /\
  (intervalDays f correctCount incorrectCount streak <= lit 63 2)%Qc.
Proof.
  rewrite intervalDays_factors.
  destruct (baseInterval_bounds f) as [Hb0 Hb].
  destruct (accuracyFactor_bounds correctCount incorrectCount) as [Ha0 Ha].
  destruct (streakFactor_bounds streak) as [Hs1 Hs].
  assert (Hs0 : (0 < streakFactor streak)%Qc).
  { apply Qclt_le_trans with 1%Qc; [vm_compute; reflexivity|exact Hs1]. }
  split.
  - apply Qcmult_pos_pos; [apply Qcmult_pos_pos|]; assumption.
  - apply Qcle_trans
      with (Qc_of_Z 7 * lit 15 10 * streakFactor streak)%Qc.
    + apply Qcmult_le_mono_nonneg_r; [now apply Qclt_le_weak|].
      apply Qcle_trans
        with (Qc_of_Z 7 * accuracyFactor correctCount incorrectCount)%Qc.
      * apply Qcmult_le_mono_nonneg_r; [now apply Qclt_le_weak|exact Hb].
      * apply Qcmult_le_mono_nonneg_l; [vm_compute; congruence|exact Ha].
    + replace (lit 63 2) with (Qc_of_Z 7 * lit 15 10 * Qc_of_Z 3)%Qc
        by (apply Qc_is_canon; vm_compute; reflexivity).
      apply Qcmult_le_mono_nonneg_l; [vm_compute; congruence|exact Hs].
Qed.

Lemma Qfloor_Qc_bounds (x : Qc) (lo hi : Z) :
  (Qc_of_Z lo <= x)%Qc -> (x < Qc_of_Z (hi + 1))%Qc ->
  lo <= Qfloor x <= hi.
Proof.
  intros Hlo Hhi. split.
  - rewrite <- (Qfloor_Z lo). apply Qfloor_resp_le. exact Hlo.
  - apply Z.lt_succ_r, Z.lt_nge. intros Hge.
    apply (Qlt_not_le x (inject_Z (hi + 1))); [exact Hhi|].
    apply Qle_trans with (inject_Z (Qfloor x)).
    + rewrite <- Zle_Qle. lia.
    + apply Qfloor_le.
Qed.

(** X5: The Simple algorithm schedules the next review a whole number of days
    after the clock reading, at least 0 and at most 31, whatever the tier,
    the counts and the streak. *)
Theorem Simple_nextReview_bounds
    (now : Z) (f : FamiliarityLevel)
    (correctCount incorrectCount streak lastReviewed : Z) :
  exists days : Z,
    0 <= days <= 31 /\
    calculateNextReview SimpleSRSAlgorithm now f correctCount incorrectCount
      streak lastReviewed
    = now + days * msPerDay.
Proof.
  cbn [calculateNextReview SimpleSRSAlgorithm]. unfold addDays.
  destruct (intervalDays_bounds f correctCount incorrectCount streak)
    as [H0 H].
  eexists. split; [|reflexivity].
  apply Qfloor_Qc_bounds.
  - apply Qclt_le_weak. exact H0.
  - apply Qcle_lt_trans with (lit 63 2); [exact H|vm_compute; reflexivity].
Qed.

Lemma intervalDays_unfamiliar (correctCount incorrectCount streak : Z) :
  (intervalDays unfamiliar correctCount incorrectCount streak < 1)%Qc.
Proof.
  rewrite intervalDays_factors.
  destruct (accuracyFactor_bounds correctCount incorrectCount) as [Ha0 Ha].
  destruct (streakFactor_bounds streak) as [Hs1 Hs].
  apply Qcle_lt_trans with (lit 1 10 * lit 15 10 * Qc_of_Z 3)%Qc;
    [|vm_compute; reflexivity].
  apply Qcle_trans
    with (lit 1 10 * lit 15 10 * streakFactor streak)%Qc.
  - apply Qcmult_le_mono_nonneg_r.
    + apply Qcle_trans with 1%Qc; [vm_compute; congruence|exact Hs1].
    + apply Qcmult_le_mono_nonneg_l; [vm_compute; congruence|exact Ha].
  - apply Qcmult_le_mono_nonneg_l; [vm_compute; congruence|exact Hs].
Qed.

Lemma addDays_unfamiliar (now correctCount incorrectCount streak : Z) :
  addDays now (intervalDays unfamiliar correctCount incorrectCount streak)
  = now.
Proof.
  rewrite (addDays_whole _ _ 0); [lia| |].
  - apply Qclt_le_weak, intervalDays_bounds.
  - apply intervalDays_unfamiliar.
Qed.

(** A question rated [unfamiliar] is due again at once under the Simple
    algorithm: its interval stays under one day, which [addDays] drops. *)
Theorem Simple_unfamiliar_due_at_once
    (now correctCount incorrectCount streak lastReviewed : Z) :
  calculateNextReview SimpleSRSAlgorithm now unfamiliar correctCount
    incorrectCount streak lastReviewed
  = now.
Proof.
  cbn [calculateNextReview SimpleSRSAlgorithm]. apply addDays_unfamiliar.
Qed.

(** X6: A longer streak never brings the next review forward. *)
Theorem Simple_nextReview_streak_mono
    (now : Z) (f : FamiliarityLevel)
    (correctCount incorrectCount streak streak' lastReviewed : Z) :
  streak <= streak' ->
  calculateNextReview SimpleSRSAlgorithm now f correctCount incorrectCount
    streak lastReviewed
  <= calculateNextReview SimpleSRSAlgorithm now f correctCount incorrectCount
       streak' lastReviewed.
Proof.
  intros Hle. cbn [calculateNextReview SimpleSRSAlgorithm]. unfold addDays.
  apply Z.add_le_mono_l. apply Z.mul_le_mono_nonneg_r; [unfold msPerDay; lia|].
  apply Qfloor_resp_le. rewrite !intervalDays_factors.
  apply Qcmult_le_mono_nonneg_l; [|now apply streakFactor_mono].
  apply Qclt_le_weak, Qcmult_pos_pos;
    [apply baseInterval_bounds|apply accuracyFactor_bounds].
Qed.

Lemma Simple_nextReview_streak_mono_witness :
  calculateNextReview SimpleSRSAlgorithm 0 mastered 9 1 1 0
  <= calculateNextReview SimpleSRSAlgorithm 0 mastered 9 1 3 0.
Proof.
  apply (Simple_nextReview_streak_mono 0 mastered 9 1 1 3 0). lia.
Defined.

End Intervals.

Section SM2.
Import SRS Scheduling.

Lemma addDays_integer (date days : Z) :
  addDays date (Qc_of_Z days) = date + days * msPerDay.
Proof. unfold addDays. f_equal. f_equal. exact (Qfloor_Z days). Qed.

Lemma Math_round_bounds (x : Qc) (lo hi : Z) :
  (Qc_of_Z lo <= x)%Qc -> (x <= Qc_of_Z hi + lit 4 10)%Qc ->
  lo <= Math_round x <= hi.
Proof.
  intros Hlo Hhi. unfold Math_round. apply Qfloor_Qc_bounds.
  - rewrite <- (Qcplus_0_r (Qc_of_Z lo)).
    apply Qcplus_le_compat; [exact Hlo|vm_compute; congruence].
  - apply Qcle_lt_trans with (Qc_of_Z hi + lit 4 10 + lit 1 2)%Qc.
    + apply Qcplus_le_mono_r. exact Hhi.
    + rewrite Z2Qc_inj_add, <- Qcplus_assoc. apply Qcplus_lt_mono_l.
      vm_compute. reflexivity.
Qed.

Lemma scaled_bounds (x y lo hi lo' hi' : Qc) :
  (0 <= lo)%Qc -> (0 <= lo')%Qc ->
  (lo <= x)%Qc -> (x <= hi)%Qc -> (lo' <= y)%Qc -> (y <= hi')%Qc ->
  (lo * lo' <= x * y)%Qc /\ (x * y <= hi * hi')%Qc.
Proof.
  intros H0 H0' Hlo Hhi Hlo' Hhi'.
  assert (Hx : (0 <= x)%Qc) by (now apply Qcle_trans with lo).
  assert (Hh : (0 <= hi')%Qc)
    by (apply Qcle_trans with lo'; [|apply Qcle_trans with y]; assumption).
  split.
  - apply Qcle_trans with (x * lo')%Qc.
    + now apply Qcmult_le_mono_nonneg_r.
    + now apply Qcmult_le_mono_nonneg_l.
  - apply Qcle_trans with (x * hi')%Qc.
    + now apply Qcmult_le_mono_nonneg_l.
    + now apply Qcmult_le_mono_nonneg_r.
Qed.

(** X7: The SM2 algorithm schedules the two lowest tiers 1 and 5 minutes after
    the clock reading, whatever the counts and the streak; with a streak
    that is not negative it schedules the other tiers a whole number of
    days after it, at least 2 and at most 36. *)
Theorem SM2_nextReview_bounds
    (now : Z) (f : FamiliarityLevel)
    (correctCount incorrectCount streak lastReviewed : Z) :
  0 <= streak ->
  let nextReview :=
    calculateNextReview SM2Algorithm now f correctCount incorrectCount
      streak lastReviewed in
  match f with
  | unfamiliar => nextReview = now + 60000
  | unanswered => nextReview = now + 300000
  | _ => exists days : Z,
           2 <= days <= 36 /\ nextReview = now + days * msPerDay
  end.
Proof.
  intros Hstreak nextReview. subst nextReview.
  assert (Hmult :
            (1 <= Math_min (1 + Qc_of_Z streak * lit 1 10) (Qc_of_Z 2))%Qc /\
            (Math_min (1 + Qc_of_Z streak * lit 1 10) (Qc_of_Z 2)
             <= Qc_of_Z 2)%Qc).
  { split; [|apply Math_min_le_r].
    apply Math_min_glb; [|vm_compute; congruence].
    rewrite <- (Qcplus_0_r 1) at 1. apply Qcplus_le_mono_l.
    apply Qcmult_nonneg_nonneg; [|vm_compute; congruence].
    apply (proj1 (Z2Qc_inj_le 0 streak)). exact Hstreak. }
  destruct f; cbn [calculateNextReview SM2Algorithm];
    [reflexivity|reflexivity|..];
    match goal with
    | |- context [Math_round (?b * ?e * ?m)] =>
        assert (He : (lit 23 10 <= e)%Qc /\ (e <= lit 26 10)%Qc)
          by (destruct (0 <? correctCount + incorrectCount);
              [destruct (num_leb (lit 9 10) _);
               [|destruct (num_leb (lit 7 10) _)]|];
              split; vm_compute; congruence);
        destruct (scaled_bounds b e b b (lit 23 10) (lit 26 10))
          as [Hbe_lo Hbe_hi];
          [vm_compute; congruence|vm_compute; congruence
          |apply Qcle_refl|apply Qcle_refl|apply He|apply He|];
        destruct (scaled_bounds (b * e) m (b * lit 23 10) (b * lit 26 10)
                    1 (Qc_of_Z 2)) as [Hlo Hhi];
          [vm_compute; congruence|vm_compute; congruence
          |exact Hbe_lo|exact Hbe_hi|apply Hmult|apply Hmult|];
        exists (Math_round (b * e * m));
        split; [|apply addDays_integer];
        apply Math_round_bounds;
          [eapply Qcle_trans; [|exact Hlo]
          |eapply Qcle_trans; [exact Hhi|]];
          vm_compute; congruence
    end.
Qed.

Lemma SM2_nextReview_bounds_witness :
  exists days : Z,
    2 <= days <= 36 /\
    calculateNextReview SM2Algorithm 0 mastered 9 1 3 0
    = 0 + days * msPerDay.
Proof.
  apply (SM2_nextReview_bounds 0 mastered 9 1 3 0). lia.
Defined.

End SM2.

(** ** The lookup cache *)

Section Cache.
Import MoedictAPI MoedictTools.

(** What a call of [getCharacterInfo] does to the cache: nothing, or it
    adds the answer of the network under a key that was absent. *)
Lemma getCharacterInfo_cases (network : jsstring -> FetchResult)
    (cache : gmap jsstring MoedictResponse) (character : jsstring) :
  (exists data, cache !! character = Some data /\
     getCharacterInfo network cache character = (Some data, cache)) \/
  (cache !! character = None /\
   exists data, fetchCharacterInfo network character = Return data /\
     getCharacterInfo network cache character
     = (Some data, <[character := data]> cache)) \/
  (cache !! character = None /\
   (exists error, fetchCharacterInfo network character = Throw error) /\
   getCharacterInfo network cache character = (None, cache)).
Proof.
  unfold getCharacterInfo. destruct (cache !! character) as [data|]; [eauto|].
  destruct (fetchCharacterInfo network character) as [data|error].
  - right. left. eauto.
  - right. right. eauto.
Qed.

(** A successful lookup leaves its answer in the cache. *)
Lemma getCharacterInfo_stores (network : jsstring -> FetchResult)
    (cache cache' : gmap jsstring MoedictResponse) (character : jsstring)
    (data : MoedictResponse) :
  getCharacterInfo network cache character = (Some data, cache') ->
  cache' !! character = Some data.
Proof.
  intros Hfirst.
  destruct (getCharacterInfo_cases network cache character)
    as [(d & Hd & H)|[(Hnone & d & Hd & H)|(Hnone & _ & H)]];
    rewrite H in Hfirst; try discriminate;
    injection Hfirst as <- <-; [exact Hd|apply lookup_insert_eq].
Qed.

Lemma getCharacterInfo_hit (network : jsstring -> FetchResult)
    (cache : gmap jsstring MoedictResponse) (character : jsstring)
    (data : MoedictResponse) :
  cache !! character = Some data ->
  getCharacterInfo network cache character = (Some data, cache).
Proof. intros Hin. unfold getCharacterInfo. now rewrite Hin. Qed.

(** X8: A character that has been looked up with success is served from the
    cache from then on: later lookups return the same data and leave the
    cache as it is, whatever the network answers by then. *)
Theorem getCharacterInfo_cached (network network' : jsstring -> FetchResult)
    (cache cache' : gmap jsstring MoedictResponse) (character : jsstring)
    (data : MoedictResponse) :
  getCharacterInfo network cache character = (Some data, cache') ->
  getCharacterInfo network' cache' character = (Some data, cache').
Proof.
  intros Hfirst. apply getCharacterInfo_hit.
  exact (getCharacterInfo_stores _ _ _ _ _ Hfirst).
Qed.

Lemma getCharacterInfo_cached_witness :
  getCharacterInfo deadNetwork (<[sampleCharacter := sampleInfo]> ∅)
    sampleCharacter
  = (Some sampleInfo, <[sampleCharacter := sampleInfo]> ∅).
Proof.
  apply (getCharacterInfo_cached sampleNetwork deadNetwork ∅).
  reflexivity.
Defined.

(** X9: A lookup never removes or replaces an entry of the cache, touches no
    other key than its own, and adds at most one entry. *)
Theorem getCharacterInfo_cache_grows (network : jsstring -> FetchResult)
    (cache : gmap jsstring MoedictResponse) (character : jsstring) :
  let cache' := (getCharacterInfo network cache character).2 in
  cache ⊆ cache' /\
  (forall other, other <> character -> cache' !! other = cache !! other) /\
  (getCacheSize cache <= getCacheSize cache' <= getCacheSize cache + 1)%nat.
Proof.
  intros cache'. subst cache'. unfold getCacheSize.
  destruct (getCharacterInfo_cases network cache character)
    as [(d & Hd & ->)|[(Hnone & d & Hd & ->)|(Hnone & _ & ->)]];
    cbn [snd].
  - split; [reflexivity|]. split; [reflexivity|lia].
  - split; [now apply insert_subseteq|].
    split; [intros other Hother; now apply lookup_insert_ne|].
    rewrite map_size_insert_None by exact Hnone. lia.
  - split; [reflexivity|]. split; [reflexivity|lia].
Qed.

(** X10: After any series of lookups through one network, the cache holds,
    beside what it held before, exactly the characters of the series that
    the network serves: failed lookups leave no entry. *)
Theorem lookups_dom (network : jsstring -> FetchResult)
    (characters : list jsstring) (cache : gmap jsstring MoedictResponse)
    (character : jsstring) :
  character ∈ dom (lookups network cache characters)
  <-> character ∈ dom cache \/
      (character ∈ characters /\
       exists data, fetchCharacterInfo network character = Return data).
Proof.
  unfold lookups. revert cache.
  induction characters as [|c characters IH]; intros cache; cbn [foldl].
  - rewrite elem_of_nil. tauto.
  - rewrite IH, elem_of_cons.
    destruct (getCharacterInfo_cases network cache c)
      as [(d & Hd & ->)|[(Hnone & d & Hd & ->)|(Hnone & [e He] & ->)]];
      cbn [snd].
    + assert (c ∈ dom cache) by (apply elem_of_dom; eauto).
      split; [tauto|]. intros [?|[[->|?] ?]]; tauto.
    + rewrite dom_insert, elem_of_union, elem_of_singleton.
      split; [intros [[->|?]|?]; eauto; tauto|].
      intros [?|[[->|?] ?]]; tauto.
    + split; [tauto|]. intros [?|[[->|?] Hok]]; try tauto.
      destruct Hok as [data Hok]. congruence.
Qed.

(** After [clearCache] the cache is empty, and a lookup depends on the
    network alone again. *)
Lemma clearCache_forgets (network : jsstring -> FetchResult)
    (cache : gmap jsstring MoedictResponse) (character : jsstring) :
  getCacheSize (clearCache cache) = 0%nat /\
  (getCharacterInfo network (clearCache cache) character).1
  = match fetchCharacterInfo network character with
    | Return data => Some data
    | Throw _ => None
    end.
Proof.
  split; [apply map_size_empty|].
  unfold getCharacterInfo, clearCache. rewrite lookup_empty.
  now destruct (fetchCharacterInfo network character).
Qed.

(** X11: The reading that [getStandardBopomofo] returns for a character is
    accepted for that character by [validateBopomofo], as an exact match
    with confidence 1.0. *)
Theorem getStandardBopomofo_validates
    (network network' : jsstring -> FetchResult)
    (cache cache' : gmap jsstring MoedictResponse)
    (character standard : jsstring) :
  getStandardBopomofo network cache character = (Some standard, cache') ->
  (validateBopomofo network' cache' character standard).1
  = Return {| isCorrect := true; correctBopomofo := Some standard;
              confidence := 1 |}.
Proof.
  unfold getStandardBopomofo.
  destruct (getCharacterInfo network cache character) as [info cache'']
    eqn:Hlookup.
  destruct info as [info|]; [|discriminate].
  destruct (h info) as [[|first hs]|] eqn:Hh; try discriminate.
  intros [= Hb <-].
  rewrite validateBopomofo_unfold.
  rewrite (getCharacterInfo_hit network' _ _ _
             (getCharacterInfo_stores _ _ _ _ _ Hlookup)). cbn [fst].
  unfold readings. rewrite Hh.
  assert (Hin : standard ∈ possibleBopomofo (first :: hs)).
  { apply list_elem_of_omap. exists first. split; [left|exact Hb]. }
  destruct (possibleBopomofo (first :: hs)) as [|c candidates] eqn:Hp;
    [now apply elem_of_nil in Hin|].
  unfold validateAgainst. now rewrite bool_decide_eq_true_2.
Qed.

Lemma getStandardBopomofo_validates_witness :
  (validateBopomofo deadNetwork (<[sampleCharacter := sampleInfo]> ∅)
     sampleCharacter [12559; 12576; 711]%N).1
  = Return {| isCorrect := true;
              correctBopomofo := Some [12559; 12576; 711]%N;
              confidence := 1 |}.
Proof.
  apply (getStandardBopomofo_validates sampleNetwork deadNetwork ∅).
  reflexivity.
Defined.

End Cache.

(** ** The edit distance and the similarity *)

Section Distance.
Import MoedictAPI MoedictTools.

Lemma distance_rec_cons (x y : N) (p q : jsstring) :
  distance_rec (x :: p) (y :: q)
  = (((distance_rec p (y :: q) + 1) `min` (distance_rec (x :: p) q + 1))
       `min` (distance_rec p q + (if decide (x = y) then 0 else 1)))%nat.
Proof. reflexivity. Qed.

Lemma distance_rec_upper (p q : jsstring) :
  (distance_rec p q <= length p `max` length q)%nat.
Proof.
  revert q. induction p as [|x p IHp]; intros q.
  - cbn. lia.
  - induction q as [|y q IHq]; [cbn; lia|].
    rewrite distance_rec_cons. specialize (IHp q).
    cbn [length]. destruct (decide (x = y)); lia.
Qed.

Lemma distance_rec_lower (p q : jsstring) :
  (length p <= length q + distance_rec p q)%nat /\
  (length q <= length p + distance_rec p q)%nat.
Proof.
  revert q. induction p as [|x p IHp]; intros q.
  - cbn. lia.
  - induction q as [|y q IHq]; [cbn; lia|].
    rewrite distance_rec_cons.
    pose proof (IHp q). pose proof (IHp (y :: q)).
    cbn [length] in *. destruct (decide (x = y)); lia.
Qed.

Lemma distance_rec_zero (p q : jsstring) :
  distance_rec p q = 0%nat <-> p = q.
Proof.
  split; [|intros ->; apply distance_rec_diag].
  revert q. induction p as [|x p IHp]; intros q.
  - cbn. now destruct q.
  - destruct q as [|y q]; [discriminate|].
    rewrite distance_rec_cons. intros H.
    destruct (decide (x = y)) as [->|Hxy]; [|lia].
    f_equal. apply IHp. lia.
Qed.

(** X12: The edit distance that the matrix computes is 0 exactly between equal
    strings, is at least the difference of the two lengths and at most the
    greater of them. *)
Theorem levenshteinDistance_bounds (str1 str2 : jsstring) :
  (levenshteinDistance str1 str2 = 0%nat <-> str1 = str2) /\
  (length str1 - length str2 <= levenshteinDistance str1 str2)%nat /\
  (length str2 - length str1 <= levenshteinDistance str1 str2)%nat /\
  (levenshteinDistance str1 str2 <= length str1 `max` length str2)%nat.
Proof.
  rewrite levenshteinDistance_rec.
  pose proof (distance_rec_upper (reverse str1) (reverse str2)) as Hu.
  pose proof (distance_rec_lower (reverse str1) (reverse str2)) as [Hl1 Hl2].
  rewrite !length_reverse in *.
  split; [|lia].
  rewrite distance_rec_zero. split; [|now intros ->].
  intros H. apply (f_equal reverse) in H. now rewrite !reverse_involutive in H.
Qed.

(** Against the empty string the distance is the length. *)
Lemma levenshteinDistance_nil (str : jsstring) :
  levenshteinDistance str [] = length str /\
  levenshteinDistance [] str = length str.
Proof.
  rewrite !levenshteinDistance_rec, reverse_nil, distance_rec_nil_r.
  cbn [distance_rec]. now rewrite length_reverse.
Qed.

Lemma normalizeBopomofo_idemp (bopomofo : jsstring) :
  normalizeBopomofo (normalizeBopomofo bopomofo) = normalizeBopomofo bopomofo.
Proof. unfold normalizeBopomofo. apply list_filter_filter_l. auto. Qed.

(** The similarity does not see tone marks: it is the similarity of the
    two strings without their tone marks. *)
Theorem calculateSimilarity_tone_blind (bopomofo1 bopomofo2 : jsstring) :
  calculateSimilarity bopomofo1 bopomofo2
  = calculateSimilarity (removeBopomofoTone bopomofo1)
      (removeBopomofoTone bopomofo2).
Proof.
  unfold calculateSimilarity, removeBopomofoTone.
  fold (normalizeBopomofo bopomofo1). fold (normalizeBopomofo bopomofo2).
  now rewrite !normalizeBopomofo_idemp.
Qed.

Lemma Qc_of_nat_ratio (n m : nat) :
  (n <= m)%nat -> (0 < m)%nat ->
  (0 <= Qc_of_nat n / Qc_of_nat m)%Qc /\
  (Qc_of_nat n / Qc_of_nat m <= 1)%Qc /\
  ((0 < n)%nat -> (0 < Qc_of_nat n / Qc_of_nat m)%Qc).
Proof.
  intros Hnm Hm. unfold Qc_of_nat.
  assert (Hm0 : (0 < Qc_of_Z (Z.of_nat m))%Qc).
  { rewrite <- Z2Qc_inj_0. apply (proj1 (Z2Qc_inj_lt _ _)). lia. }
  assert (Hinv : (0 < / Qc_of_Z (Z.of_nat m))%Qc) by now apply Qcinv_pos.
  assert (Hn0 : (0 <= Qc_of_Z (Z.of_nat n))%Qc).
  { rewrite <- Z2Qc_inj_0. apply (proj1 (Z2Qc_inj_le _ _)). lia. }
  unfold Qcdiv. split; [|split].
  - apply Qcmult_nonneg_nonneg; [exact Hn0|now apply Qclt_le_weak].
  - rewrite <- (Qcmult_inv_r (Qc_of_Z (Z.of_nat m)))
      by (apply not_eq_sym, Qclt_not_eq, Hm0).
    apply Qcmult_le_mono_nonneg_r; [now apply Qclt_le_weak|].
    apply (proj1 (Z2Qc_inj_le _ _)). lia.
  - intros Hn. apply Qcmult_pos_pos; [|exact Hinv].
    rewrite <- Z2Qc_inj_0. apply (proj1 (Z2Qc_inj_lt _ _)). lia.
Qed.

Lemma calculateSimilarity_unit (bopomofo1 bopomofo2 : jsstring) :
  (0 <= calculateSimilarity bopomofo1 bopomofo2)%Qc /\
  (calculateSimilarity bopomofo1 bopomofo2 <= 1)%Qc /\
  (calculateSimilarity bopomofo1 bopomofo2 = 1%Qc
   <-> normalizeBopomofo bopomofo1 = normalizeBopomofo bopomofo2).
Proof.
  unfold calculateSimilarity.
  set (n1 := normalizeBopomofo bopomofo1).
  set (n2 := normalizeBopomofo bopomofo2).
  destruct (decide (n1 = n2)) as [Heq|Hne].
  { split; [vm_compute; congruence|]. split; [apply Qcle_refl|tauto]. }
  assert (Hupper : (levenshteinDistance n1 n2
                    <= length n1 `max` length n2)%nat).
  { rewrite levenshteinDistance_rec, <- (length_reverse n1),
      <- (length_reverse n2). apply distance_rec_upper. }
  assert (Hpos : (0 < levenshteinDistance n1 n2)%nat).
  { destruct (Nat.eq_dec (levenshteinDistance n1 n2) 0%nat) as [E|E]; [|lia].
    rewrite levenshteinDistance_rec in E. apply distance_rec_zero in E.
    apply (f_equal reverse) in E. rewrite !reverse_involutive in E.
    contradiction. }
  destruct (decide ((length n1 `max` length n2)%nat = 0%nat)) as [H0|H0];
    [lia|].
  destruct (Qc_of_nat_ratio _ _ Hupper ltac:(lia)) as (Hr0 & Hr1 & Hrpos).
  specialize (Hrpos Hpos).
  set (r := (Qc_of_nat (levenshteinDistance n1 n2)
             / Qc_of_nat (length n1 `max` length n2))%Qc) in *.
  assert (Hlt : (1 - r < 1)%Qc).
  { apply (proj2 (Qcplus_lt_mono_r (1 - r) 1 r)).
    replace (1 - r + r)%Qc with (1 + 0)%Qc by ring.
    apply Qcplus_lt_mono_l. exact Hrpos. }
  split; [|split].
  - apply (proj2 (Qcplus_le_mono_r 0 (1 - r) r)).
    replace (1 - r + r)%Qc with 1%Qc by ring.
    rewrite Qcplus_0_l. exact Hr1.
  - now apply Qclt_le_weak.
  - split; [|contradiction]. intros H1. now apply Qclt_not_eq in Hlt.
Qed.

(** X13: The similarity lies between 0 and 1, and is 1 exactly when the two
    strings are equal once their tone marks are removed. *)
Theorem calculateSimilarity_range (bopomofo1 bopomofo2 : jsstring) :
  (0 <= calculateSimilarity bopomofo1 bopomofo2 <= 1)%Qc /\
  (calculateSimilarity bopomofo1 bopomofo2 = 1%Qc
   <-> removeBopomofoTone bopomofo1 = removeBopomofoTone bopomofo2).
Proof.
  destruct (calculateSimilarity_unit bopomofo1 bopomofo2) as (H0 & H1 & Hiff).
  split; [split; assumption|exact Hiff].
Qed.

End Distance.

(** ** The verdicts of the validator *)

Section Verdicts.
Import MoedictAPI MoedictTools.

Lemma exact_is_partial (candidates : list jsstring) (input : jsstring) :
  input ∈ candidates ->
  normalizeBopomofo input ∈ normalizeBopomofo <$> candidates.
Proof. apply list_elem_of_fmap_2. Qed.

(** The verdict of the three stages says correct exactly when the input
    matches a candidate up to tone marks or the greatest similarity exceeds
    0.7. *)
Lemma validateAgainst_isCorrect (candidates : list jsstring)
    (input : jsstring) :
  isCorrect (validateAgainst candidates input)
  = bool_decide (normalizeBopomofo input ∈ normalizeBopomofo <$> candidates)
    || num_ltb (lit 7 10)
         match calculateSimilarity input <$> candidates with
         | [] => 0%Qc
         | first :: rest => Math_max_of first rest
         end.
Proof.
  unfold validateAgainst.
  destruct (bool_decide_reflect (input ∈ candidates)) as [Hexact|Hexact].
  - cbn [isCorrect].
    now rewrite (bool_decide_eq_true_2 _ (exact_is_partial _ _ Hexact)).
  - now destruct (bool_decide
                    (normalizeBopomofo input
                     ∈ normalizeBopomofo <$> candidates)).
Qed.

Lemma calculateSimilarity_same_normal (input input' c : jsstring) :
  normalizeBopomofo input = normalizeBopomofo input' ->
  calculateSimilarity input c = calculateSimilarity input' c.
Proof. intros H. unfold calculateSimilarity. now rewrite H. Qed.

Lemma validateBopomofo_verdict_of (network : jsstring -> FetchResult)
    (cache : gmap jsstring MoedictResponse)
    (character input : jsstring) (v : Validation) :
  (validateBopomofo network cache character input).1 = Return v ->
  v = noMatch \/
  exists candidates, candidates <> [] /\ v = validateAgainst candidates input.
Proof.
  rewrite validateBopomofo_unfold. intros [= <-].
  destruct (getCharacterInfo network cache character).1 as [info|]; [|now left].
  destruct (readings info) as [|c candidates]; [now left|].
  right. exists (c :: candidates). split; [discriminate|reflexivity].
Qed.

(** X14: Two inputs that differ by their tone marks only get the same
    verdict of correctness from [validateBopomofo]. *)
Theorem validateBopomofo_tone_blind (network : jsstring -> FetchResult)
    (cache : gmap jsstring MoedictResponse)
    (character input input' : jsstring) (v v' : Validation) :
  removeBopomofoTone input = removeBopomofoTone input' ->
  (validateBopomofo network cache character input).1 = Return v ->
  (validateBopomofo network cache character input').1 = Return v' ->
  isCorrect v = isCorrect v'.
Proof.
  intros Hsame. rewrite !validateBopomofo_unfold. intros [= <-] [= <-].
  destruct (getCharacterInfo network cache character).1 as [info|];
    [|reflexivity].
  destruct (readings info) as [|c candidates]; [reflexivity|].
  rewrite !validateAgainst_isCorrect.
  change (normalizeBopomofo input = normalizeBopomofo input') in Hsame.
  rewrite Hsame. f_equal. f_equal.
  replace (calculateSimilarity input <$> c :: candidates)
    with (calculateSimilarity input' <$> c :: candidates); [reflexivity|].
  apply list_fmap_ext. intros _ x _. symmetry.
  now apply calculateSimilarity_same_normal.
Qed.

Lemma validateBopomofo_tone_blind_witness :
  isCorrect
    {| isCorrect := true; correctBopomofo := Some [12559; 12576; 715]%N;
       confidence := 1 |}
  = isCorrect
      {| isCorrect := true; correctBopomofo := Some [12559; 12576; 711]%N;
         confidence := lit 8 10 |}.
Proof.
  apply (validateBopomofo_tone_blind sampleNetwork ∅ sampleCharacter
           [12559; 12576; 715]%N [12559; 12576; 714]%N).
  - reflexivity.
  - apply validateBopomofo_sample_stages.
  - rewrite validateBopomofo_unfold.
    change (getCharacterInfo sampleNetwork ∅ sampleCharacter).1
      with (Some sampleInfo).
    f_equal; vm_compute; f_equal; apply Qc_is_canon; reflexivity.
Defined.

Lemma validateAgainst_partial (candidates : list jsstring)
    (input reading : jsstring) :
  reading ∈ candidates ->
  normalizeBopomofo input = normalizeBopomofo reading ->
  isCorrect (validateAgainst candidates input) = true /\
  (lit 8 10 <= confidence (validateAgainst candidates input))%Qc.
Proof.
  intros Hreading Hsame.
  assert (Hpartial : normalizeBopomofo input
                     ∈ normalizeBopomofo <$> candidates).
  { rewrite Hsame. now apply list_elem_of_fmap_2. }
  unfold validateAgainst.
  destruct (bool_decide (input ∈ candidates)).
  - split; [reflexivity|]. vm_compute. congruence.
  - rewrite (bool_decide_eq_true_2 _ Hpartial).
    split; [reflexivity|apply Qcle_refl].
Qed.

(** X15: An input that matches a reading of the character up to tone marks is
    judged correct, with a confidence of 0.8 at least: a wrong tone is
    accepted. *)
Theorem validateBopomofo_accepts_any_tone
    (network : jsstring -> FetchResult)
    (cache : gmap jsstring MoedictResponse)
    (character input : jsstring) (characterInfo : MoedictResponse)
    (reading : jsstring) :
  (getCharacterInfo network cache character).1 = Some characterInfo ->
  reading ∈ readings characterInfo ->
  removeBopomofoTone input = removeBopomofoTone reading ->
  exists v,
    (validateBopomofo network cache character input).1 = Return v /\
    isCorrect v = true /\ (lit 8 10 <= confidence v)%Qc.
Proof.
  intros Hlookup Hreading Hsame.
  rewrite validateBopomofo_unfold, Hlookup.
  destruct (readings characterInfo) as [|c candidates] eqn:Hr;
    [now apply elem_of_nil in Hreading|].
  eexists. split; [reflexivity|].
  now apply (validateAgainst_partial _ _ reading).
Qed.

Lemma validateBopomofo_accepts_any_tone_witness :
  exists v,
    (validateBopomofo sampleNetwork ∅ sampleCharacter
       [12559; 12576; 714]%N).1 = Return v /\
    isCorrect v = true /\ (lit 8 10 <= confidence v)%Qc.
Proof.
  apply (validateBopomofo_accepts_any_tone sampleNetwork ∅ sampleCharacter
           [12559; 12576; 714]%N sampleInfo [12559; 12576; 711]%N).
  - reflexivity.
  - left.
  - reflexivity.
Defined.

(** X16: Every verdict of [validateBopomofo] has a confidence between 0 and 1
    and says correct exactly when the confidence exceeds 0.7; it names a
    matched reading unless it is the verdict of a failed lookup, incorrect
    with confidence 0. *)
Theorem validateBopomofo_verdict (network : jsstring -> FetchResult)
    (cache : gmap jsstring MoedictResponse)
    (character input : jsstring) (v : Validation) :
  (validateBopomofo network cache character input).1 = Return v ->
  (0 <= confidence v)%Qc /\ (confidence v <= 1)%Qc /\
  (isCorrect v = true <-> (lit 7 10 < confidence v)%Qc) /\
  (correctBopomofo v = None -> v = noMatch).
Proof.
  intros Hv.
  destruct (validateBopomofo_verdict_of _ _ _ _ _ Hv)
    as [->|(candidates & Hne & ->)].
  { repeat split; try (vm_compute; congruence). }
  destruct (validateAgainst_cascade candidates input Hne)
    as (Hexact & Hpartial & Hfuzzy).
  destruct (decide (input ∈ candidates)) as [Hin|Hin].
  { rewrite (Hexact Hin). cbn.
    repeat split; try (vm_compute; congruence). }
  destruct (decide (normalizeBopomofo input
                    ∈ normalizeBopomofo <$> candidates)) as [Hn|Hn].
  { destruct (Hpartial Hin Hn) as (i & c & _ & ->). cbn.
    repeat split; try (vm_compute; congruence). }
  destruct (Hfuzzy Hin Hn) as (i & c & (_ & Hconf & _) & _ & Hcorrect & Hc).
  destruct (calculateSimilarity_unit input c) as (H0 & H1 & _).
  rewrite Hconf in H0, H1.
  split; [exact H0|]. split; [exact H1|]. split; [exact Hcorrect|].
  congruence.
Qed.

Lemma validateBopomofo_verdict_witness :
  let v := {| isCorrect := false;
              correctBopomofo := Some [12559; 12576; 711]%N;
              confidence := lit 1 2 |} in
  (0 <= confidence v)%Qc /\ (confidence v <= 1)%Qc /\
  (isCorrect v = true <-> (lit 7 10 < confidence v)%Qc) /\
  (correctBopomofo v = None -> v = noMatch).
Proof.
  apply (validateBopomofo_verdict sampleNetwork ∅ sampleCharacter
           [12559; 12570]%N).
  apply validateBopomofo_sample_stages.
Defined.

End Verdicts.

(** ** The utilities on phonetic strings *)

Section Tones.
Import MoedictAPI MoedictTools Evaluator.

Lemma filter_self {A : Type} (P : A -> Prop) `{forall x, Decision (P x)}
    (l : list A) :
  filter P l = l <-> Forall P l.
Proof.
  split.
  - intros Heq. apply Forall_forall. intros x Hx.
    rewrite <- Heq in Hx. now apply list_elem_of_filter in Hx.
  - induction 1 as [|x l Hx _ IH]; [reflexivity|].
    now rewrite filter_cons_True, IH.
Qed.

Lemma isToneMark_spec (c : N) :
  isToneMark c = true
  <-> c = 714%N \/ c = 711%N \/ c = 715%N \/ c = 729%N.
Proof.
  unfold isToneMark, toneMarks. rewrite bool_decide_eq_true.
  rewrite !elem_of_cons, elem_of_nil. tauto.
Qed.

(** [getBopomofoTone] answers a tone from 1 to 5, and the first tone
    exactly for the strings without a tone mark, those that
    [removeBopomofoTone] leaves as they are; it answers the first tone for
    every string that [removeBopomofoTone] returns. *)
Theorem getBopomofoTone_first (bopomofo : jsstring) :
  1 <= getBopomofoTone bopomofo <= 5 /\
  (getBopomofoTone bopomofo = 1 <-> removeBopomofoTone bopomofo = bopomofo) /\
  getBopomofoTone (removeBopomofoTone bopomofo) = 1.
Proof.
  assert (Hone : forall s : jsstring,
             getBopomofoTone s = 1
             <-> Forall (fun c => isToneMark c = false) s).
  { intros s. unfold getBopomofoTone. rewrite Forall_forall.
    repeat case_bool_decide; split; try discriminate; try reflexivity.
    - intros Hall.
      match goal with
      | Hin : _ ∈ s |- _ => apply Hall in Hin; discriminate Hin
      end.
    - intros Hall.
      match goal with
      | Hin : 711%N ∈ s |- _ => apply Hall in Hin; discriminate Hin
      end.
    - intros Hall.
      match goal with
      | Hin : 715%N ∈ s |- _ => apply Hall in Hin; discriminate Hin
      end.
    - intros Hall.
      match goal with
      | Hin : 729%N ∈ s |- _ => apply Hall in Hin; discriminate Hin
      end.
    - intros _ c Hc. apply not_true_iff_false. rewrite isToneMark_spec.
      intros [->|[->|[->| ->]]]; contradiction. }
  split; [|split].
  - unfold getBopomofoTone. repeat case_bool_decide; lia.
  - rewrite Hone. unfold removeBopomofoTone. now rewrite filter_self.
  - apply Hone, Forall_forall. intros c Hc.
    unfold removeBopomofoTone in Hc. now apply list_elem_of_filter in Hc.
Qed.

Lemma trimStart_filter (P : N -> Prop) `{forall c, Decision (P c)}
    (s : jsstring) :
  Forall (fun c => isWhiteSpace c = true -> ~ P c) s ->
  filter P (trimStart s) = filter P s.
Proof.
  induction 1 as [|c s Hc _ IH]; [reflexivity|].
  cbn [trimStart]. destruct (isWhiteSpace c) eqn:Hw; [|reflexivity].
  rewrite IH. symmetry. apply filter_cons_False. now apply Hc.
Qed.

Lemma trimStart_Forall (P : N -> Prop) (s : jsstring) :
  Forall P s -> Forall P (trimStart s).
Proof.
  induction 1 as [|c s Hc Hs IH]; [constructor|].
  cbn [trimStart]. destruct (isWhiteSpace c); [exact IH|now constructor].
Qed.

(** [trim] removes white space only. *)
Lemma trim_filter (P : N -> Prop) `{forall c, Decision (P c)} (s : jsstring) :
  Forall (fun c => isWhiteSpace c = true -> ~ P c) s ->
  filter P (trim s) = filter P s.
Proof.
  intros Hs. unfold trim.
  rewrite filter_reverse, trimStart_filter.
  - rewrite filter_reverse, reverse_involutive. now apply trimStart_filter.
  - apply Forall_reverse. now apply trimStart_Forall.
Qed.

Lemma isValidBopomofo_spec (bopomofo : jsstring) :
  isValidBopomofo bopomofo = true
  <-> bopomofo <> [] /\
      Forall (fun c => isLetter c = true \/ isToneMark c = true) bopomofo.
Proof.
  unfold isValidBopomofo. destruct bopomofo as [|c s].
  - split; [discriminate|]. now intros [? _].
  - rewrite forallb_forall, Forall_forall. split.
    + intros Hall. split; [discriminate|]. intros x Hx.
      apply orb_true_iff, Hall, list_elem_of_In, Hx.
    + intros [_ Hall] x Hx. apply orb_true_iff, Hall, list_elem_of_In, Hx.
Qed.

Lemma valid_not_space (c : N) :
  isLetter c = true \/ isToneMark c = true -> isWhiteSpace c = false.
Proof.
  intros Hc. apply not_true_iff_false. intros Hw.
  unfold isWhiteSpace in Hw. apply orb_true_iff in Hw.
  rewrite bool_decide_eq_true, !elem_of_cons, elem_of_nil in Hw.
  rewrite andb_true_iff, !N.leb_le in Hw.
  destruct Hc as [Hc|Hc].
  - unfold isLetter in Hc. rewrite andb_true_iff, !N.leb_le in Hc. lia.
  - apply isToneMark_spec in Hc. lia.
Qed.

(** X17: [formatBopomofo] only adds spaces to a valid phonetic string: without
    its spaces the result is the string again, and its tone is the tone of
    the string. *)
Theorem formatBopomofo_spaces (bopomofo : jsstring) :
  isValidBopomofo bopomofo = true ->
  filter (fun c => c <> 32%N) (formatBopomofo bopomofo) = bopomofo /\
  getBopomofoTone (formatBopomofo bopomofo) = getBopomofoTone bopomofo.
Proof.
  intros Hvalid. apply isValidBopomofo_spec in Hvalid as [_ Hvalid].
  assert (Hstrip :
            filter (fun c => c <> 32%N) (formatBopomofo bopomofo) = bopomofo).
  { unfold formatBopomofo. rewrite trim_filter.
    - induction Hvalid as [|c s Hc _ IH]; [reflexivity|].
      rewrite bind_cons, filter_app, IH.
      assert (c <> 32%N).
      { intros ->. apply valid_not_space in Hc. discriminate Hc. }
      destruct (isToneMark c).
      + rewrite filter_cons_False by (intros Hne; now apply Hne).
        now rewrite filter_cons_True.
      + now rewrite filter_cons_True.
    - apply Forall_forall. intros x Hx Hw Hne.
      apply list_elem_of_bind in Hx as (c & Hx & Hc).
      rewrite Forall_forall in Hvalid. apply Hvalid in Hc.
      apply valid_not_space in Hc.
      destruct (isToneMark c).
      + apply elem_of_cons in Hx as [->|Hx]; [now apply Hne|].
        apply list_elem_of_singleton in Hx as ->. congruence.
      + apply list_elem_of_singleton in Hx as ->. congruence. }
  split; [exact Hstrip|].
  assert (Hmem : forall m : N, m <> 32%N ->
                   (m ∈ formatBopomofo bopomofo <-> m ∈ bopomofo)).
  { intros m Hm. rewrite <- Hstrip at 2. rewrite list_elem_of_filter. tauto. }
  unfold getBopomofoTone.
  assert (H2 : 714%N <> 32%N) by discriminate.
  assert (H3 : 711%N <> 32%N) by discriminate.
  assert (H4 : 715%N <> 32%N) by discriminate.
  assert (H5 : 729%N <> 32%N) by discriminate.
  rewrite (bool_decide_ext _ _ (Hmem _ H2)), (bool_decide_ext _ _ (Hmem _ H3)).
  rewrite (bool_decide_ext _ _ (Hmem _ H4)), (bool_decide_ext _ _ (Hmem _ H5)).
  reflexivity.
Qed.

Lemma formatBopomofo_spaces_witness :
  filter (fun c => c <> 32%N) (formatBopomofo [12559; 12576; 711]%N)
  = [12559; 12576; 711]%N /\
  getBopomofoTone (formatBopomofo [12559; 12576; 711]%N)
  = getBopomofoTone [12559; 12576; 711]%N.
Proof.
  apply (formatBopomofo_spaces [12559; 12576; 711]%N). reflexivity.
Defined.

End Tones.

(** ** The evaluators on the other question types *)

Section OtherQuestions.
Import Evaluator Handlers.
Variable toLowerCase : jsstring -> jsstring.

(** X18: On every question that is not a sort question, on a missing
    question and on a missing answer (also to a sort question), the two
    evaluators give the same verdict and both leave the question as it
    is. *)
Theorem checkAnswer_agree
    (currentQuestion : option Question) (userAnswer : option Answer) :
  (forall items, currentQuestion <> Some (sort items)) \/ userAnswer = None ->
  (StudyView.checkAnswer toLowerCase currentQuestion userAnswer).1
  = (ReviewView.checkAnswer toLowerCase currentQuestion userAnswer).1 /\
  (StudyView.checkAnswer toLowerCase currentQuestion userAnswer).2
  = currentQuestion /\
  (ReviewView.checkAnswer toLowerCase currentQuestion userAnswer).2
  = currentQuestion.
Proof.
  intros [Hsort| ->].
  - destruct currentQuestion as [[? []| | |items| |]|], userAnswer;
      try (repeat split; reflexivity); now destruct (Hsort items).
  - destruct currentQuestion as [[? []| | |items| |]|];
      repeat split; reflexivity.
Qed.

(** X19: The verdict on a multi-select answer does not depend on the order in
    which the ids were selected, nor on the order of the options. *)
Theorem multiSelect_order
    (options options' : list QuestionOption)
    (selected selected' : list jsstring) :
  Permutation options options' -> Permutation selected selected' ->
  (StudyView.checkAnswer toLowerCase (Some (multiple_choice options true))
     (Some (a_strings selected))).1
  = (StudyView.checkAnswer toLowerCase (Some (multiple_choice options' true))
       (Some (a_strings selected'))).1.
Proof.
  intros Hoptions Hselected. cbn. f_equal.
  assert (Hcorrect : Permutation (correctOptions options)
                       (correctOptions options')).
  { unfold correctOptions. now rewrite Hoptions. }
  apply eq_true_iff_eq. rewrite !multiSelect_spec.
  rewrite (Permutation_length Hselected), (Permutation_length Hcorrect).
  split; intros [Hlen Hall]; (split; [exact Hlen|]); intros x Hx.
  - rewrite <- Hcorrect. apply Hall. now rewrite Hselected.
  - rewrite Hcorrect. apply Hall. now rewrite <- Hselected.
Qed.

(** X20: A single-choice answer is judged correct exactly when it is the id of
    the first option flagged correct: with no such option nothing is
    accepted, and of several only the first counts. *)
Theorem checkAnswer_single (options : list QuestionOption)
    (selected : jsstring) :
  (StudyView.checkAnswer toLowerCase (Some (multiple_choice options false))
     (Some (a_string selected))).1 = Return true
  <-> exists i option,
        MoedictAPI.first_at (fun o => isCorrect o = true) options i option
        /\ selected = id option.
Proof.
  cbn. unfold checkSingle, MoedictAPI.first_at.
  induction options as [|o options IH].
  - cbn. split; [discriminate|]. intros (i & option & (H & _) & _).
    now rewrite lookup_nil in H.
  - cbn [find]. destruct (isCorrect o) eqn:Ho.
    + split.
      * intros [= Heq]. apply bool_decide_eq_true in Heq.
        exists 0%nat, o. repeat split; auto. intros i' x' Hi'. lia.
      * intros ([|i] & option & (Hlook & Hc & Hfirst) & ->).
        -- injection Hlook as <-. f_equal. now apply bool_decide_eq_true.
        -- destruct (Hfirst 0%nat o); [lia|reflexivity|exact Ho].
    + rewrite IH. split.
      * intros (i & option & (Hlook & Hc & Hfirst) & ->).
        exists (S i), option. repeat split; auto.
        intros [|i'] x' Hi' Hx'.
        -- injection Hx' as <-. congruence.
        -- apply (Hfirst i' x'); [lia|exact Hx'].
      * intros ([|i] & option & (Hlook & Hc & Hfirst) & ->).
        -- injection Hlook as <-. congruence.
        -- exists i, option. repeat split; auto.
           intros i' x' Hi' Hx'. apply (Hfirst (S i') x'); [lia|exact Hx'].
Qed.

End OtherQuestions.

Section OtherQuestionsWitnesses.
Import Evaluator.

Lemma checkAnswer_agree_witness :
  let question :=
    sort [ {| item_id := [50%N]; item_text := [98%N]; correctOrder := 1 |};
           {| item_id := [49%N]; item_text := [97%N]; correctOrder := 0 |} ]
  in
  (StudyView.checkAnswer toLowerCaseASCII (Some question) None).1
  = (ReviewView.checkAnswer toLowerCaseASCII (Some question) None).1 /\
  (StudyView.checkAnswer toLowerCaseASCII (Some question) None).2
  = Some question /\
  (ReviewView.checkAnswer toLowerCaseASCII (Some question) None).2
  = Some question.
Proof.
  intros question.
  apply (checkAnswer_agree toLowerCaseASCII (Some question) None).
  right. reflexivity.
Defined.

Lemma multiSelect_order_witness :
  let a := {| id := [49%N]; text := [97%N]; isCorrect := true |} in
  let b := {| id := [50%N]; text := [98%N]; isCorrect := true |} in
  (StudyView.checkAnswer toLowerCaseASCII
     (Some (multiple_choice [a; b] true))
     (Some (a_strings [[49%N]; [50%N]]))).1
  = (StudyView.checkAnswer toLowerCaseASCII
       (Some (multiple_choice [b; a] true))
       (Some (a_strings [[50%N]; [49%N]]))).1.
Proof.
  intros a b.
  apply (multiSelect_order toLowerCaseASCII [a; b] [b; a]
           [[49%N]; [50%N]] [[50%N]; [49%N]]); apply perm_swap.
Defined.

End OtherQuestionsWitnesses.

(** ** Answers built with the keys *)

Section Keys.
Import Evaluator Handlers.

Lemma toggle_NoDup (current : list jsstring) (id : jsstring) :
  NoDup current -> NoDup (toggle current id).
Proof.
  intros Hnd. unfold toggle. case_bool_decide as Hin.
  - now apply NoDup_filter.
  - apply NoDup_app. split; [exact Hnd|]. split; [|apply NoDup_singleton].
    intros x Hx Hx'. apply list_elem_of_singleton in Hx' as ->. contradiction.
Qed.

(** Selecting an option that is not selected and pressing its key again
    gives back the answer as it was. *)
Lemma toggle_twice (current : list jsstring) (id : jsstring) :
  id ∉ current -> toggle (toggle current id) id = current.
Proof.
  intros Hin. unfold toggle at 2. rewrite bool_decide_eq_false_2 by exact Hin.
  unfold toggle. rewrite bool_decide_eq_true_2 by set_solver.
  rewrite filter_app, filter_cons_False, filter_nil, app_nil_r
    by (intros Hne; now apply Hne).
  apply filter_self, Forall_forall. intros x Hx ->. contradiction.
Qed.

Lemma afterKeys_NoDup (options : list QuestionOption)
    (keys : list jsstring) :
  NoDup (default [] (afterKeys options keys)).
Proof.
  unfold afterKeys.
  assert (H : forall userAnswer,
             NoDup (default [] userAnswer) ->
             NoDup (default [] (foldl (pressKey options) userAnswer keys))).
  { induction keys as [|key keys IH]; intros userAnswer Hnd; [exact Hnd|].
    cbn [foldl]. apply IH. unfold pressKey.
    destruct (MoedictAPI.indexOf _ _ key) as [idx|]; [|exact Hnd].
    destruct (options !! idx); [|exact Hnd]. cbn. now apply toggle_NoDup. }
  apply H. constructor.
Qed.

(** X21: On a question whose options have distinct ids, an answer built with
    the keys from the empty answer is judged correct exactly when the set
    of the selected ids is the set of the ids of the correct options. *)
Theorem afterKeys_set_equality (toLowerCase : jsstring -> jsstring)
    (options : list QuestionOption) (keys selected : list jsstring) :
  NoDup (id <$> options) ->
  afterKeys options keys = Some selected ->
  (StudyView.checkAnswer toLowerCase (Some (multiple_choice options true))
     (Some (a_strings selected))).1 = Return true
  <-> (list_to_set selected : gset jsstring)
      = list_to_set (correctOptions options).
Proof.
  intros Hids Hkeys. cbn.
  pose proof (afterKeys_NoDup options keys) as Hnd.
  rewrite Hkeys in Hnd. cbn in Hnd.
  assert (Hcorrect : NoDup (correctOptions options)).
  { unfold correctOptions. eapply sublist_NoDup; [exact Hids|].
    apply fmap_sublist, sublist_filter. }
  rewrite <- (multiSelect_NoDup _ _ Hnd Hcorrect).
  split; [now intros [= ->]|now intros ->].
Qed.

Lemma afterKeys_set_equality_witness :
  let a := {| id := [49%N]; text := [97%N]; isCorrect := true |} in
  let b := {| id := [50%N]; text := [98%N]; isCorrect := true |} in
  (StudyView.checkAnswer toLowerCaseASCII
     (Some (multiple_choice [a; b] true))
     (Some (a_strings [[50%N]; [49%N]]))).1 = Return true
  <-> (list_to_set [[50%N]; [49%N]] : gset jsstring)
      = list_to_set (correctOptions [a; b]).
Proof.
  intros a b.
  apply (afterKeys_set_equality toLowerCaseASCII [a; b]
           [[49%N]; [50%N]; [49%N]; [57%N]; [49%N]] [[50%N]; [49%N]]).
  - apply (bool_decide_unpack _). reflexivity.
  - reflexivity.
Defined.

End Keys.

(** ** White space around an answer *)

Section Trim.
Import Evaluator Handlers MoedictAPI MoedictTools.

Lemma trimStart_space (ws s : jsstring) :
  Forall (fun c => isWhiteSpace c = true) ws ->
  trimStart (ws ++ s) = trimStart s.
Proof.
  induction 1 as [|c ws Hc _ IH]; [reflexivity|].
  cbn [app trimStart]. now rewrite Hc.
Qed.

Lemma trimStart_nil (s : jsstring) :
  trimStart s = [] <-> Forall (fun c => isWhiteSpace c = true) s.
Proof.
  induction s as [|c s IH]; [split; [constructor|reflexivity]|].
  cbn [trimStart]. destruct (isWhiteSpace c) eqn:Hc.
  - rewrite IH. split; [now constructor|]. now intros [_ ?]%Forall_cons.
  - split; [discriminate|]. intros [Hc' _]%Forall_cons. congruence.
Qed.

Lemma trimStart_app (s t : jsstring) :
  trimStart s <> [] -> trimStart (s ++ t) = trimStart s ++ t.
Proof.
  induction s as [|c s IH]; [contradiction|].
  cbn [app trimStart]. destruct (isWhiteSpace c); [exact IH|reflexivity].
Qed.

(** [trim] drops the white space before and after a string. *)
Lemma trim_padding (ws ws' s : jsstring) :
  Forall (fun c => isWhiteSpace c = true) ws ->
  Forall (fun c => isWhiteSpace c = true) ws' ->
  trim (ws ++ s ++ ws') = trim s.
Proof.
  intros Hws Hws'. unfold trim. rewrite trimStart_space by exact Hws.
  destruct (trimStart s) as [|c s'] eqn:Hs.
  - assert (Hall : trimStart (s ++ ws') = []).
    { apply trimStart_nil, Forall_app. split; [now apply trimStart_nil|].
      exact Hws'. }
    now rewrite Hall.
  - rewrite trimStart_app by (rewrite Hs; discriminate).
    rewrite Hs, reverse_app. rewrite trimStart_space; [reflexivity|].
    now apply Forall_reverse.
Qed.

(** X22: White space before and after a typed answer does not change the
    verdict on a fill-blank question or on a question of one of the two
    phonetic types. *)
Theorem checkAnswer_padding (toLowerCase : jsstring -> jsstring)
    (question : Question) (ws ws' answer : jsstring) :
  Forall (fun c => isWhiteSpace c = true) ws ->
  Forall (fun c => isWhiteSpace c = true) ws' ->
  match question with
  | fill_blank _ _ | bopomofo_to_char _ _ | char_to_bopomofo _ _ =>
      StudyView.checkAnswer toLowerCase (Some question)
        (Some (a_string (ws ++ answer ++ ws')))
      = StudyView.checkAnswer toLowerCase (Some question)
          (Some (a_string answer))
  | _ => True
  end.
Proof.
  intros Hws Hws'.
  destruct question; try exact I; cbn;
    unfold checkFillBlank, trimmed; now rewrite trim_padding.
Qed.

Lemma checkAnswer_padding_witness :
  StudyView.checkAnswer toLowerCaseASCII
    (Some (bopomofo_to_char [12559; 12576; 711]%N sampleCharacter))
    (Some (a_string ([32%N] ++ sampleCharacter ++ [32%N; 10%N])))
  = StudyView.checkAnswer toLowerCaseASCII
      (Some (bopomofo_to_char [12559; 12576; 711]%N sampleCharacter))
      (Some (a_string sampleCharacter)).
Proof.
  apply (checkAnswer_padding toLowerCaseASCII
           (bopomofo_to_char [12559; 12576; 711]%N sampleCharacter)
           [32%N] [32%N; 10%N] sampleCharacter);
    repeat constructor.
Defined.

(** X23: The two verdicts that [handleSubmitAnswer] shows for a
    character-to-phonetic question can disagree: an answer that is a
    reading of the character with other tone marks than the stored reading
    is judged incorrect by [checkAnswer] and correct by the validator. *)
Theorem handleSubmitAnswer_disagree (toLowerCase : jsstring -> jsstring)
    (network : jsstring -> FetchResult)
    (cache : gmap jsstring MoedictResponse)
    (character correctBopomofo answer : jsstring)
    (characterInfo : MoedictResponse) :
  (getCharacterInfo network cache character).1 = Some characterInfo ->
  correctBopomofo ∈ readings characterInfo ->
  removeBopomofoTone answer = removeBopomofoTone correctBopomofo ->
  trim answer <> correctBopomofo ->
  exists validation cache',
    handleSubmitAnswer toLowerCase network cache
      (char_to_bopomofo character correctBopomofo) answer
    = (Return false, Some validation, cache') /\
    MoedictAPI.isCorrect validation = true.
Proof.
  intros Hlookup Hreading Hsame Hdiffer.
  unfold handleSubmitAnswer.
  pose proof (validateBopomofo_unfold network cache character answer) as Hv.
  destruct (validateBopomofo network cache character answer)
    as [[validation|error] cache'] eqn:Hvalidate; cbn [fst] in Hv;
    [|discriminate].
  exists validation, cache'. split.
  - cbn. unfold str_eqb. now rewrite bool_decide_eq_false_2.
  - injection Hv as ->. rewrite Hlookup.
    destruct (readings characterInfo) as [|c candidates] eqn:Hr;
      [now apply elem_of_nil in Hreading|].
    now apply (validateAgainst_partial _ _ correctBopomofo).
Qed.

Lemma handleSubmitAnswer_disagree_witness :
  exists validation cache',
    handleSubmitAnswer toLowerCaseASCII sampleNetwork ∅
      (char_to_bopomofo sampleCharacter [12559; 12576; 711]%N)
      [12559; 12576; 715]%N
    = (Return false, Some validation, cache') /\
    MoedictAPI.isCorrect validation = true.
Proof.
  apply (handleSubmitAnswer_disagree toLowerCaseASCII sampleNetwork ∅
           sampleCharacter [12559; 12576; 711]%N [12559; 12576; 715]%N
           sampleInfo).
  - reflexivity.
  - left.
  - reflexivity.
  - discriminate.
Defined.

End Trim.

(** ** Sorting and filtering *)

Section SortFilter.
Context {A : Type} (compareFn : A -> A -> Z) (key : A -> Z).
Hypothesis compareFn_key : forall a b, compareFn a b = key a - key b.

Lemma sort_insert_first (x : A) (l : list A) :
  Forall (fun y => key x <= key y) l ->
  sort_insert compareFn x l = x :: l.
Proof.
  destruct 1 as [|y l Hy _]; [reflexivity|].
  cbn [sort_insert]. rewrite compareFn_key.
  destruct (Z.leb_spec (key x - key y) 0); [reflexivity|lia].
Qed.

Lemma sort_insert_filter (P : A -> bool) (x : A) (l : list A) :
  StronglySorted (ascending key) l ->
  List.filter P (sort_insert compareFn x l)
  = if P x then sort_insert compareFn x (List.filter P l)
    else List.filter P l.
Proof.
  induction 1 as [|y l Hs IH Hy]; [cbn; now destruct (P x)|].
  cbn [sort_insert]. rewrite compareFn_key.
  destruct (Z.leb_spec (key x - key y) 0) as [Hle|Hgt].
  - cbn [List.filter]. destruct (P x) eqn:Hx; [|reflexivity].
    symmetry. apply sort_insert_first.
    assert (Hall : Forall (fun z => key x <= key z) (y :: l)).
    { constructor; [lia|]. eapply List.Forall_impl; [|exact Hy].
      unfold ascending. intros z Hz. lia. }
    clear -Hall. change (Forall (fun z => key x <= key z)
                           (List.filter P (y :: l))).
    apply List.Forall_forall. intros z Hz. apply filter_In in Hz.
    destruct Hz as [Hz _]. revert z Hz. now apply List.Forall_forall.
  - cbn [List.filter]. rewrite IH.
    destruct (P y) eqn:Hy', (P x) eqn:Hx; try reflexivity.
    cbn [sort_insert]. rewrite compareFn_key.
    destruct (Z.leb_spec (key x - key y) 0); [lia|reflexivity].
Qed.

Lemma Array_sort_filter (P : A -> bool) (l : list A) :
  Array_sort compareFn (List.filter P l)
  = List.filter P (Array_sort compareFn l).
Proof.
  induction l as [|x l IH]; [reflexivity|].
  cbn [List.filter]. change (Array_sort compareFn (x :: l))
    with (sort_insert compareFn x (Array_sort compareFn l)).
  rewrite sort_insert_filter
    by now apply (Array_sort_sorted compareFn key).
  destruct (P x); [|exact IH].
  change (Array_sort compareFn (x :: List.filter P l))
    with (sort_insert compareFn x (Array_sort compareFn (List.filter P l))).
  now rewrite IH.
Qed.

End SortFilter.

(** ** Ratings and the learning records *)

Section Ratings.
Import SRS Scheduling DatabaseContext Records.

Lemma find_fmap_preserved {A : Type} (p : A -> bool) (g : A -> A)
    (l : list A) :
  (forall x, p (g x) = p x) ->
  find p (g <$> l) = g <$> find p l.
Proof.
  intros Hp. induction l as [|x l IH]; [reflexivity|].
  cbn. rewrite Hp. destruct (p x); [reflexivity|exact IH].
Qed.

Lemma str_eqb_refl (x : jsstring) : str_eqb x x = true.
Proof. now apply str_eqb_eq. Qed.

Lemma getLearningRecord_Some (learningRecords : list LearningRecord)
    (questionId' : jsstring) (r : LearningRecord) :
  getLearningRecord learningRecords questionId' = Some r ->
  r ∈ learningRecords /\ questionId r = questionId'.
Proof.
  intros H. apply find_some in H. destruct H as [Hin H].
  split; [now apply list_elem_of_In|now apply str_eqb_eq].
Qed.

Lemma getLearningRecord_None (learningRecords : list LearningRecord)
    (questionId' : jsstring) :
  getLearningRecord learningRecords questionId' = None ->
  questionId' ∉ questionId <$> learningRecords.
Proof.
  intros H Hin. apply list_elem_of_fmap in Hin.
  destruct Hin as (r & -> & Hin). apply list_elem_of_In in Hin.
  apply (find_none _ _ H) in Hin. cbn in Hin.
  now rewrite str_eqb_refl in Hin.
Qed.

Lemma getLearningRecord_is_Some (learningRecords : list LearningRecord)
    (r : LearningRecord) :
  r ∈ learningRecords ->
  is_Some (getLearningRecord learningRecords (questionId r)).
Proof.
  intros Hin.
  destruct (getLearningRecord learningRecords (questionId r)) eqn:E;
    [eauto|].
  apply getLearningRecord_None in E. exfalso. apply E.
  apply list_elem_of_fmap. eauto.
Qed.

(** An update that leaves [questionId] alone is found again under the
    question. *)
Lemma getLearningRecord_update (learningRecords : list LearningRecord)
    (questionId' : jsstring) (existingRecord : LearningRecord)
    (updates : Updates) :
  getLearningRecord learningRecords questionId' = Some existingRecord ->
  u_questionId updates = None ->
  getLearningRecord
    ((fun r => if str_eqb (id r) (id existingRecord)
               then merge r updates else r) <$> learningRecords)
    questionId'
  = Some (merge existingRecord updates).
Proof.
  intros Hfind Hq. unfold getLearningRecord in *.
  rewrite find_fmap_preserved.
  - rewrite Hfind. cbn. now rewrite str_eqb_refl.
  - intros r. destruct (str_eqb (id r) (id existingRecord)); [|reflexivity].
    cbn. now rewrite Hq.
Qed.

Lemma getLearningRecord_create (learningRecords : list LearningRecord)
    (questionId' : jsstring) (r : LearningRecord) :
  getLearningRecord learningRecords questionId' = None ->
  questionId r = questionId' ->
  getLearningRecord (learningRecords ++ [r]) questionId' = Some r.
Proof.
  intros Hfind <-. revert Hfind. unfold getLearningRecord.
  induction learningRecords as [|r' l IH]; cbn.
  - now rewrite str_eqb_refl.
  - destruct (str_eqb (questionId r') (questionId r)); [discriminate|].
    exact IH.
Qed.


Lemma getLearningRecord_elem (learningRecords : list LearningRecord)
    (questionId' : jsstring) :
  is_Some (getLearningRecord learningRecords questionId')
  <-> questionId' ∈ questionId <$> learningRecords.
Proof.
  split.
  - intros [r Hr]. apply getLearningRecord_Some in Hr.
    destruct Hr as [Hin <-]. apply list_elem_of_fmap. eauto.
  - intros Hin.
    destruct (getLearningRecord learningRecords questionId') eqn:E; [eauto|].
    now apply getLearningRecord_None in E.
Qed.

(** X25: When the context holds one record per question and the database
    creates what it is asked to, a rating in the study view keeps one
    record per question exactly when the records of the render know of
    the question's record whenever the context holds one.  A call that no
    other write overlaps keeps it; the second of two overlapping calls for
    a question without a record, which reads the records of the render
    and appends to those of the context, does not. *)
Theorem StudyView_one_record_per_question
    (dbUpdate : exn unit) (newId : jsstring) (createdAt' : Z)
    (snapshot live : list LearningRecord)
    (questionId' subjectId' : jsstring)
    (f : FamiliarityLevel) (isCorrect : bool) (startTime : option Z)
    (clock : Clock) :
  NoDup (questionId <$> live) ->
  NoDup
    (questionId
       <$> (StudyView_handleFamiliaritySelect_at dbUpdate
              (Return (newId, createdAt')) snapshot live
              (Some (questionId', subjectId')) f isCorrect startTime
              clock).2)
  <-> (is_Some (getLearningRecord live questionId') ->
       is_Some (getLearningRecord snapshot questionId')).
Proof.
  intros Hnd. unfold StudyView_handleFamiliaritySelect_at.
  destruct (getLearningRecord snapshot questionId')
    as [existingRecord|] eqn:Hfind.
  - split; [eauto|]. intros _.
    destruct dbUpdate as [[]|error]; [|exact Hnd].
    cbn [updateLearningRecord snd]. rewrite <- list_fmap_compose.
    erewrite list_fmap_ext; [exact Hnd|].
    intros i r _. cbn.
    now destruct (str_eqb (id r) (id existingRecord)).
  - cbn [createLearningRecord snd]. rewrite fmap_app.
    rewrite getLearningRecord_elem. split.
    + intros Hafter Hin. exfalso.
      apply NoDup_app in Hafter. destruct Hafter as (_ & Hdisjoint & _).
      apply (Hdisjoint _ Hin). cbn. left.
    + intros Hnew. apply NoDup_app.
      split; [exact Hnd|]. split; [|apply NoDup_singleton].
      intros x Hx Hx'. apply list_elem_of_singleton in Hx'. subst x.
      cbn in Hx. apply Hnew in Hx. now destruct Hx.
Qed.

Lemma StudyView_one_record_per_question_witness :
  NoDup
    (questionId
       <$> (StudyView_handleFamiliaritySelect_at (Return tt)
              (Return ([114%N; 100%N], 5))
              [sampleRecord 97 1]
              [sampleRecord 97 1; sampleRecord 99 2]
              (Some ([113%N; 99%N], [115%N])) mastered true (Some 0)
              (sampleClock 9)).2)
  <-> (is_Some
         (getLearningRecord [sampleRecord 97 1; sampleRecord 99 2]
            [113%N; 99%N]) ->
       is_Some (getLearningRecord [sampleRecord 97 1] [113%N; 99%N])).
Proof.
  apply (StudyView_one_record_per_question (Return tt) [114%N; 100%N] 5
           [sampleRecord 97 1] [sampleRecord 97 1; sampleRecord 99 2]
           [113%N; 99%N] [115%N] mastered true (Some 0) (sampleClock 9)).
  apply (bool_decide_unpack _). reflexivity.
Defined.

(** A call that no other write overlaps keeps one record per question,
    whether the database calls succeed or throw. *)
Lemma StudyView_alone_one_record_per_question
    (dbUpdate : exn unit) (dbCreate : exn (jsstring * Z))
    (learningRecords : list LearningRecord)
    (currentQuestion : option (jsstring * jsstring))
    (f : FamiliarityLevel) (isCorrect : bool) (startTime : option Z)
    (clock : Clock) :
  NoDup (questionId <$> learningRecords) ->
  NoDup
    (questionId
       <$> (StudyView_handleFamiliaritySelect dbUpdate dbCreate
              learningRecords currentQuestion f isCorrect startTime
              clock).2).
Proof.
  intros Hnd. unfold StudyView_handleFamiliaritySelect,
    StudyView_handleFamiliaritySelect_at.
  destruct currentQuestion as [[questionId' subjectId']|]; [|exact Hnd].
  destruct (getLearningRecord learningRecords questionId')
    as [existingRecord|] eqn:Hfind.
  - destruct dbUpdate as [[]|error]; [|exact Hnd].
    cbn [updateLearningRecord snd]. rewrite <- list_fmap_compose.
    erewrite list_fmap_ext; [exact Hnd|].
    intros i r _. cbn.
    now destruct (str_eqb (id r) (id existingRecord)).
  - destruct dbCreate as [[newId now]|error]; [|exact Hnd].
    cbn [createLearningRecord snd]. rewrite fmap_app.
    apply NoDup_app. split; [exact Hnd|]. split; [|apply NoDup_singleton].
    intros x Hx Hx'. apply list_elem_of_singleton in Hx'. subst x.
    cbn in Hx. now apply getLearningRecord_None in Hfind.
Qed.

(** Two clicks in the modal on a question without a record leave two
    records of the question. *)
Lemma doubleClick_two_records
    (id1 id2 : jsstring) (created1 created2 : Z)
    (learningRecords : list LearningRecord)
    (questionId' subjectId' : jsstring) (first second : FamiliarityLevel)
    (isCorrect : bool) (startTime : option Z) (clock1 clock2 : Clock) :
  getLearningRecord learningRecords questionId' = None ->
  exists r1 r2,
    doubleClick (Return (id1, created1)) (Return (id2, created2))
      learningRecords (Some (questionId', subjectId')) first second
      isCorrect startTime clock1 clock2
    = learningRecords ++ [r1; r2] /\
    questionId r1 = questionId' /\ questionId r2 = questionId' /\
    familiarity r1 = first /\ familiarity r2 = second.
Proof.
  intros Hfind. unfold doubleClick, StudyView_handleFamiliaritySelect_at.
  rewrite Hfind. cbn [createLearningRecord snd].
  eexists _, _. rewrite <- app_assoc. cbn [app].
  split; [reflexivity|]. repeat split; reflexivity.
Qed.

Lemma Simple_not_before
    (now : Z) (f : FamiliarityLevel)
    (correctCount incorrectCount streak lastReviewed : Z) :
  now <= calculateNextReview defaultSRSAlgorithm now f correctCount
           incorrectCount streak lastReviewed.
Proof.
  cbn [calculateNextReview defaultSRSAlgorithm SimpleSRSAlgorithm].
  unfold addDays.
  destruct (intervalDays_bounds f correctCount incorrectCount streak)
    as [H0 H].
  assert (0 <= Qfloor (intervalDays f correctCount incorrectCount streak)
          <= 31) as [Hlo _].
  { apply Qfloor_Qc_bounds.
    - apply Qclt_le_weak. exact H0.
    - apply Qcle_lt_trans with (lit 63 2); [exact H|vm_compute; reflexivity]. }
  unfold msPerDay. lia.
Qed.

(** X26: What a rating keeps of every record: the counters are not negative,
    the streak is at most the count of correct answers, and the next review
    is not before the last one; the latter as long as the clock does not
    run backwards between the two readings. *)
Theorem StudyView_rating_invariants
    (dbUpdate : exn unit) (dbCreate : exn (jsstring * Z))
    (learningRecords : list LearningRecord)
    (currentQuestion : option (jsstring * jsstring))
    (f : FamiliarityLevel) (isCorrect : bool) (startTime : option Z)
    (clock : Clock) :
  reviewedAt clock <= scheduledAt clock ->
  Forall (fun r => wellCounted r /\ wellScheduled r) learningRecords ->
  Forall (fun r => wellCounted r /\ wellScheduled r)
    (StudyView_handleFamiliaritySelect dbUpdate dbCreate learningRecords
       currentQuestion f isCorrect startTime clock).2.
Proof.
  intros Hclock Hall. unfold StudyView_handleFamiliaritySelect,
    StudyView_handleFamiliaritySelect_at.
  destruct currentQuestion as [[questionId' subjectId']|]; [|exact Hall].
  destruct (getLearningRecord learningRecords questionId')
    as [existingRecord|] eqn:Hfind.
  - destruct dbUpdate as [[]|error]; [|exact Hall].
    cbn [updateLearningRecord snd].
    apply getLearningRecord_Some in Hfind. destruct Hfind as [Hin _].
    assert (He := proj1 (Forall_forall _ _) Hall _ Hin).
    destruct He as [(Hi & Hs0 & Hs) _].
    apply Forall_fmap. eapply Forall_impl; [exact Hall|].
    intros r Hr. cbn.
    destruct (str_eqb (id r) (id existingRecord)); [|exact Hr].
    unfold wellCounted, wellScheduled. cbn. split.
    + destruct isCorrect; lia.
    + etransitivity; [exact Hclock|].
      apply (Simple_not_before (scheduledAt clock) f _ _ _ 0).
  - destruct dbCreate as [[newId now]|error]; [|exact Hall].
    cbn [createLearningRecord snd]. apply Forall_app. split; [exact Hall|].
    apply Forall_singleton. unfold wellCounted, wellScheduled. cbn. split.
    + destruct isCorrect; lia.
    + etransitivity; [exact Hclock|].
      apply (Simple_not_before (scheduledAt clock) f _ _ _ 0).
Qed.

Lemma StudyView_rating_invariants_witness :
  Forall (fun r => wellCounted r /\ wellScheduled r)
    (StudyView_handleFamiliaritySelect (Return tt) (Return ([114%N], 5))
       [sampleRecord 97 1; sampleRecord 98 2]
       (Some ([113%N; 98%N], [115%N])) mastered true (Some 0)
       (sampleClock 9)).2.
Proof.
  apply (StudyView_rating_invariants (Return tt) (Return ([114%N], 5))
           [sampleRecord 97 1; sampleRecord 98 2]
           (Some ([113%N; 98%N], [115%N])) mastered true (Some 0)
           (sampleClock 9)).
  - cbn. lia.
  - repeat (constructor; [unfold wellCounted, wellScheduled; cbn; lia|]).
    constructor.
Defined.

Lemma getDueLearningRecords_elem (learningRecords : list LearningRecord)
    (now : Z) (r : LearningRecord) :
  r ∈ getDueLearningRecords learningRecords now
  <-> r ∈ learningRecords /\ nextReview r <= now.
Proof.
  unfold getDueLearningRecords.
  rewrite (Array_sort_Permutation compareNextReview
             (List.filter (isDue now) learningRecords)).
  rewrite !list_elem_of_In, filter_In. unfold isDue. rewrite Z.leb_le.
  reflexivity.
Qed.

(** X27: A question rated unfamiliar in the study view is due again at once:
    at any time from the rating on, its record is in the due queue. *)
Theorem unfamiliar_rating_is_due
    (newId : jsstring) (createdAt' : Z)
    (learningRecords : list LearningRecord)
    (questionId' subjectId' : jsstring)
    (isCorrect : bool) (startTime : option Z) (clock : Clock) (now : Z) :
  scheduledAt clock <= now ->
  let learningRecords' :=
    (StudyView_handleFamiliaritySelect (Return tt)
       (Return (newId, createdAt')) learningRecords
       (Some (questionId', subjectId')) unfamiliar isCorrect startTime
       clock).2 in
  exists r,
    getLearningRecord learningRecords' questionId' = Some r /\
    r ∈ getDueLearningRecords learningRecords' now.
Proof.
  intros Hnow learningRecords'. subst learningRecords'.
  unfold StudyView_handleFamiliaritySelect,
    StudyView_handleFamiliaritySelect_at.
  destruct (getLearningRecord learningRecords questionId')
    as [existingRecord|] eqn:Hfind.
  - cbn [updateLearningRecord snd].
    pose proof (getLearningRecord_update _ _ _
                  (reviewUpdates existingRecord unfamiliar isCorrect
                     startTime clock) Hfind eq_refl) as Hnew.
    eexists. split; [exact Hnew|].
    apply getDueLearningRecords_elem. split.
    + now apply getLearningRecord_Some in Hnew.
    + cbn. rewrite addDays_unfamiliar. exact Hnow.
  - cbn [createLearningRecord snd].
    eexists. split.
    + apply getLearningRecord_create; [exact Hfind|reflexivity].
    + apply getDueLearningRecords_elem. split.
      * apply elem_of_app. right. left.
      * cbn. rewrite addDays_unfamiliar. exact Hnow.
Qed.

Lemma unfamiliar_rating_is_due_witness :
  exists r,
    getLearningRecord
      (StudyView_handleFamiliaritySelect (Return tt) (Return ([114%N], 5))
         [sampleRecord 97 1] (Some ([113%N; 97%N], [115%N])) unfamiliar
         false (Some 0) (sampleClock 9)).2 [113%N; 97%N]
    = Some r /\
    r ∈ getDueLearningRecords
          (StudyView_handleFamiliaritySelect (Return tt)
             (Return ([114%N], 5)) [sampleRecord 97 1]
             (Some ([113%N; 97%N], [115%N])) unfamiliar false (Some 0)
             (sampleClock 9)).2 9.
Proof.
  apply (unfamiliar_rating_is_due [114%N] 5 [sampleRecord 97 1]
           [113%N; 97%N] [115%N] false (Some 0) (sampleClock 9) 9).
  cbn. lia.
Defined.

End Ratings.

(** ** The review session *)

Section ReviewSession.
Import SRS Scheduling DatabaseContext Records.

Lemma findQuestion_Some (questions : list StoredQuestion)
    (r : LearningRecord) (q : StoredQuestion) :
  findQuestion questions r = Some q ->
  q ∈ questions /\ q_id q = questionId r.
Proof.
  intros H. apply find_some in H. destruct H as [Hin H].
  split; [now apply list_elem_of_In|now apply str_eqb_eq].
Qed.

Lemma dueQuestions_elem (questions : list StoredQuestion)
    (learningRecords : list LearningRecord) (now : Z) (q : StoredQuestion) :
  q ∈ dueQuestions questions learningRecords now ->
  exists r,
    r ∈ getDueLearningRecords learningRecords now /\
    findQuestion questions r = Some q.
Proof. intros H. now apply list_elem_of_omap in H. Qed.

Lemma fmap_inj_on {A B : Type} (g : A -> B) (l : list A) (x y : A) :
  NoDup (g <$> l) -> x ∈ l -> y ∈ l -> g x = g y -> x = y.
Proof.
  intros Hnd Hx Hy Hg.
  apply list_elem_of_lookup in Hx. destruct Hx as [i Hi].
  apply list_elem_of_lookup in Hy. destruct Hy as [j Hj].
  assert (i = j) as ->.
  { eapply NoDup_lookup; [exact Hnd| |].
    - now rewrite list_lookup_fmap, Hi.
    - rewrite list_lookup_fmap, Hj. cbn. now rewrite Hg. }
  congruence.
Qed.

(** In the review view a current question always has a current record,
    and when no two records are of the same question that record is the
    due one. *)
Lemma current_record_of_due_question
    (questions : list StoredQuestion)
    (learningRecords : list LearningRecord) (now : Z) (currentIndex : nat)
    (currentQuestion : StoredQuestion) :
  NoDup (questionId <$> learningRecords) ->
  dueQuestions questions learningRecords now !! currentIndex
  = Some currentQuestion ->
  exists currentRecord,
    getLearningRecord learningRecords (q_id currentQuestion)
    = Some currentRecord /\
    currentRecord ∈ getDueLearningRecords learningRecords now /\
    findQuestion questions currentRecord = Some currentQuestion.
Proof.
  intros Hnd Hq. apply list_elem_of_lookup_2 in Hq.
  apply dueQuestions_elem in Hq. destruct Hq as (r & Hdue & Hfind).
  pose proof (proj1 (getDueLearningRecords_elem _ _ _) Hdue) as [Hin _].
  destruct (findQuestion_Some _ _ _ Hfind) as [_ Hid].
  destruct (getLearningRecord_is_Some _ _ Hin) as [r' Hr'].
  rewrite Hid. exists r'. split; [exact Hr'|].
  destruct (getLearningRecord_Some _ _ _ Hr') as [Hin' Hq'].
  assert (r' = r) as -> by now apply (fmap_inj_on questionId learningRecords).
  now split.
Qed.

Lemma accuracyFactor_half (correctCount incorrectCount : Z) :
  (lit 1 2 <= accuracyFactor correctCount incorrectCount)%Qc.
Proof.
  unfold accuracyFactor.
  destruct (0 <? correctCount + incorrectCount);
    [destruct (num_leb _ _); [|destruct (num_ltb _ _)]|];
    vm_compute; congruence.
Qed.

(** From the tier familiar on, the Simple algorithm schedules the next
    review at least a day ahead. *)
Lemma Simple_a_day_ahead
    (now : Z) (f : FamiliarityLevel)
    (correctCount incorrectCount streak lastReviewed : Z) :
  f = familiar \/ f = mastered ->
  now + msPerDay
  <= calculateNextReview defaultSRSAlgorithm now f correctCount
       incorrectCount streak lastReviewed.
Proof.
  intros Hf.
  cbn [calculateNextReview defaultSRSAlgorithm SimpleSRSAlgorithm].
  unfold addDays.
  assert (1 <= Qfloor (intervalDays f correctCount incorrectCount streak))
    as Hlo.
  { rewrite <- (Qfloor_Z 1). apply Qfloor_resp_le.
    change (Qc_of_Z 1 <= intervalDays f correctCount incorrectCount streak)%Qc.
    rewrite intervalDays_factors.
    pose proof (accuracyFactor_half correctCount incorrectCount) as Ha.
    destruct (streakFactor_bounds streak) as [Hs _].
    apply Qcle_trans with (Qc_of_Z 3 * lit 1 2 * 1)%Qc;
      [vm_compute; congruence|].
    apply Qcle_trans
      with (baseInterval f * accuracyFactor correctCount incorrectCount
            * 1)%Qc.
    - apply Qcmult_le_compat_r; [|vm_compute; congruence].
      apply Qcle_trans with (baseInterval f * lit 1 2)%Qc.
      + apply Qcmult_le_compat_r; [|vm_compute; congruence].
        destruct Hf as [-> | ->]; vm_compute; congruence.
      + apply Qcmult_le_mono_nonneg_l; [|exact Ha].
        apply Qclt_le_weak, baseInterval_bounds.
    - apply Qcmult_le_mono_nonneg_l; [|exact Hs].
      apply Qclt_le_weak, Qcmult_pos_pos;
        [apply baseInterval_bounds|apply accuracyFactor_bounds]. }
  unfold msPerDay in *. lia.
Qed.

(** The due queue after an update that takes the records of one [id] out
    of it, when no other record falls due in between. *)
Lemma getDueLearningRecords_update
    (learningRecords : list LearningRecord) (id' : jsstring)
    (updates : Updates) (renderedAt rerenderedAt scheduled : Z) :
  u_nextReview updates = Some scheduled ->
  rerenderedAt < scheduled ->
  renderedAt <= rerenderedAt ->
  (forall r, r ∈ learningRecords ->
     nextReview r <= renderedAt \/ rerenderedAt < nextReview r) ->
  getDueLearningRecords
    ((fun r => if str_eqb (id r) id' then merge r updates else r)
       <$> learningRecords)
    rerenderedAt
  = List.filter (fun r => negb (str_eqb (id r) id'))
      (getDueLearningRecords learningRecords renderedAt).
Proof.
  intros Hnext Hlater Hle Hstable. unfold getDueLearningRecords.
  rewrite <- (Array_sort_filter compareNextReview nextReview)
    by reflexivity.
  f_equal. induction learningRecords as [|r l IH]; [reflexivity|].
  cbn [fmap list_fmap List.filter].
  rewrite IH by (intros r' Hr'; apply Hstable; now right).
  clear IH.
  assert (isDue rerenderedAt (merge r updates) = false) as Hmerged.
  { unfold isDue. cbn [nextReview merge]. rewrite Hnext. cbn.
    apply Z.leb_gt. exact Hlater. }
  assert (isDue rerenderedAt r = isDue renderedAt r) as Hsame.
  { unfold isDue. destruct (Hstable r) as [Hdue|Hnot]; [now left| |].
    - transitivity true; [|symmetry]; apply Z.leb_le; lia.
    - transitivity false; [|symmetry]; apply Z.leb_gt; lia. }
  destruct (str_eqb (id r) id') eqn:E.
  - rewrite Hmerged. destruct (isDue renderedAt r); [|reflexivity].
    cbn [List.filter]. now rewrite E.
  - rewrite Hsame. destruct (isDue renderedAt r); [|reflexivity].
    cbn [List.filter]. now rewrite E.
Qed.

(** Taking the one record of a question out of a list of records moves
    the questions behind it one place forward. *)
Lemma omap_without {A B : Type} (g : A -> option B) (keep : A -> bool)
    (l : list A) (x : A) (y : B) (i : nat) :
  NoDup l ->
  x ∈ l ->
  g x = Some y ->
  (forall x', x' ∈ l -> g x' = Some y -> x' = x) ->
  (forall x', x' ∈ l -> keep x' = false <-> x' = x) ->
  omap g l !! i = Some y ->
  omap g (List.filter keep l) !! (i + 1)%nat = omap g l !! (i + 2)%nat.
Proof.
  intros Hnd Hx Hg Honly Hkeep. revert i.
  induction l as [|x' l IH]; intros i Hi; [inversion Hx|].
  apply NoDup_cons in Hnd. destruct Hnd as [Hx' Hnd].
  cbn [List.filter]. destruct (keep x') eqn:Ek.
  - assert (x' <> x) as Hne.
    { intros ->. assert (keep x = false) by (apply Hkeep; [left|reflexivity]).
      congruence. }
    assert (x ∈ l) as Hin.
    { apply elem_of_cons in Hx. destruct Hx as [->|Hx]; [easy|exact Hx]. }
    assert (IH' : forall i, omap g l !! i = Some y ->
              omap g (List.filter keep l) !! (i + 1)%nat
              = omap g l !! (i + 2)%nat).
    { apply IH; [exact Hnd|exact Hin| |].
      - intros z Hz. apply Honly. now right.
      - intros z Hz. apply Hkeep. now right. }
    cbn [omap list_omap] in *. destruct (g x') as [y'|] eqn:Eg.
    + destruct i as [|i].
      * cbn in Hi. injection Hi as ->. exfalso. apply Hne.
        apply Honly; [left|exact Eg].
      * cbn in Hi. cbn. now apply IH'.
    + now apply IH'.
  - assert (x' = x) as -> by (apply Hkeep; [left|exact Ek]).
    assert (List.filter keep l = l) as ->.
    { assert (Hall : forall z, z ∈ l -> keep z = true).
      { intros z Hz. destruct (keep z) eqn:Ez; [reflexivity|].
        exfalso. apply Hx'.
        assert (z = x) as -> by (apply Hkeep; [now right|exact Ez]).
        exact Hz. }
      clear -Hall. induction l as [|z l IH]; [reflexivity|].
      cbn. rewrite (Hall z) by left. f_equal. apply IH.
      intros z' Hz'. apply Hall. now right. }
    cbn [omap list_omap] in *. rewrite Hg in *.
    destruct i as [|i].
    + reflexivity.
    + cbn in Hi. exfalso. apply Hx'.
      apply list_elem_of_lookup_2 in Hi. apply list_elem_of_omap in Hi.
      destruct Hi as (z & Hz & Hgz).
      assert (z = x) as -> by (apply Honly; [now right|exact Hgz]).
      exact Hz.
Qed.

(** X29: A rating in the review view that schedules the question at least a
    day ahead makes the session pass over the question that was next in
    the queue: the record leaves the due queue, the questions behind it
    move one place forward, and the index moves on as well. *)
Theorem ReviewView_rating_skips_next
    (questions : list StoredQuestion)
    (learningRecords : list LearningRecord)
    (renderedAt rerenderedAt : Z) (currentIndex : nat)
    (f : FamiliarityLevel) (isCorrect : bool) (startTime : option Z)
    (clock : Clock) :
  NoDup (id <$> learningRecords) ->
  NoDup (questionId <$> learningRecords) ->
  f = familiar \/ f = mastered ->
  renderedAt <= rerenderedAt < scheduledAt clock + msPerDay ->
  (forall r, r ∈ learningRecords ->
     nextReview r <= renderedAt \/ rerenderedAt < nextReview r) ->
  (currentIndex + 1
   < length (dueQuestions questions learningRecords renderedAt))%nat ->
  exists learningRecords',
    ReviewView_handleFamiliaritySelect (Return tt) questions
      learningRecords renderedAt currentIndex f isCorrect startTime clock
    = (Return tt, learningRecords', review (currentIndex + 1)) /\
    currentQuestion questions learningRecords' rerenderedAt
      (currentIndex + 1)
    = currentQuestion questions learningRecords renderedAt
        (currentIndex + 2).
Proof.
  intros Hids Hqids Hf [Hle Hlt] Hstable Hlen.
  unfold ReviewView_handleFamiliaritySelect, currentQuestion.
  destruct (dueQuestions questions learningRecords renderedAt
              !! currentIndex) as [currentQuestion|] eqn:Hq.
  2:{ apply lookup_ge_None in Hq. lia. }
  destruct (current_record_of_due_question _ _ _ _ _ Hqids Hq)
    as (currentRecord & Hrec & Hdue & Hfind).
  rewrite Hrec. cbn [updateLearningRecord].
  eexists. split.
  - f_equal. unfold handleNextQuestion.
    destruct (Z.ltb_spec (Z.of_nat currentIndex)
                (Z.of_nat (length (dueQuestions questions learningRecords
                                     renderedAt)) - 1)); [reflexivity|lia].
  - unfold dueQuestions at 1.
    erewrite (getDueLearningRecords_update learningRecords
                (id currentRecord) _ renderedAt rerenderedAt);
      [|reflexivity| |exact Hle|exact Hstable].
    + apply omap_without with (x := currentRecord) (y := currentQuestion).
      * unfold getDueLearningRecords. rewrite Array_sort_Permutation.
        apply NoDup_ListNoDup, List.NoDup_filter, NoDup_ListNoDup.
        eapply NoDup_fmap_1. exact Hids.
      * exact Hdue.
      * exact Hfind.
      * intros r Hr Hfr.
        apply getDueLearningRecords_elem in Hr, Hdue.
        apply (fmap_inj_on questionId learningRecords);
          [exact Hqids|tauto|tauto|].
        apply findQuestion_Some in Hfr, Hfind.
        destruct Hfr as [_ <-], Hfind as [_ <-]. reflexivity.
      * intros r Hr. rewrite negb_false_iff, str_eqb_eq.
        apply getDueLearningRecords_elem in Hr, Hdue.
        split; [|now intros ->].
        apply (fmap_inj_on id learningRecords); [exact Hids|tauto|tauto].
      * exact Hq.
    + pose proof (Simple_a_day_ahead (scheduledAt clock) f
                    (correctCount currentRecord
                     + (if isCorrect then 1 else 0))
                    (incorrectCount currentRecord
                     + (if isCorrect then 0 else 1))
                    (if isCorrect then streak currentRecord + 1 else 0)
                    (argumentAt clock) Hf).
      lia.
Qed.

Lemma ReviewView_rating_skips_next_witness :
  exists learningRecords',
    ReviewView_handleFamiliaritySelect (Return tt)
      [sampleQuestion 97; sampleQuestion 98; sampleQuestion 99]
      [sampleRecord 99 3; sampleRecord 97 1; sampleRecord 98 2] 10 0
      mastered true (Some 6) (sampleClock 10)
    = (Return tt, learningRecords', review (0 + 1)) /\
    currentQuestion
      [sampleQuestion 97; sampleQuestion 98; sampleQuestion 99]
      learningRecords' 11 (0 + 1)
    = currentQuestion
        [sampleQuestion 97; sampleQuestion 98; sampleQuestion 99]
        [sampleRecord 99 3; sampleRecord 97 1; sampleRecord 98 2] 10
        (0 + 2).
Proof.
  apply (ReviewView_rating_skips_next
           [sampleQuestion 97; sampleQuestion 98; sampleQuestion 99]
           [sampleRecord 99 3; sampleRecord 97 1; sampleRecord 98 2] 10 11
           0 mastered true (Some 6) (sampleClock 10)).
  - apply (bool_decide_unpack _). reflexivity.
  - apply (bool_decide_unpack _). reflexivity.
  - right. reflexivity.
  - cbn. unfold msPerDay. lia.
  - intros r Hr. left.
    repeat (apply elem_of_cons in Hr; destruct Hr as [->|Hr]; [cbn; lia|]).
    inversion Hr.
  - vm_compute. lia.
Defined.

(** X28: In the review view, when no two records are of the same question, the
    current question has a current record, and it is the due record that
    put the question into the queue. *)
Theorem ReviewView_current_record
    (questions : list StoredQuestion)
    (learningRecords : list LearningRecord) (now : Z) (currentIndex : nat)
    (currentQuestion : StoredQuestion) :
  NoDup (questionId <$> learningRecords) ->
  Records.currentQuestion questions learningRecords now currentIndex
  = Some currentQuestion ->
  exists currentRecord,
    getLearningRecord learningRecords (q_id currentQuestion)
    = Some currentRecord /\
    currentRecord ∈ learningRecords /\
    nextReview currentRecord <= now.
Proof.
  intros Hnd Hq. unfold Records.currentQuestion in Hq.
  destruct (current_record_of_due_question _ _ _ _ _ Hnd Hq)
    as (currentRecord & Hrec & Hdue & _).
  exists currentRecord. split; [exact Hrec|].
  now apply getDueLearningRecords_elem.
Qed.

Lemma ReviewView_current_record_witness :
  exists currentRecord,
    getLearningRecord
      [sampleRecord 99 3; sampleRecord 97 1; sampleRecord 98 2]
      (q_id (sampleQuestion 98))
    = Some currentRecord /\
    currentRecord ∈ [sampleRecord 99 3; sampleRecord 97 1; sampleRecord 98 2]
    /\ nextReview currentRecord <= 2.
Proof.
  apply (ReviewView_current_record
           [sampleQuestion 97; sampleQuestion 98; sampleQuestion 99]
           [sampleRecord 99 3; sampleRecord 97 1; sampleRecord 98 2] 2 1
           (sampleQuestion 98)).
  - apply (bool_decide_unpack _). reflexivity.
  - reflexivity.
Defined.

Lemma find_filter_implied {A : Type} (p keep : A -> bool) (l : list A) :
  (forall x, p x = true -> keep x = true) ->
  find p (List.filter keep l) = find p l.
Proof.
  intros Himp. induction l as [|x l IH]; [reflexivity|].
  cbn. destruct (keep x) eqn:Ek; cbn.
  - destruct (p x); [reflexivity|exact IH].
  - destruct (p x) eqn:Ep; [|exact IH].
    apply Himp in Ep. congruence.
Qed.

(** X30: Deleting a question takes its records along and nothing else: the
    question has no record afterwards and is never a due question, and the
    record of every other question is found as before. *)
Theorem deleteQuestion_forgets
    (questions : list StoredQuestion)
    (learningRecords : list LearningRecord) (id' : jsstring) :
  let '(_, questions', learningRecords') :=
    deleteQuestion (Return tt) questions learningRecords id' in
  getLearningRecord learningRecords' id' = None /\
  (forall now q,
     q ∈ dueQuestions questions' learningRecords' now -> q_id q <> id') /\
  (forall questionId',
     questionId' <> id' ->
     getLearningRecord learningRecords' questionId'
     = getLearningRecord learningRecords questionId').
Proof.
  cbn [deleteQuestion]. split; [|split].
  - unfold getLearningRecord.
    destruct (find _ _) as [r|] eqn:E; [|reflexivity].
    apply find_some in E. destruct E as [Hin E].
    apply filter_In in Hin. destruct Hin as [_ Hne].
    rewrite E in Hne. discriminate.
  - intros now q Hq. apply dueQuestions_elem in Hq.
    destruct Hq as (r & _ & Hfind).
    apply find_some in Hfind. destruct Hfind as [Hin _].
    apply filter_In in Hin. destruct Hin as [_ Hne].
    apply negb_true_iff in Hne. intros Heq.
    apply str_eqb_eq in Heq. congruence.
  - intros questionId' Hne. apply find_filter_implied.
    intros r Hr. apply str_eqb_eq in Hr. apply negb_true_iff.
    destruct (str_eqb (questionId r) id') eqn:E; [|reflexivity].
    apply str_eqb_eq in E. congruence.
Qed.

End ReviewSession.

(** ** The validator on payloads of any shape *)

Section WirePayloads.
Import MoedictAPI Wire.

Lemma isZero_Qc_of_nat (n : nat) :
  isZero (Some (j_number (Qc_of_nat n))) = bool_decide (n = 0%nat).
Proof.
  cbn. apply eq_true_iff_eq. rewrite num_eqb_eq, bool_decide_eq_true.
  unfold Qc_of_nat. split.
  - intros H. assert (H0 : Qc_of_Z 0 = 0%Qc) by now apply Qc_is_canon.
    rewrite <- H0 in H. apply Z2Qc_inj in H. lia.
  - intros ->. now apply Qc_is_canon.
Qed.

Lemma exn_map_falsy (items : list Json) :
  Forall (fun heteronym =>
            exists b, getProperty heteronym name_b = Return b /\
                      truthy b = false) items ->
  exists bs,
    exn_map (fun heteronym => getProperty heteronym name_b) items
    = Return bs /\
    filterBoolean bs = [].
Proof.
  induction 1 as [|item items (b & Hb & Hfalsy) _ (bs & Hbs & Hnone)].
  - now exists [].
  - exists (b :: bs). cbn. rewrite Hb. cbn. rewrite Hbs. cbn.
    split; [reflexivity|]. unfold filterBoolean in *. cbn.
    now rewrite Hfalsy.
Qed.

(** On a payload without candidate readings the body of the validator
    completes with the lowest verdict. *)
Lemma validateInfo_noReadings (data : Json) (inputBopomofo : jsstring) :
  noReadings data -> validateInfo data inputBopomofo = Return noMatch.
Proof.
  unfold validateInfo.
  intros [Hdata|[(h & Hh & Hfalsy)|[(h & hLength & Hh & Hlen & Hzero)
                                   |(items & Hh & Hitems)]]].
  - now rewrite Hdata.
  - destruct (truthy (Some data)); [|reflexivity]. cbn [negb].
    rewrite Hh. cbn [exn_bind]. destruct h as [h|]; [|reflexivity].
    now rewrite Hfalsy.
  - destruct (truthy (Some data)); [|reflexivity]. cbn [negb].
    rewrite Hh. cbn [exn_bind].
    destruct (truthy (Some h)); [|reflexivity]. cbn [negb].
    rewrite Hlen. cbn [exn_bind]. now rewrite Hzero.
  - destruct (truthy (Some data)); [|reflexivity]. cbn [negb].
    rewrite Hh. cbn [exn_bind truthy negb getLength].
    destruct (isZero _); [reflexivity|].
    destruct (exn_map_falsy items Hitems) as (bs & Hbs & Hnone).
    cbn [mapHeteronyms]. rewrite Hbs. cbn [exn_bind]. now rewrite Hnone.
Qed.

(** A failed lookup answers [null] and leaves the cache as it is. *)
Lemma getCharacterInfo_null (network : jsstring -> Promise Response)
    (cache : gmap jsstring Json) (character : jsstring) :
  lookupFails network cache character ->
  getCharacterInfo network cache character = (fulfilled j_null, cache).
Proof.
  intros [Hmiss Hfails]. unfold getCharacterInfo. rewrite Hmiss.
  unfold fetchCharacterInfo, encodeURIComponent.
  destruct Hfails as [Hill|[(error & Hnet)|(response & Hnet & Hresponse)]].
  - now rewrite Hill.
  - destruct (wellFormed character); [|reflexivity]. now rewrite Hnet.
  - destruct (wellFormed character); [|reflexivity]. rewrite Hnet.
    destruct Hresponse as [Hok|(error & Hjson)].
    + now rewrite Hok.
    + destruct (ok response); [|reflexivity]. cbn. now rewrite Hjson.
Qed.

(** C6, as amended: when the lookup fails (the request cannot be made or
    is rejected, the response is not [ok], or its body is not JSON) or
    returns a payload without candidate readings, the promise of
    [validateBopomofo] is fulfilled, not rejected and not left pending,
    with the verdict incorrect, confidence 0 and no matched reading. *)
Theorem validateBopomofo_degrades_on_failure
    (network : jsstring -> Promise Response) (cache : gmap jsstring Json)
    (character inputBopomofo : jsstring) :
  lookupFails network cache character \/
  (exists data,
     (getCharacterInfo network cache character).1 = fulfilled data /\
     noReadings data) ->
  (validateBopomofo network cache character inputBopomofo).1
  = fulfilled {| isCorrect := false; correctBopomofo := None;
                 confidence := 0 |}.
Proof.
  unfold validateBopomofo. intros [Hfails|(data & Hdata & Hnone)].
  - now rewrite (getCharacterInfo_null _ _ _ Hfails).
  - destruct (getCharacterInfo network cache character)
      as [characterInfo cache'].
    cbn [fst] in Hdata. subst characterInfo. cbn [fst].
    now rewrite (validateInfo_noReadings _ _ Hnone).
Qed.

Lemma validateBopomofo_degrades_on_failure_witness :
  (validateBopomofo downNetwork ∅ sampleCharacter [12559; 12576]%N).1
  = fulfilled {| isCorrect := false; correctBopomofo := None;
                 confidence := 0 |}.
Proof.
  apply (validateBopomofo_degrades_on_failure downNetwork ∅
           sampleCharacter).
  left. split; [reflexivity|]. right. left. now exists NetworkError.
Defined.

(** C6 as stated fails on a malformed payload: the lookup succeeds with
    the body [{"h": [null]}], and [validateBopomofo] rejects with a
    [TypeError]. *)
Lemma validateBopomofo_malformed_payload_throws :
  (getCharacterInfo malformedNetwork ∅ sampleCharacter).1
  = fulfilled malformedInfo /\
  (validateBopomofo malformedNetwork ∅ sampleCharacter
     [12559; 12576; 711]%N).1
  = rejected TypeError.
Proof. split; reflexivity. Qed.

(** The other bodies that are not of the declared shape: an [h] that is a
    string, and a [b] that is a number, make the validator throw as well;
    the body [null] does not. *)
Lemma validateInfo_other_payloads (inputBopomofo : jsstring) :
  validateInfo (j_object [(name_h, j_string [97; 98; 99]%N)]) inputBopomofo
  = Throw TypeError /\
  validateInfo
    (j_object [(name_h, j_array [j_object [(name_b, j_number (Qc_of_Z 5))]])])
    inputBopomofo
  = Throw TypeError /\
  validateInfo j_null inputBopomofo = Return noMatch.
Proof. repeat split; reflexivity. Qed.

(** The promise of [validateBopomofo] stays pending exactly when the
    character is not in the cache and the request, or the reading of its
    body, stays pending: there is no timeout. *)
Lemma validateBopomofo_pending
    (network : jsstring -> Promise Response) (cache : gmap jsstring Json)
    (character inputBopomofo : jsstring) :
  (validateBopomofo network cache character inputBopomofo).1 = pending
  <-> cache !! character = None /\ wellFormed character = true /\
      (network character = pending \/
       exists response,
         network character = fulfilled response /\
         ok response = true /\ json response = pending).
Proof.
  unfold validateBopomofo, getCharacterInfo, fetchCharacterInfo,
    encodeURIComponent.
  destruct (cache !! character) as [data|].
  { cbn. destruct (validateInfo data inputBopomofo); cbn;
      (split; [discriminate|intros [? _]; discriminate]). }
  destruct (wellFormed character).
  2:{ cbn. split; [discriminate|intros (_ & ? & _); discriminate]. }
  destruct (network character) as [|response|error].
  - cbn. split; [intros _|reflexivity]. repeat split. now left.
  - destruct (ok response) eqn:Hok; cbn [negb].
    + destruct (json response) as [|data|error] eqn:Hjson.
      * cbn. split; [intros _|reflexivity]. repeat split. right.
        exists response. now repeat split.
      * cbn. destruct (validateInfo data inputBopomofo); cbn;
          (split; [discriminate|]);
          intros (_ & _ & [?|(r & [= <-] & _ & ?)]); congruence.
      * cbn. split; [discriminate|].
        intros (_ & _ & [?|(r & [= <-] & _ & ?)]); congruence.
    + cbn. split; [discriminate|].
      intros (_ & _ & [?|(r & [= <-] & ? & _)]); congruence.
  - cbn. split; [discriminate|].
    intros (_ & _ & [?|(r & ? & _)]); congruence.
Qed.

(** *** Payloads of the declared shape *)

Lemma fetchCharacterInfo_typed (network : jsstring -> FetchResult)
    (character : jsstring) :
  fetchCharacterInfo (onWire network) character
  = match MoedictAPI.fetchCharacterInfo network character with
    | Return data => fulfilled (encode data)
    | Throw error => rejected error
    end.
Proof.
  unfold fetchCharacterInfo, MoedictAPI.fetchCharacterInfo,
    encodeURIComponent, fetch, onWire.
  destruct (wellFormed character); [|reflexivity]. cbn [exn_bind].
  destruct (network character) as [|response]; [reflexivity|].
  cbn [exn_bind ok status json].
  destruct (MoedictAPI.ok response); [|reflexivity]. cbn [negb].
  now destruct (MoedictAPI.json response).
Qed.

Lemma getCharacterInfo_typed (network : jsstring -> FetchResult)
    (cache : gmap jsstring MoedictResponse) (character : jsstring) :
  getCharacterInfo (onWire network) (encode <$> cache) character
  = (fulfilled
       (from_option encode j_null
          (MoedictAPI.getCharacterInfo network cache character).1),
     encode <$> (MoedictAPI.getCharacterInfo network cache character).2).
Proof.
  unfold getCharacterInfo, MoedictAPI.getCharacterInfo.
  rewrite lookup_fmap, fetchCharacterInfo_typed.
  destruct (cache !! character) as [data|]; [reflexivity|]. cbn [fmap].
  destruct (MoedictAPI.fetchCharacterInfo network character)
    as [data|error]; [|reflexivity].
  cbn. now rewrite fmap_insert.
Qed.

Lemma mapHeteronyms_encode (hs : list Heteronym) :
  exn_map (fun heteronym => getProperty heteronym name_b)
    (encodeHeteronym <$> hs)
  = Return ((fun x => j_string <$> b x) <$> hs).
Proof.
  induction hs as [|x hs IH]; [reflexivity|].
  cbn [fmap list_fmap exn_map]. fold (fmap encodeHeteronym hs).
  fold (fmap (fun x => j_string <$> b x) hs). rewrite IH.
  unfold encodeHeteronym at 1. now destruct (b x).
Qed.

Lemma filterBoolean_encode (hs : list Heteronym) :
  filterBoolean ((fun x => j_string <$> b x) <$> hs)
  = j_string <$> possibleBopomofo hs.
Proof.
  unfold filterBoolean, possibleBopomofo.
  induction hs as [|x hs IH]; [reflexivity|].
  cbn [fmap list_fmap omap list_omap].
  fold (fmap (fun x => j_string <$> b x) hs).
  fold (omap (fun value : option Json =>
                if truthy value then value else None)
          ((fun x => j_string <$> b x) <$> hs)).
  fold (omap (fun heteronym => MoedictAPI.truthy (b heteronym)) hs).
  rewrite IH. now destruct (b x) as [[|c v]|].
Qed.

Lemma includes_encode (input : jsstring) (l : list jsstring) :
  existsb (isString input) (j_string <$> l) = bool_decide (input ∈ l).
Proof.
  induction l as [|c l IH]; [reflexivity|].
  cbn [fmap list_fmap existsb isString]. fold (fmap j_string l).
  rewrite IH. unfold str_eqb. apply eq_true_iff_eq.
  rewrite orb_true_iff, !bool_decide_eq_true, elem_of_cons.
  split; (intros [?|?]; [left|right]); congruence.
Qed.

Lemma normalizeCandidate_encode (l : list jsstring) :
  exn_map normalizeCandidate (j_string <$> l)
  = Return (normalizeBopomofo <$> l).
Proof.
  induction l as [|c l IH]; [reflexivity|].
  cbn [fmap list_fmap exn_map normalizeCandidate exn_bind].
  fold (fmap j_string l). fold (fmap normalizeBopomofo l). now rewrite IH.
Qed.

Lemma asString_encode (l : list jsstring) :
  asString <$> (j_string <$> l) = l.
Proof.
  rewrite <- list_fmap_compose. induction l as [|c l IH]; [reflexivity|].
  cbn. now f_equal.
Qed.

(** On a payload of the declared shape the body of the validator is the
    typed one. *)
Lemma validateInfo_typed (characterInfo : MoedictResponse)
    (inputBopomofo : jsstring) :
  validateInfo (encode characterInfo) inputBopomofo
  = Return
      match readings characterInfo with
      | [] => noMatch
      | c :: candidates => validateAgainst (c :: candidates) inputBopomofo
      end.
Proof.
  unfold validateInfo, readings, encode.
  cbn [truthy negb getProperty find fst snd].
  replace (str_eqb [116%N] name_h) with false by reflexivity.
  destruct (h characterInfo) as [hs|]; [|reflexivity].
  cbn [find fst]. rewrite str_eqb_refl.
  cbn [fmap option_fmap option_map snd exn_bind truthy negb getLength].
  rewrite isZero_Qc_of_nat, length_fmap.
  case_bool_decide as Hhs.
  { apply length_zero_iff_nil in Hhs. now subst hs. }
  cbn [mapHeteronyms]. rewrite mapHeteronyms_encode. cbn [exn_bind].
  rewrite filterBoolean_encode, length_fmap.
  destruct (possibleBopomofo hs) as [|c candidates] eqn:Hpossible;
    [reflexivity|].
  destruct (decide (length (c :: candidates) = 0%nat)); [discriminate|].
  rewrite includes_encode, normalizeCandidate_encode, asString_encode.
  cbn [exn_bind].
  destruct (bool_decide (inputBopomofo ∈ c :: candidates)) eqn:Hexact;
    [|reflexivity].
  unfold validateAgainst. now rewrite Hexact.
Qed.

(** On settled requests that serve payloads of the declared shape,
    [validateBopomofo] is the typed validator of [MoedictAPI]: its promise
    is fulfilled with the typed verdict, and the cache holds the payloads
    of the typed cache. *)
Lemma validateBopomofo_typed (network : jsstring -> FetchResult)
    (cache : gmap jsstring MoedictResponse)
    (character inputBopomofo : jsstring) :
  validateBopomofo (onWire network) (encode <$> cache) character
    inputBopomofo
  = (settled
       (MoedictAPI.validateBopomofo network cache character
          inputBopomofo).1,
     encode
       <$> (MoedictAPI.validateBopomofo network cache character
              inputBopomofo).2).
Proof.
  unfold validateBopomofo. rewrite getCharacterInfo_typed.
  rewrite validateBopomofo_unfold.
  assert (Hcache :
            (MoedictAPI.validateBopomofo network cache character
               inputBopomofo).2
            = (MoedictAPI.getCharacterInfo network cache character).2).
  { unfold MoedictAPI.validateBopomofo.
    destruct (MoedictAPI.getCharacterInfo network cache character)
      as [[info|] cache']; [|reflexivity].
    destruct (h info) as [hs|]; [|reflexivity].
    destruct (decide (length hs = 0%nat)); [reflexivity|].
    now destruct (decide (length (possibleBopomofo hs) = 0%nat)). }
  rewrite Hcache.
  destruct (MoedictAPI.getCharacterInfo network cache character)
    as [[info|] cache']; cbn [fst snd from_option]; [|reflexivity].
  now rewrite validateInfo_typed.
Qed.

End WirePayloads.

(** ** The study view: what the evaluator is run on *)

Section StudySessionInvariant.
Import Evaluator Handlers StudySession.
Variable toLowerCase : jsstring -> jsstring.

Lemma answerFits_ext (s s' : State) :
  studyQuestions s' = studyQuestions s ->
  currentQuestionIndex s' = currentQuestionIndex s ->
  userAnswer s' = userAnswer s ->
  answerFits s -> answerFits s'.
Proof.
  unfold answerFits, currentQuestion. intros -> -> ->. auto.
Qed.

Lemma answerFits_None (s : State) : userAnswer s = None -> answerFits s.
Proof. intros H answer. rewrite H. discriminate. Qed.

Lemma answerFits_change (s : State) (question : Question)
    (answer : Answer) :
  currentQuestion s = Some question -> fits question answer ->
  answerFits (handleAnswerChange s answer).
Proof.
  intros Hq Hfits answer' [= <-]. exists question.
  split; [exact Hq|exact Hfits].
Qed.

(** On an answer that fits the question, the evaluator leaves the
    question as it is. *)
Lemma checkAnswer_fits (question : Question) (answer : Answer) :
  fits question answer ->
  (StudyView.checkAnswer toLowerCase (Some question) (Some answer)).2
  = Some question.
Proof.
  destruct question as [? []| | | | |], answer; cbn; tauto.
Qed.

Lemma handleSubmitAnswer_frame (s : State) :
  answerFits s ->
  studyQuestions (handleSubmitAnswer toLowerCase s) = studyQuestions s /\
  currentQuestionIndex (handleSubmitAnswer toLowerCase s)
  = currentQuestionIndex s /\
  userAnswer (handleSubmitAnswer toLowerCase s) = userAnswer s.
Proof.
  intros Hfits. unfold handleSubmitAnswer.
  destruct (userAnswer s) as [answer|] eqn:Hanswer; [|auto].
  destruct (Hfits answer Hanswer) as (question & Hq & Hshape).
  rewrite Hq.
  pose proof (checkAnswer_fits question answer Hshape) as Hpure.
  destruct (StudyView.checkAnswer toLowerCase (Some question) (Some answer))
    as [correct question'].
  cbn [snd] in Hpure. subst question'.
  assert (<[currentQuestionIndex s := question]> (studyQuestions s)
          = studyQuestions s) as ->
    by (apply list_insert_id; exact Hq).
  destruct correct; cbn; auto.
Qed.

Lemma chooseOption_fits (s : State) (idx : nat) :
  answerFits s -> answerFits (chooseOption s idx).
Proof.
  intros Hfits. unfold chooseOption.
  destruct (currentQuestion s) as [[options allowMultiple| | | | |]|] eqn:Hq;
    try exact Hfits.
  destruct (options !! idx) as [option|]; [|exact Hfits].
  destruct allowMultiple; now apply (answerFits_change _ _ _ Hq).
Qed.

Lemma handleKeyDown_fits (s : State) (key : jsstring) :
  answerFits s -> answerFits (handleKeyDown toLowerCase s key).
Proof.
  intros Hfits. unfold handleKeyDown.
  destruct (showFamiliarityModal s); [exact Hfits|].
  destruct (str_eqb key key_Enter).
  { destruct (showAnswer s); cbn [negb].
    - destruct (enterCount s =? 1)%nat;
        now apply (answerFits_ext s).
    - destruct (handleSubmitAnswer_frame s Hfits) as (Hqs & Hi & Ha).
      now apply (answerFits_ext s). }
  destruct (str_eqb key key_Space).
  { destruct (showAnswer s); [now apply answerFits_None|exact Hfits]. }
  destruct (showAnswer s); cbn [negb]; [exact Hfits|].
  destruct (MoedictAPI.indexOf str_eqb optionKeys key); [|exact Hfits].
  now apply chooseOption_fits.
Qed.

Lemma step_fits (s s' : State) (e : Event) :
  answerFits s -> step toLowerCase s e = Some s' -> answerFits s'.
Proof.
  intros Hfits. destruct e as [qs|key|idx|value|value| | | |more|];
    cbn [step].
  - intros [= <-]. now apply answerFits_None.
  - intros [= <-]. now apply handleKeyDown_fits.
  - intros [= <-]. destruct (showAnswer s); [exact Hfits|].
    now apply chooseOption_fits.
  - intros [= <-]. destruct (showAnswer s); [exact Hfits|].
    destruct (currentQuestion s) as [[]|] eqn:Hq; try exact Hfits.
    now apply (answerFits_change _ _ _ Hq).
  - intros [= <-]. destruct (showAnswer s); [exact Hfits|].
    destruct (currentQuestion s) as [[]|] eqn:Hq; try exact Hfits;
      now apply (answerFits_change _ _ _ Hq).
  - intros [= <-]. destruct (showAnswer s); [exact Hfits|].
    destruct (currentQuestion s); [|exact Hfits].
    destruct (handleSubmitAnswer_frame s Hfits) as (Hqs & Hi & Ha).
    now apply (answerFits_ext s).
  - intros [= <-]. destruct (showAnswer s); [|exact Hfits].
    destruct (currentQuestion s); [|exact Hfits].
    now apply answerFits_None.
  - intros [= <-]. destruct (showAnswer s); [|exact Hfits].
    destruct (currentQuestion s); [|exact Hfits].
    now apply (answerFits_ext s).
  - unfold handleNextQuestion. destruct more; [|discriminate].
    intros [= <-]. now apply answerFits_None.
  - discriminate.
Qed.

(** In every state of the view, the answer is one that the controls of
    the current question give. *)
Lemma Reachable_fits (s : State) : Reachable toLowerCase s -> answerFits s.
Proof.
  induction 1 as [|s s' e _ IH Hstep].
  - now apply answerFits_None.
  - exact (step_fits s s' e IH Hstep).
Qed.

(** No control gives a sort question an answer: while a sort question is
    the current one, the answer is [null], and submitting does nothing. *)
Lemma sort_never_answered (s : State) (items : list SortItem) :
  Reachable toLowerCase s ->
  currentQuestion s = Some (sort items) ->
  userAnswer s = None /\ handleSubmitAnswer toLowerCase s = s.
Proof.
  intros Hreach Hq. apply Reachable_fits in Hreach.
  assert (userAnswer s = None) as Hnone.
  { destruct (userAnswer s) as [answer|] eqn:Ha; [|reflexivity].
    destruct (Hreach answer Ha) as (question & Hq' & Hshape).
    rewrite Hq in Hq'. injection Hq' as <-. now destruct answer. }
  split; [exact Hnone|]. unfold handleSubmitAnswer. now rewrite Hnone.
Qed.

(** The view holds every question, of whatever type, with the [null]
    answer, every question with a text input with every string, and every
    true-false question with both answers. *)
Lemma Held_unanswered (question : Question) :
  Held toLowerCase (Some question) None.
Proof.
  exists (load mounted [question]). split; [|split; reflexivity].
  apply (Reachable_step toLowerCase mounted _ (SubjectLoaded [question]));
    [constructor|reflexivity].
Qed.

Lemma Held_typed (question : Question) (value : jsstring) :
  match question with
  | fill_blank _ _ | bopomofo_to_char _ _ | char_to_bopomofo _ _ =>
      Held toLowerCase (Some question) (Some (a_string value))
  | true_false _ =>
      Held toLowerCase (Some question) (Some (a_boolean true)) /\
      Held toLowerCase (Some question) (Some (a_boolean false))
  | _ => True
  end.
Proof.
  destruct (Held_unanswered question) as (s & Hreach & Hq & Ha).
  assert (Hshow : forall e s',
            step toLowerCase (load mounted [question]) e = Some s' ->
            Reachable toLowerCase s').
  { intros e s' Hstep.
    apply (Reachable_step toLowerCase (load mounted [question]) s' e);
      [|exact Hstep].
    apply (Reachable_step toLowerCase mounted _ (SubjectLoaded [question]));
      [constructor|reflexivity]. }
  destruct question; try exact I.
  - split.
    + eexists. split; [apply (Hshow (TruthChanged true)); reflexivity|].
      split; reflexivity.
    + eexists. split; [apply (Hshow (TruthChanged false)); reflexivity|].
      split; reflexivity.
  - eexists. split; [apply (Hshow (TextChanged value)); reflexivity|].
    split; reflexivity.
  - eexists. split; [apply (Hshow (TextChanged value)); reflexivity|].
    split; reflexivity.
  - eexists. split; [apply (Hshow (TextChanged value)); reflexivity|].
    split; reflexivity.
Qed.


End StudySessionInvariant.

Section StudySessionWitness.
Import Evaluator Handlers StudySession.


End StudySessionWitness.
